(** * SpecQuery: the OpenAPI-to-hooks generation pipeline

    A shallow embedding of the generator: the loader's operation
    extraction ([src/loaders/openapi.ts]), the four template renderers
    ([src/emit/templates/*.tpl.ts]), the file writer
    ([src/emit/writeFiles.ts]), the driver ([src/generate.ts]) and the
    command-line entry point ([src/cli.ts]).

    Renderers are string-valued functions producing the very text the
    TypeScript templates produce.  The pieces of JavaScript that the
    templates emit and that the specification talks about at run time (the
    query-key factory, [serializeQuery], the interpolated request path) are
    given their JavaScript meaning over a small value type, next to the text
    that carries them.

    Strings are byte strings.  Character classes and case mapping are the
    ASCII ones, so identifiers outside ASCII are outside this model. *)

From Stdlib Require Import String Ascii List Bool Arith Lia ZArith DecimalString.
From stdpp Require Import gmap strings list.

Set Warnings "-register-all,-clear-no-such-hyp".

(** ** JavaScript strings, arrays and values *)

Module Js.

(** The double-quote character, spliced into emitted text. *)
Definition dq : string := String (ascii_of_nat 34) EmptyString.

Definition inRange (lo hi : nat) (c : ascii) : bool :=
  let n := nat_of_ascii c in (lo <=? n) && (n <=? hi).

Definition isLower : ascii -> bool := inRange 97 122.
Definition isUpper : ascii -> bool := inRange 65 90.
Definition isDigit : ascii -> bool := inRange 48 57.
Definition isAlnum (c : ascii) : bool := isLower c || isUpper c || isDigit c.

(** [\w] of a regular expression: letters, digits and underscore. *)
Definition isWordChar (c : ascii) : bool := isAlnum c || Ascii.eqb c "_".

Definition lowerChar (c : ascii) : ascii :=
  if isUpper c then ascii_of_nat (nat_of_ascii c + 32) else c.

Definition upperChar (c : ascii) : ascii :=
  if isLower c then ascii_of_nat (nat_of_ascii c - 32) else c.

Fixpoint mapChars (f : ascii -> ascii) (s : string) : string :=
  match s with
  | EmptyString => EmptyString
  | String c r => String (f c) (mapChars f r)
  end.

Definition toLowerCase : string -> string := mapChars lowerChar.
Definition toUpperCase : string -> string := mapChars upperChar.

(** [Array.prototype.join]. *)
Fixpoint join (sep : string) (l : list string) : string :=
  match l with
  | [] => ""
  | x :: rest =>
      match rest with
      | [] => x
      | _ :: _ => x +:+ sep +:+ join sep rest
      end
  end.

Definition startsWith (s pre : string) : bool := String.prefix pre s.

(** [String.prototype.includes]. *)
Fixpoint includes (s sub : string) : bool :=
  String.prefix sub s ||
  match s with
  | EmptyString => false
  | String _ r => includes r sub
  end.

Fixpoint lastChar (s : string) : option ascii :=
  match s with
  | EmptyString => None
  | String c EmptyString => Some c
  | String _ r => lastChar r
  end.

Definition endsWithChar (s : string) (c : ascii) : bool :=
  match lastChar s with
  | Some d => Ascii.eqb c d
  | None => false
  end.

(** [s.slice(0, -1)]. *)
Fixpoint dropLast (s : string) : string :=
  match s with
  | EmptyString => EmptyString
  | String _ EmptyString => EmptyString
  | String c r => String c (dropLast r)
  end.

(** [s.replace(/[{}]/g, "")]. *)
Fixpoint stripBraces (s : string) : string :=
  match s with
  | EmptyString => EmptyString
  | String c r =>
      if Ascii.eqb c "{" || Ascii.eqb c "}" then stripBraces r
      else String c (stripBraces r)
  end.

(** Values that reach the emitted helpers at run time, and values of the
    document that the loader copies without a check.  Numbers are the
    integers of magnitude below 10^21, which [String] prints as decimal
    numerals; larger numbers and fractions are outside the model.  An
    object is the list of its own enumerable entries in [Object.entries]
    order. *)
Inductive Value : Type :=
| Undefined
| Null
| Bool (b : bool)
| Num (z : Z)
| Str (s : string)
| Arr (items : list Value)
| Obj (entries : list (string * Value)).

(** [v ?? d]. *)
Definition nullish (v d : Value) : Value :=
  match v with
  | Undefined | Null => d
  | _ => v
  end.

(** Truthiness, as [!v], [v || d] and [Boolean(v)] see it. *)
Definition truthy (v : Value) : bool :=
  match v with
  | Undefined | Null => false
  | Bool b => b
  | Num z => negb (Z.eqb z 0)
  | Str s => negb (String.eqb s "")
  | Arr _ | Obj _ => true
  end.

(** [v === s] for a string [s]. *)
Definition strictEqualsString (v : Value) (s : string) : bool :=
  match v with
  | Str t => String.eqb t s
  | _ => false
  end.

(** [o?.k]: property read through an optional chain. *)
Fixpoint lookupEntry (k : string) (es : list (string * Value)) : Value :=
  match es with
  | [] => Undefined
  | (k', v) :: rest => if String.eqb k k' then v else lookupEntry k rest
  end.

Definition optGet (o : Value) (k : string) : Value :=
  match o with
  | Obj es => lookupEntry k es
  | _ => Undefined
  end.

(** [String(z)] for an integer of magnitude below 10^21. *)
Definition numToString (z : Z) : string := NilEmpty.string_of_int (Z.to_int z).

(** [String(v)].  An array prints its items separated by commas, with
    [null] and [undefined] items printed as nothing. *)
Fixpoint toString (v : Value) : string :=
  match v with
  | Undefined => "undefined"
  | Null => "null"
  | Bool true => "true"
  | Bool false => "false"
  | Num z => numToString z
  | Str s => s
  | Arr items =>
      join ","
        (List.map (fun item =>
                     match item with
                     | Undefined | Null => ""
                     | _ => toString item
                     end) items)
  | Obj _ => "[object Object]"
  end.

(** A call either returns or throws; [Thrown] carries the error message. *)
Inductive Result (A : Type) : Type :=
| Ok (a : A)
| Thrown (message : string).
Arguments Ok {A} a.
Arguments Thrown {A} message.

Definition bind {A B : Type} (r : Result A) (k : A -> Result B) : Result B :=
  match r with
  | Ok a => k a
  | Thrown m => Thrown m
  end.

(** [Array.prototype.map] with a callback that may throw: the first
    exception ends the loop. *)
Fixpoint mapM {A B : Type} (f : A -> Result B) (l : list A) : Result (list B) :=
  match l with
  | [] => Ok []
  | x :: rest =>
      bind (f x) (fun y => bind (mapM f rest) (fun ys => Ok (y :: ys)))
  end.

(** [l || []] on an optional array. *)
Definition orEmpty {A : Type} (l : option (list A)) : list A :=
  match l with
  | Some xs => xs
  | None => []
  end.

End Js.

(** ** [camelCase] of the change-case package

    The package is a dependency, not part of the repository.  This is its
    algorithm on ASCII input: a word boundary is put between a lower-case
    letter or digit and an upper-case letter, and before the last capital of
    a run of capitals that is followed by a lower-case letter; every run of
    characters that are neither letters nor digits separates words and is
    dropped; the first word is lower-cased, every later word is lower-cased
    with its first character capitalised, or prefixed by an underscore when
    that character is a digit; the words are concatenated. *)

Module ChangeCase.
Import Js.

Definition NUL : ascii := ascii_of_nat 0.

(** [/([a-z0-9])([A-Z])/g] replaced by ["$1\0$2"]. *)
Fixpoint splitLowerUpper (s : string) : string :=
  match s with
  | EmptyString => EmptyString
  | String c1 rest =>
      match rest with
      | String c2 _ =>
          if (isLower c1 || isDigit c1) && isUpper c2
          then String c1 (String NUL (splitLowerUpper rest))
          else String c1 (splitLowerUpper rest)
      | EmptyString => String c1 EmptyString
      end
  end.

(** [/([A-Z])([A-Z][a-z])/g] replaced by ["$1\0$2"]. *)
Fixpoint splitUpperUpper (s : string) : string :=
  match s with
  | EmptyString => EmptyString
  | String c1 rest =>
      match rest with
      | String c2 (String c3 _) =>
          if isUpper c1 && isUpper c2 && isLower c3
          then String c1 (String NUL (splitUpperUpper rest))
          else String c1 (splitUpperUpper rest)
      | _ => String c1 (splitUpperUpper rest)
      end
  end.

Definition flush (cur : string) : list string :=
  if String.eqb cur "" then [] else [cur].

(** Strip [/[^A-Z0-9]+/gi], trim the separators and split on them: the
    words are the maximal runs of letters and digits. *)
Fixpoint wordsFrom (cur : string) (s : string) : list string :=
  match s with
  | EmptyString => flush cur
  | String c r =>
      if isAlnum c then wordsFrom (cur +:+ String c "") r
      else flush cur ++ wordsFrom "" r
  end.

Definition split (s : string) : list string :=
  wordsFrom "" (splitUpperUpper (splitLowerUpper s)).

Definition pascalCaseTransform (word : string) : string :=
  match word with
  | EmptyString => EmptyString
  | String c r =>
      if isDigit c then String "_" (String c (toLowerCase r))
      else String (upperChar c) (toLowerCase r)
  end.

Definition camelCase (s : string) : string :=
  match split s with
  | [] => ""
  | w :: ws => String.concat "" (toLowerCase w :: List.map pascalCaseTransform ws)
  end.

End ChangeCase.

(** ** The operation model ([src/model.ts]) *)

Module Model.

Inductive HttpMethod : Type := get | post | put | patch | delete | head.

Definition methodName (m : HttpMethod) : string :=
  match m with
  | get => "get" | post => "post" | put => "put"
  | patch => "patch" | delete => "delete" | head => "head"
  end.

Inductive ParamIn : Type := InPath | InQuery | InHeader | InCookie.

Definition locationName (loc : ParamIn) : string :=
  match loc with
  | InPath => "path" | InQuery => "query" | InHeader => "header" | InCookie => "cookie"
  end.

(** A schema is [any] in the source.  The generator reads its [type] and
    [format] and tests [items] for presence, nothing else. *)
Record Schema : Type := {
  s_type : option string;
  s_format : option string;
  s_items : bool
}.

(** [name] and [in] are typed as a string and as one of four strings, but
    the loader copies them from the document without a check: they hold
    whatever the parameter object carried, [undefined] when it carried
    nothing, as an unresolved [$ref] object does. *)
Record Param : Type := {
  p_name : Js.Value;
  p_in : Js.Value;
  p_required : bool;
  p_schema : option Schema;
  p_type : option string;
  p_format : option string
}.

Record RequestBody : Type := {
  b_contentType : string;
  b_schema : option Schema;
  b_required : bool
}.

Record Response : Type := {
  r_contentType : option string;
  r_schema : option Schema;
  r_description : option string
}.

(** [responses] lists the entries of the record in [Object.entries]
    order.  The four parameter views are optional in the type. *)
Record Op : Type := {
  tag : string;
  operationId : string;
  method : HttpMethod;
  path : string;
  summary : option string;
  description : option string;
  params : list Param;
  requestBody : option RequestBody;
  responses : list (string * Response);
  pathParams : option (list Param);
  queryParams : option (list Param);
  headerParams : option (list Param);
  cookieParams : option (list Param)
}.

Record SpecModel : Type := {
  ops : list Op;
  title : option string;
  version : option string;
  openapiTsConfig : option string
}.

(** [typesPath] is typed as a string but never checked to be one: it holds
    whatever truthy value the descriptor carried. *)
Record OpenApiTsIntegration : Type := {
  typesPath : Js.Value;
  baseUrl : option string;
  headers : option Js.Value
}.

(** A JavaScript [Map] from tag to operations, in insertion order. *)
Definition ByTag : Type := list (string * list Op).

End Model.

(** ** The generated text *)

(** *** [src/emit/templates/queryKeys.tpl.ts] *)

Module QueryKeys.
Import Js ChangeCase Model.

(** The array literal of a key line. *)
Definition keyTuple (root keyName : string) : string :=
  "['" +:+ root +:+ "','" +:+ keyName +:+ "', params ?? {}]".

Definition keyLine (root : string) (op : Op) : string :=
  let name := operationId op in
  let keyName := camelCase name in
  "    " +:+ keyName +:+ ": (params?: any) => " +:+ keyTuple root keyName +:+ " as const".

Definition tagBlock (entry : string * list Op) : string :=
  let '(tag, ops) := entry in
  let root := camelCase tag in
  let lines := join ",
" (List.map (keyLine root) ops) in
  "  " +:+ root +:+ ": {
    root: ['" +:+ root +:+ "'] as const,
" +:+ lines +:+ "
  }".

Definition renderQueryKeys (byTag : ByTag) : string :=
  "
// GENERATED FILE
export const queryKeys = {
" +:+ join ",
" (List.map tagBlock byTag) +:+ "
} as const;
".

End QueryKeys.

(** *** [src/emit/templates/invalidate.tpl.ts] *)

Module Invalidate.
Import Js ChangeCase Model.

Definition isRead (op : Op) : bool :=
  match method op with
  | get | head => true
  | _ => false
  end.

Definition entryLine (t : string) (op : Op) : string :=
  let name := camelCase (operationId op) in
  "    " +:+ name +:+ ": (params?: any) => qc.invalidateQueries({ queryKey: queryKeys."
    +:+ t +:+ "." +:+ name +:+ "(params) })".

Definition tagEntries (t : string) (ops : list Op) : list string :=
  List.map (entryLine t) (List.filter isRead ops).

Definition tagBlock (entry : string * list Op) : string :=
  let '(tag, ops) := entry in
  let t := camelCase tag in
  let entries := join ",
" (tagEntries t ops) in
  "  " +:+ t +:+ ": {
" +:+ entries +:+ "
  }".

Definition renderInvalidate (byTag : ByTag) : string :=
  "
// GENERATED FILE
import { QueryClient } from '@tanstack/react-query';
import { queryKeys } from './queryKeys.js';

export const invalidate = (qc: QueryClient) => ({
" +:+ join ",
" (List.map tagBlock byTag) +:+ "
});
".

End Invalidate.

(** *** [src/emit/templates/hooks.tpl.ts] *)

Module Hooks.
Import Js ChangeCase Model.

Definition isQuery (m : HttpMethod) : bool :=
  match m with
  | get | head => true
  | _ => false
  end.

Definition serializeQueryHelper : string :=
  "
const serializeQuery = (input?: Record<string, unknown>) => {
  if (!input) return " +:+ dq +:+ dq +:+ ";

  const searchParams = new URLSearchParams();

  Object.entries(input).forEach(([key, value]) => {
    if (value === undefined || value === null) return;

    if (Array.isArray(value)) {
      value.forEach((item) => searchParams.append(key, String(item)));
      return;
    }

    searchParams.append(key, String(value));
  });

  const qs = searchParams.toString();
  return qs ? `?${qs}` : " +:+ dq +:+ dq +:+ ";
};
".

Definition buildHooksHeader (importBase : string) : string :=
  "// GENERATED FILE
import { useQuery, useMutation } from '@tanstack/react-query';
import { createClient } from '" +:+ importBase +:+ "client.js';
import { queryKeys } from '" +:+ importBase +:+ "queryKeys.js';
import type { ApiError } from '" +:+ importBase +:+ "client.js';

const client = createClient();
" +:+ serializeQueryHelper +:+ "
".

Definition typeIs (s : Schema) (t : string) : bool :=
  match s_type s with
  | Some u => String.eqb u t
  | None => false
  end.

Definition getTypeScriptType (param : Param) : string :=
  match p_schema param with
  | None => "string"
  | Some schema =>
      if typeIs schema "integer" || typeIs schema "number" then "number"
      else if typeIs schema "boolean" then "boolean"
      else if typeIs schema "array" then "any[]"
      else if typeIs schema "object" then "Record<string, any>"
      else "string"
  end.

Definition generateRequestBodyType (op : Op) : string := "any".

(** [op.responses[code]]. *)
Fixpoint responseAt (code : string) (rs : list (string * Response)) : option Response :=
  match rs with
  | [] => None
  | (c, r) :: rest => if String.eqb code c then Some r else responseAt code rest
  end.

Definition hasSchemaAt (op : Op) (code : string) : bool :=
  match responseAt code (responses op) with
  | Some r => match r_schema r with Some _ => true | None => false end
  | None => false
  end.

Definition generateResponseType (op : Op) : string :=
  match List.find (fun e => startsWith (fst e) "2" && hasSchemaAt op (fst e)) (responses op) with
  | None => "any"
  | Some successResponse =>
      match r_schema (snd successResponse) with
      | Some schema =>
          if typeIs schema "array" && s_items schema then "any[]"
          else if typeIs schema "object" then "Record<string, any>"
          else "any"
      | None => "any"
      end
  end.

Definition requiredField (p : Param) : string :=
  toString (p_name p) +:+ ": " +:+ getTypeScriptType p.

Definition optionalField (p : Param) : string :=
  toString (p_name p) +:+ (if p_required p then "" else "?") +:+ ": " +:+ getTypeScriptType p.

Definition objectType (fields : list string) (empty : string) : string :=
  match fields with
  | [] => empty
  | _ :: _ => "{ " +:+ join "; " fields +:+ " }"
  end.

Definition generateParamsType (op : Op) (includeBody : bool) (bodyType : string) : string :=
  let pathParams := orEmpty (pathParams op) in
  let queryParams := orEmpty (queryParams op) in
  let headerParams := orEmpty (headerParams op) in
  let pathType := objectType (List.map requiredField pathParams) "Record<string, never>" in
  let queryType := objectType (List.map optionalField queryParams) "Record<string, never>" in
  let headerType := objectType (List.map optionalField headerParams) "Record<string, string>" in
  let lines := [ "  path?: " +:+ pathType +:+ ";";
                 "  query?: " +:+ queryType +:+ ";";
                 "  headers?: " +:+ headerType +:+ ";" ] in
  let lines := if includeBody then lines ++ ["  body?: " +:+ bodyType +:+ ";"] else lines in
  "{
" +:+ join "
" lines +:+ "
}".

Definition buildParamAccessor (base property : string) : string :=
  let optionalBase := endsWithChar base "?" in
  let cleanBase := if optionalBase then dropLast base else base in
  if includes cleanBase "?." || optionalBase
  then cleanBase +:+ "?." +:+ property
  else cleanBase +:+ "." +:+ property.

(** The longest prefix of word characters, and what follows it. *)
Fixpoint spanWord (s : string) : string * string :=
  match s with
  | EmptyString => (EmptyString, EmptyString)
  | String c r =>
      if isWordChar c
      then let '(w, rest) := spanWord r in (String c w, rest)
      else (EmptyString, s)
  end.

(** A match of [/{(\w+)}/] at the start of [s]: the captured name and the
    length of the match. *)
Definition matchPlaceholder (s : string) : option (string * nat) :=
  match s with
  | String c r =>
      if Ascii.eqb c "{" then
        match spanWord r with
        | (String n ns, String d _) =>
            if Ascii.eqb d "}" then Some (String n ns, String.length (String n ns) + 2)
            else None
        | _ => None
        end
      else None
  | EmptyString => None
  end.

(** [s.replace(/{(\w+)}/g, f)]: the matches are found from left to right
    and do not overlap; [skip] counts the characters of the last match
    still to be passed over. *)
Fixpoint replaceFrom (f : string -> string) (skip : nat) (s : string) : string :=
  match s with
  | EmptyString => EmptyString
  | String c r =>
      match skip with
      | S k => replaceFrom f k r
      | O =>
          match matchPlaceholder s with
          | Some (name, len) => f name +:+ replaceFrom f (len - 1) r
          | None => String c (replaceFrom f 0 r)
          end
      end
  end.

Definition replacePlaceholders (f : string -> string) (s : string) : string :=
  replaceFrom f 0 s.

Definition reference (pathParams : list Param) (accessorBase paramName : string) : string :=
  let param := List.find (fun p => strictEqualsString (p_name p) paramName) pathParams in
  let accessor := buildParamAccessor accessorBase paramName in
  match param with
  | Some p =>
      if p_required p then "${" +:+ accessor +:+ "}"
      else "${" +:+ accessor +:+ " ?? ''}"
  | None => "${" +:+ accessor +:+ " ?? ''}"
  end.

Definition buildPathWithParams (path : string) (pathParams : list Param)
    (accessorBase : string) : string :=
  match pathParams with
  | [] => "'" +:+ path +:+ "'"
  | _ :: _ =>
      let pathWithParams := replacePlaceholders (reference pathParams accessorBase) path in
      "`" +:+ pathWithParams +:+ "`"
  end.

(** [fn[0].toUpperCase() + fn.slice(1)]: reading index 0 of the empty
    string gives [undefined], and the method call on it throws. *)
Definition capitalize (fn : string) : Result string :=
  match fn with
  | EmptyString => Thrown "Cannot read properties of undefined (reading 'toUpperCase')"
  | String c r => Ok (String (upperChar c) r)
  end.

Definition renderQueryHook (tag : string) (op : Op) : Result string :=
  let fn := camelCase (operationId op) in
  let key := "queryKeys." +:+ camelCase tag +:+ "." +:+ fn in
  let pathParams := orEmpty (pathParams op) in
  let paramTypes := generateParamsType op false "never" in
  let responseType := generateResponseType op in
  bind (capitalize fn) (fun Fn => Ok (
  "
export const use" +:+ Fn +:+ " = <TData = " +:+ responseType +:+ ">(
  params?: " +:+ paramTypes +:+ ",
  options?: {
    enabled?: boolean;
    staleTime?: number;
    gcTime?: number;
    retry?: boolean | number;
    retryDelay?: number | ((retryCount: number) => number);
    refetchOnWindowFocus?: boolean;
    refetchOnMount?: boolean;
    refetchOnReconnect?: boolean;
  }
) =>
  useQuery<TData, ApiError>({
    queryKey: " +:+ key +:+ "(params?.query),
    queryFn: async () => {
      const requestPath = " +:+ buildPathWithParams (path op) pathParams "params?.path" +:+ ";
      const search = serializeQuery(params?.query);
      return client.request<TData>('" +:+ toUpperCase (methodName (method op)) +:+ "', requestPath + search, {
        headers: params?.headers ?? undefined,
      });
    },
    ...options,
  });
")).

Definition renderMutationHook (tag : string) (op : Op) : Result string :=
  let fn := camelCase (operationId op) in
  let key := "queryKeys." +:+ camelCase tag +:+ "." +:+ fn in
  let pathParams := orEmpty (pathParams op) in
  let responseType := generateResponseType op in
  let requestBodyType := generateRequestBodyType op in
  let hasBody := match requestBody op with Some _ => true | None => false end in
  let variablesType := generateParamsType op hasBody requestBodyType in
  let destructured :=
    if hasBody then "{ path, query, headers, body }" else "{ path, query, headers }" in
  let bodyLine :=
    if hasBody then "        body: body === undefined ? undefined : JSON.stringify(body),
"
    else "" in
  bind (capitalize fn) (fun Fn => Ok (
  "
export const use" +:+ Fn +:+ " = <TData = " +:+ responseType +:+ ">(
  options?: {
    onSuccess?: (data: TData) => void;
    onError?: (error: ApiError) => void;
    retry?: boolean | number;
    retryDelay?: number | ((retryCount: number) => number);
  }
) =>
  useMutation<TData, ApiError, " +:+ variablesType +:+ ">({
    mutationFn: async (" +:+ destructured +:+ ") => {
      const requestPath = " +:+ buildPathWithParams (path op) pathParams "path?" +:+ ";
      const search = serializeQuery(query);
      return client.request<TData>('" +:+ toUpperCase (methodName (method op)) +:+ "', requestPath + search, {
" +:+ bodyLine +:+ "        headers: headers ? { ...headers } : undefined,
      });
    },
    ...options,
  });
")).

Definition renderHook (tag : string) (op : Op) : Result string :=
  if isQuery (method op) then renderQueryHook tag op else renderMutationHook tag op.

Definition renderTagHooks (tag : string) (ops : list Op) : Result string :=
  bind (mapM (renderHook tag) ops) (fun hooks => Ok (join "
" hooks)).

Definition nonEmpty (s : string) : bool := negb (String.eqb s "").

Definition renderHooksTemplate (entries : ByTag) (importBase : string) : Result string :=
  bind (mapM (fun e => renderTagHooks (fst e) (snd e)) entries) (fun blocks =>
  let hooksContent := join "
" (List.filter nonEmpty blocks) in
  Ok (buildHooksHeader importBase +:+ hooksContent)).

Definition renderHooksByTag (tag : string) (ops : list Op) : Result string :=
  renderHooksTemplate [(tag, ops)] "../".

Definition renderHooksCombined (byTag : ByTag) : Result string :=
  renderHooksTemplate byTag "./".

End Hooks.

(** ** What the emitted helpers do when they run *)

Module Runtime.
Import Js.

(** *** [URLSearchParams] *)

Definition URLSearchParams : Type := list (string * string).

Definition append (sp : URLSearchParams) (name value : string) : URLSearchParams :=
  sp ++ [(name, value)].

Definition hexDigit (n : nat) : ascii :=
  ascii_of_nat (if n <? 10 then 48 + n else 55 + n).

Definition unreserved (c : ascii) : bool :=
  isAlnum c || Ascii.eqb c "*" || Ascii.eqb c "-" || Ascii.eqb c "." || Ascii.eqb c "_".

(** The application/x-www-form-urlencoded byte serializer. *)
Definition encodeByte (c : ascii) : string :=
  if Ascii.eqb c " " then "+"
  else if unreserved c then String c EmptyString
  else
    let n := nat_of_ascii c in
    String "%" (String (hexDigit (n / 16)) (String (hexDigit (n mod 16)) EmptyString)).

Fixpoint encode (s : string) : string :=
  match s with
  | EmptyString => EmptyString
  | String c r => encodeByte c +:+ encode r
  end.

Definition encodePair (nv : string * string) : string :=
  encode (fst nv) +:+ "=" +:+ encode (snd nv).

(** [searchParams.toString()]. *)
Definition searchParamsToString (sp : URLSearchParams) : string :=
  join "&" (List.map encodePair sp).

(** *** The emitted [serializeQuery] *)

(** The body of the callback given to [Object.entries(input).forEach]. *)
Definition visit (searchParams : URLSearchParams) (entry : string * Value) : URLSearchParams :=
  let '(key, value) := entry in
  match value with
  | Undefined | Null => searchParams
  | Arr items =>
      fold_left (fun sp item => append sp key (toString item)) items searchParams
  | _ => append searchParams key (toString value)
  end.

(** [input] is a record or [undefined]; a record is given by its entries
    in [Object.entries] order. *)
Definition serializeQuery (input : option (list (string * Value))) : string :=
  match input with
  | None => ""
  | Some entries =>
      let searchParams := fold_left visit entries [] in
      let qs := searchParamsToString searchParams in
      if String.eqb qs "" then "" else "?" +:+ qs
  end.

(** *** The emitted key tuple

    An array literal whose elements are strings in single quotes, free of
    quotes, backslashes and commas, or the expression [params ?? {}]. *)

Fixpoint splitComma (cur : string) (s : string) : list string :=
  match s with
  | EmptyString => [cur]
  | String c r =>
      if Ascii.eqb c "," then cur :: splitComma EmptyString r
      else splitComma (cur +:+ String c EmptyString) r
  end.

Fixpoint trimStart (s : string) : string :=
  match s with
  | String c r => if Ascii.eqb c " " then trimStart r else s
  | EmptyString => EmptyString
  end.

Definition plainChar (c : ascii) : bool :=
  negb (Ascii.eqb c "'" || Ascii.eqb c (ascii_of_nat 92)).

Fixpoint allPlain (s : string) : bool :=
  match s with
  | EmptyString => true
  | String c r => plainChar c && allPlain r
  end.

Definition evalElement (params : Value) (e : string) : option Value :=
  if String.eqb e "params ?? {}" then Some (nullish params (Obj []))
  else
    match e with
    | String q body =>
        if Ascii.eqb q "'" && endsWithChar body "'" && allPlain (dropLast body)
        then Some (Str (dropLast body))
        else None
    | EmptyString => None
    end.

Fixpoint allSome {A : Type} (l : list (option A)) : option (list A) :=
  match l with
  | [] => Some []
  | Some x :: rest => option_map (cons x) (allSome rest)
  | None :: _ => None
  end.

Definition evalArrayLiteral (params : Value) (text : string) : option Value :=
  match text with
  | String b body =>
      if Ascii.eqb b "[" && endsWithChar body "]"
      then option_map Arr
             (allSome (List.map (fun e => evalElement params (trimStart e))
                                (splitComma EmptyString (dropLast body))))
      else None
  | EmptyString => None
  end.

(** *** The emitted request-path template literal

    The text between the backquotes is literal except for [${e}], where
    [e] is an optional chain [x?.a?.b], possibly followed by [ ?? '']. *)

(** Split an optional chain at each [?.]. *)
Fixpoint splitChain (cur : string) (s : string) : list string :=
  match s with
  | EmptyString => [cur]
  | String c r =>
      match r with
      | String d r' =>
          if Ascii.eqb c "?" && Ascii.eqb d "." then cur :: splitChain "" r'
          else splitChain (cur +:+ String c "") r
      | EmptyString => [cur +:+ String c ""]
      end
  end.

Fixpoint allWord (s : string) : bool :=
  match s with
  | EmptyString => true
  | String c r => isWordChar c && allWord r
  end.

Definition isIdent (s : string) : bool := negb (String.eqb s "") && allWord s.

Definition evalChain (env : string -> Value) (chain : string) : option Value :=
  match splitChain "" chain with
  | x :: props =>
      if forallb isIdent (x :: props) then Some (fold_left optGet props (env x))
      else None
  | [] => None
  end.

(** [s] without the suffix [suf], when it ends with it. *)
Fixpoint removeSuffix (suf s : string) : option string :=
  if String.eqb s suf then Some EmptyString
  else
    match s with
    | EmptyString => None
    | String c r => option_map (String c) (removeSuffix suf r)
    end.






(** *** The emitted [queryKeys] module

    The module is one object literal: a property per tag, whose value is an
    object literal with the property [root] and one arrow function of
    [params] per operation.  It is read line by line, as the renderer
    writes it; a text of another shape does not load. *)

Definition newline : ascii := ascii_of_nat 10.

(** [s.split("\n")]. *)
Fixpoint lines (s : string) : list string :=
  match s with
  | EmptyString => [EmptyString]
  | String c r =>
      if Ascii.eqb c newline then EmptyString :: lines r
      else
        match lines r with
        | l :: ls => String c l :: ls
        | [] => [String c EmptyString]
        end
  end.

(** [s] without the prefix [pre], when it starts with it. *)
Fixpoint removePrefix (pre s : string) : option string :=
  match pre, s with
  | EmptyString, _ => Some s
  | String a pre', String b s' => if Ascii.eqb a b then removePrefix pre' s' else None
  | String _ _, EmptyString => None
  end.

(** A property name that needs no quotes and can follow a dot: word
    characters, the first of them not a digit. *)
Definition isIdentifierName (s : string) : bool :=
  match s with
  | String c r => isWordChar c && negb (isDigit c) && allWord r
  | EmptyString => false
  end.

(** A line without its trailing comma, and whether it had one. *)
Definition stripComma (l : string) : string * bool :=
  if endsWithChar l "," then (dropLast l, true) else (l, false).

(** The value of a property of a tag's object: an arrow function of
    [params], given by the text of its body, or a constant. *)
Inductive Member : Type :=
| Arrow (body : string)
| Constant (text : string).

Definition KeyObject : Type := list (string * list (string * Member)).

(** The line [  name: {] that opens the object of a tag. *)
Definition openLine (l : string) : option string :=
  match removePrefix "  " l with
  | Some rest =>
      let '(name, tail) := Hooks.spanWord rest in
      if isIdentifierName name && String.eqb tail ": {" then Some name else None
  | None => None
  end.

(** The line [    name: (params?: any) => body as const] or
    [    name: text as const], its comma taken off. *)
Definition memberLine (l : string) : option (string * Member) :=
  match removePrefix "    " l with
  | Some rest =>
      let '(name, tail) := Hooks.spanWord rest in
      if isIdentifierName name then
        match removePrefix ": " tail with
        | Some value =>
            match removeSuffix " as const" value with
            | Some expr =>
                match removePrefix "(params?: any) => " expr with
                | Some body => Some (name, Arrow body)
                | None => Some (name, Constant expr)
                end
            | None => None
            end
        | None => None
        end
      else None
  | None => None
  end.

(** Where the reader stands: before the declaration, between the objects
    of two tags, within the object [name] with the members read so far, or
    after the end.  [closed] tells that the last entry had no comma after
    it, so that only a closing line may follow. *)
Inductive Position : Type :=
| Heading
| Between (closed : bool)
| Within (name : string) (members : list (string * Member)) (closed : bool)
| Finished.

Definition readLine (st : KeyObject * Position) (l : string) : option (KeyObject * Position) :=
  if String.eqb l "" then Some st
  else
    match snd st with
    | Heading =>
        if startsWith l "//" then Some st
        else if String.eqb l "export const queryKeys = {" then Some (fst st, Between false)
        else None
    | Between closed =>
        if String.eqb l "} as const;" then Some (fst st, Finished)
        else if closed then None
        else option_map (fun name => (fst st, Within name [] false)) (openLine l)
    | Within name members closed =>
        if String.eqb (fst (stripComma l)) "  }"
        then Some (fst st ++ [(name, members)], Between (negb (snd (stripComma l))))
        else if closed then None
        else option_map (fun m => (fst st, Within name (members ++ [m])
                                             (negb (snd (stripComma l)))))
                        (memberLine (fst (stripComma l)))
    | Finished => None
    end.

Fixpoint readLines (st : KeyObject * Position) (ls : list string)
    : option (KeyObject * Position) :=
  match ls with
  | [] => Some st
  | l :: rest =>
      match readLine st l with
      | Some st' => readLines st' rest
      | None => None
      end
  end.

(** The object that the module text exports as [queryKeys]. *)
Definition loadQueryKeys (text : string) : option KeyObject :=
  match readLines ([], Heading) (lines text) with
  | Some (blocks, Finished) => Some blocks
  | _ => None
  end.

(** [o[k]] on an object literal given by its properties in source order:
    of two properties with the same name the later one counts. *)
Fixpoint getProperty {A : Type} (k : string) (entries : list (string * A)) : option A :=
  match entries with
  | [] => None
  | (k', v) :: rest =>
      match getProperty k rest with
      | Some w => Some w
      | None => if String.eqb k' k then Some v else None
      end
  end.

(** [queryKeys.<root>.<name>(arg)]: [None] when the module does not load,
    when a property is missing, or when the member is not a function. *)
Definition callKey (text root name : string) (arg : Value) : option Value :=
  match loadQueryKeys text with
  | Some blocks =>
      match getProperty root blocks with
      | Some members =>
          match getProperty name members with
          | Some (Arrow body) => evalArrayLiteral arg body
          | _ => None
          end
      | None => None
      end
  | None => None
  end.

(** The value of the expression [queryKeys.<root>.<name>(<chain>)], as the
    hooks and the invalidation entries write it, against the module text
    and the variables in scope. *)
Definition evalKeyCall (text : string) (env : string -> Value) (expr : string)
    : option Value :=
  match removePrefix "queryKeys." expr with
  | Some afterObject =>
      let '(root, afterRoot) := Hooks.spanWord afterObject in
      match removePrefix "." afterRoot with
      | Some afterDot =>
          let '(name, afterName) := Hooks.spanWord afterDot in
          match removePrefix "(" afterName with
          | Some afterParen =>
              match removeSuffix ")" afterParen with
              | Some chain =>
                  match evalChain env chain with
                  | Some arg => callKey text root name arg
                  | None => None
                  end
              | None => None
              end
          | None => None
          end
      | None => None
      end
  | None => None
  end.

End Runtime.

(** ** The loader ([src/loaders/openapi.ts]) *)

Module Loader.
Import Js ChangeCase Model.

(** The bundled OpenAPI document, as far as the loader reads it.  A
    record of the document (paths, responses, content) is the list of its
    entries in [Object.entries] order. *)

(** A parameter object of the document.  Bundling leaves internal
    references in place, so a parameter may be a [$ref] object that has
    neither [name] nor [in]; both are read as they come. *)
Record RawParam : Type := {
  rp_name : Value;
  rp_in : Value;
  rp_required : option bool;
  rp_schema : option Schema
}.

Record MediaType : Type := { mt_schema : option Schema }.

Record RawResponse : Type := {
  rr_content : option (list (string * MediaType));
  rr_description : option string
}.

Record RawRequestBody : Type := {
  rb_content : option (list (string * MediaType));
  rb_required : option bool
}.

Record OperationObject : Type := {
  oo_tags : option (list string);
  oo_operationId : option string;
  oo_summary : option string;
  oo_description : option string;
  oo_parameters : option (list RawParam);
  oo_responses : option (list (string * RawResponse));
  oo_requestBody : option RawRequestBody
}.

Record PathItem : Type := {
  pi_parameters : option (list RawParam);
  pi_get : option OperationObject;
  pi_post : option OperationObject;
  pi_put : option OperationObject;
  pi_patch : option OperationObject;
  pi_delete : option OperationObject;
  pi_head : option OperationObject
}.

Record Info : Type := { i_title : option string; i_version : option string }.

Record Document : Type := {
  d_paths : option (list (string * option PathItem));
  d_info : option Info;
  d_servers : option (list (option string))
}.

Definition methods : list HttpMethod := [get; post; put; patch; delete; head].

(** [(item as any)[method]]. *)
Definition operationAt (item : PathItem) (m : HttpMethod) : option OperationObject :=
  match m with
  | get => pi_get item | post => pi_post item | put => pi_put item
  | patch => pi_patch item | delete => pi_delete item | head => pi_head item
  end.

(** [(opObj.tags?.[0] ?? "default").toString()]. *)
Definition tagOf (opObj : OperationObject) : string :=
  match oo_tags opObj with
  | Some (t :: _) => t
  | Some [] | None => "default"
  end.

(** [(opObj.operationId ?? camelCase(`${method}_${p}`)).replace(/[{}]/g, "")]. *)
Definition operationIdOf (m : HttpMethod) (p : string) (opObj : OperationObject) : string :=
  stripBraces
    (match oo_operationId opObj with
     | Some id => id
     | None => camelCase (methodName m +:+ "_" +:+ p)
     end).

Definition paramOf (param : RawParam) : Param :=
  {| p_name := rp_name param;
     p_in := rp_in param;
     p_required := match rp_required param with Some b => b | None => false end;
     p_schema := rp_schema param;
     p_type := match rp_schema param with Some s => s_type s | None => None end;
     p_format := match rp_schema param with Some s => s_format s | None => None end |}.

(** [p.in === "path"] and the like. *)
Definition inLocation (loc : ParamIn) (p : Param) : bool :=
  strictEqualsString (p_in p) (locationName loc).

Definition truthyString (s : option string) : option string :=
  match s with
  | Some t => if String.eqb t "" then None else Some t
  | None => None
  end.

Definition responseOf (res : RawResponse) : Response :=
  let description := truthyString (rr_description res) in
  match rr_content res with
  | Some content =>
      match content with
      | (ct, media) :: _ =>
          {| r_contentType := truthyString (Some ct);
             r_schema := mt_schema media;
             r_description := description |}
      | [] =>
          {| r_contentType := None; r_schema := None; r_description := description |}
      end
  | None => {| r_contentType := None; r_schema := None; r_description := description |}
  end.

Definition requestBodyOf (opObj : OperationObject) : option RequestBody :=
  match oo_requestBody opObj with
  | Some rb =>
      match rb_content rb with
      | Some ((ct, media) :: _) =>
          if String.eqb ct "" then None
          else Some {| b_contentType := ct;
                       b_schema := mt_schema media;
                       b_required := match rb_required rb with Some b => b | None => false end |}
      | Some [] | None => None
      end
  | None => None
  end.

Definition buildOp (p : string) (item : PathItem) (m : HttpMethod)
    (opObj : OperationObject) : Op :=
  let tag := tagOf opObj in
  let operationId := operationIdOf m p opObj in
  let allParams := orEmpty (pi_parameters item) ++ orEmpty (oo_parameters opObj) in
  let params := List.map paramOf allParams in
  {| tag := tag;
     operationId := operationId;
     method := m;
     path := p;
     summary := oo_summary opObj;
     description := oo_description opObj;
     params := params;
     requestBody := requestBodyOf opObj;
     responses := List.map (fun cr => (fst cr, responseOf (snd cr))) (orEmpty (oo_responses opObj));
     pathParams := Some (List.filter (inLocation InPath) params);
     queryParams := Some (List.filter (inLocation InQuery) params);
     headerParams := Some (List.filter (inLocation InHeader) params);
     cookieParams := Some (List.filter (inLocation InCookie) params) |}.

(** The inner loop over the six methods of one path item. *)
Definition itemOps (p : string) (item : PathItem) : list Op :=
  flat_map (fun m =>
              match operationAt item m with
              | Some opObj => [buildOp p item m opObj]
              | None => []
              end) methods.

(** The outer loop over [Object.entries(paths)]. *)
Definition extractOps (paths : list (string * option PathItem)) : list Op :=
  flat_map (fun entry =>
              match snd entry with
              | Some item => itemOps (fst entry) item
              | None => []
              end) paths.

Definition serverUrl (api : Document) : option string :=
  match d_servers api with
  | Some (Some url :: _) => Some url
  | _ => None
  end.

(** [loadSpec] after [SwaggerParser.bundle] has returned. *)
Definition buildModel (api : Document) : SpecModel :=
  {| ops := extractOps (orEmpty (d_paths api));
     title := match d_info api with Some i => i_title i | None => None end;
     version := match d_info api with Some i => i_version i | None => None end;
     openapiTsConfig := serverUrl api |}.

End Loader.

(** ** The host: file system, JSON, path and colour functions

    These belong to Node, to the swagger-parser package and to kleur.  The
    generator is defined over any implementation of them. *)

Module Node.
Import Js.

Class Host (FS : Type) : Type := {
  readFileSync : FS -> string -> Result string;
  (** [mkdir(dir, { recursive: true })] *)
  mkdir : FS -> string -> Result FS;
  writeFile : FS -> string -> string -> Result FS;
  dirname : string -> string;
  pathJoin : string -> string -> string;
  JSON_parse : string -> Result Value;
  (** [JSON.stringify(v, null, 2)] *)
  JSON_stringify : Value -> string;
  (** [SwaggerParser.bundle] *)
  bundle : FS -> string -> Result Loader.Document;
  bold : string -> string;
  cyan : string -> string;
  green : string -> string;
  magenta : string -> string;
  yellow : string -> string
}.

(** The file system together with what was printed. *)
Record World (FS : Type) : Type := {
  fs : FS;
  stdout : list string;
  stderr : list string
}.
Arguments fs {FS} w.
Arguments stdout {FS} w.
Arguments stderr {FS} w.

End Node.

(** *** [src/emit/templates/client.tpl.ts] *)

Module Client.
Import Js Model.

Definition renderClient (baseUrl : string) (openApiTsIntegration : option OpenApiTsIntegration)
    : string :=
  let importLine :=
    match openApiTsIntegration with
    | Some i => "import type { paths } from '" +:+ toString (typesPath i) +:+ "';"
    | None => ""
    end in
  let reexport :=
    match openApiTsIntegration with
    | Some i => "
// OpenAPI-TS Integration
// Import types from your openapi-typescript generated file
export type { paths, components } from '" +:+ toString (typesPath i) +:+ "';
"
    | None => ""
    end in
  "
// GENERATED FILE
" +:+ importLine +:+ "

export type ClientConfig = {
  baseUrl?: string;
  headers?: Record<string, string>;
  fetch?: typeof fetch;
  retry?: {
    attempts?: number;
    delay?: number;
    backoff?: 'linear' | 'exponential';
  };
};

export class ApiError<T = unknown> extends Error {
  status: number;
  body?: T | undefined;
  code?: string | undefined;
  
  constructor(msg: string, status: number, body?: T | undefined, code?: string | undefined) { 
    super(msg); 
    this.status = status; 
    this.body = body;
    this.code = code;
  }
  
  static fromOpenApiTsError(error: any): ApiError {
    return new ApiError(
      error.message || 'API Error',
      error.status || 500,
      error.body,
      error.code
    );
  }
}

export const createClient = (cfg: ClientConfig = {}) => {
  const f = cfg.fetch ?? fetch;
  const base = (cfg.baseUrl ?? " +:+ dq +:+ baseUrl +:+ dq +:+ ").replace(/\/$/, " +:+ dq +:+ dq +:+ ");
  
  const defaultHeaders = {
    " +:+ dq +:+ "content-type" +:+ dq +:+ ": " +:+ dq +:+ "application/json" +:+ dq +:+ ",
    ...(cfg.headers ?? {})
  };

  async function request<T>(
    method: string, 
    path: string, 
    init?: RequestInit & { 
      retry?: boolean;
      timeout?: number;
    }
  ): Promise<T> {
    const { retry = true, timeout = 30000, ...requestInit } = init || {};
    
    const controller = new AbortController();
    const timeoutId = setTimeout(() => controller.abort(), timeout);
    
    try {
      const res = await f(base + path, { 
        method, 
        headers: { ...defaultHeaders, ...requestInit.headers }, 
        signal: controller.signal,
        ...requestInit
      });
      
      clearTimeout(timeoutId);
      
      if (!res.ok) {
        let errorBody: any;
        try {
          const text = await res.text();
          errorBody = text ? JSON.parse(text) : undefined;
        } catch {
          errorBody = undefined;
        }
        
        throw new ApiError(
          res.statusText || `HTTP ${res.status}`,
          res.status,
          errorBody,
          res.status.toString()
        );
      }
      
      const text = await res.text();
      return text ? JSON.parse(text) : ({} as T);
    } catch (error) {
      clearTimeout(timeoutId);
      
      if (error instanceof ApiError) throw error;
      if (error instanceof Error && error.name === 'AbortError') {
        throw new ApiError('Request timeout', 408);
      }
      
      throw new ApiError(
        error instanceof Error ? error.message : 'Unknown error',
        0,
        undefined,
        'NETWORK_ERROR'
      );
    }
  }
  
  return { request };
}

" +:+ reexport +:+ "
".

End Client.

(** ** The optional integration descriptor ([src/loaders/openapi-ts.ts]) *)

Module OpenApiTs.
Import Js Model Node.

Record OpenApiTsConfig : Type := {
  c_typesPath : Value;
  c_baseUrl : option string;
  c_headers : option Value
}.

(** [config.k]: reading a property of [null] or [undefined] throws. *)
Definition getProp (o : Value) (k : string) : Result Value :=
  match o with
  | Undefined | Null =>
      Thrown ("Cannot read properties of " +:+ toString o +:+ " (reading '" +:+ k +:+ "')")
  | Obj es => Ok (lookupEntry k es)
  | _ => Ok Undefined
  end.

Section WithHost.
Context {FS : Type} {H : Host FS}.

(** The body of the [try] block. *)
Definition readConfig (files : FS) (configPath : string) : Result OpenApiTsConfig :=
  bind (readFileSync files configPath) (fun text =>
  bind (JSON_parse text) (fun config =>
  bind (getProp config "typesPath") (fun tp =>
  bind (getProp config "baseUrl") (fun bu =>
  bind (getProp config "headers") (fun hd =>
  Ok {| c_typesPath := if truthy tp then tp else Str "./src/api/types.ts";
        c_baseUrl := match bu with Str s => Some s | _ => None end;
        c_headers := match hd with
                     | Obj _ | Arr _ => Some hd
                     | _ => None
                     end |}))))).

(** [null] is [None].  Nothing is printed on either path. *)
Definition loadOpenApiTsConfig (files : FS) (configPath : option string)
    : option OpenApiTsConfig :=
  match configPath with
  | None => None
  | Some p =>
      if String.eqb p "" then None
      else
        match readConfig files p with
        | Ok result => Some result
        | Thrown _ => None
        end
  end.

Definition generateOpenApiTsIntegration (specPath outputDir : string)
    (config : option OpenApiTsConfig) : OpenApiTsIntegration :=
  {| typesPath :=
       match config with
       | Some c =>
           if truthy (c_typesPath c) then c_typesPath c
           else Str (pathJoin outputDir "types.ts")
       | None => Str (pathJoin outputDir "types.ts")
       end;
     baseUrl :=
       match config with
       | Some c => Loader.truthyString (c_baseUrl c)
       | None => None
       end;
     headers :=
       match config with
       | Some c => c_headers c
       | None => None
       end |}.

End WithHost.

End OpenApiTs.

(** ** The writer and the driver *)

Module Generate.
Import Js ChangeCase Model Node OpenApiTs.

Record GenerateOptions : Type := {
  opt_schema : string;
  opt_outDir : string;
  opt_baseUrl : string;
  opt_groupByTag : bool;
  opt_openApiTsConfig : option string;
  opt_generateTypes : bool;
  opt_verbose : bool;
  opt_dryRun : bool
}.

Record PlannedFile : Type := { file_path : string; file_contents : string }.

(** [byTag.get(k)] and [byTag.set(k, v)]: a new key goes last, a known key
    keeps its place. *)
Fixpoint mapGet (byTag : ByTag) (k : string) : option (list Op) :=
  match byTag with
  | [] => None
  | (k', v) :: rest => if String.eqb k k' then Some v else mapGet rest k
  end.

Fixpoint mapSet (byTag : ByTag) (k : string) (v : list Op) : ByTag :=
  match byTag with
  | [] => [(k, v)]
  | (k', v') :: rest =>
      if String.eqb k k' then (k, v) :: rest else (k', v') :: mapSet rest k v
  end.

(** One turn of the grouping loop. *)
Definition groupStep (byTag : ByTag) (op : Op) : ByTag :=
  let list := orEmpty (mapGet byTag (tag op)) in
  mapSet byTag (tag op) (list ++ [op]).

Definition groupOps (ops : list Op) : ByTag := fold_left groupStep ops [].

Definition getTypeScriptType (param : Param) : string :=
  match p_schema param with
  | None => "string"
  | Some schema =>
      if Hooks.typeIs schema "integer" || Hooks.typeIs schema "number" then "number"
      else if Hooks.typeIs schema "boolean" then "boolean"
      else if Hooks.typeIs schema "array" then "any[]"
      else if Hooks.typeIs schema "object" then "Record<string, any>"
      else "string"
  end.

Definition operationParams (op : Op) : string :=
  let operationName := operationId op in
  let pathParams := orEmpty (pathParams op) in
  let queryParams := orEmpty (queryParams op) in
  "
export interface " +:+ operationName +:+ "Params {
  " +:+ join "
  " (List.map (fun p => toString (p_name p) +:+ ": " +:+ getTypeScriptType p) pathParams) +:+ "
  " +:+ join "
  " (List.map (fun p => toString (p_name p) +:+ (if p_required p then "" else "?") +:+ ": "
                          +:+ getTypeScriptType p) queryParams) +:+ "
}".

Definition generateTypesFile (spec : SpecModel) : string :=
  "// GENERATED TYPES
export interface ApiResponse<T = any> {
  data: T;
  status: number;
  statusText: string;
}

export interface ApiError {
  message: string;
  status: number;
  code?: string;
  body?: any;
}

// Operation types
" +:+ join "
" (List.map operationParams (ops spec)) +:+ "
".

Definition orString (s : option string) : string :=
  match Loader.truthyString s with
  | Some t => t
  | None => ""
  end.

Definition headersOrEmpty (integration : OpenApiTsIntegration) : Value :=
  match headers integration with
  | Some h => h
  | None => Obj []
  end.

Definition natToString (n : nat) : string := numToString (Z.of_nat n).

Section WithHost.
Context {FS : Type} {H : Host FS}.

Definition generateOpenApiTsConfigFile (integration : OpenApiTsIntegration) : string :=
  "// OpenAPI-TS Configuration
export const openApiTsConfig = {
  typesPath: " +:+ dq +:+ toString (typesPath integration) +:+ dq +:+ ",
  baseUrl: " +:+ dq +:+ orString (baseUrl integration) +:+ dq +:+ ",
  headers: " +:+ JSON_stringify (headersOrEmpty integration) +:+ "
} as const;

export type OpenApiTsConfig = typeof openApiTsConfig;
".

(** Code that prints, touches the file system and may throw. *)
Definition M (A : Type) : Type := World FS -> World FS * Result A.

Definition ret {A : Type} (a : A) : M A := fun w => (w, Ok a).

Definition bindM {A B : Type} (m : M A) (k : A -> M B) : M B :=
  fun w =>
    match m w with
    | (w', Ok a) => k a w'
    | (w', Thrown e) => (w', Thrown e)
    end.

Definition console_log (msg : string) : M unit :=
  fun w => ({| fs := fs w; stdout := stdout w ++ [msg]; stderr := stderr w |}, Ok tt).

Definition console_error (msg : string) : M unit :=
  fun w => ({| fs := fs w; stdout := stdout w; stderr := stderr w ++ [msg] |}, Ok tt).

(** A file-system call: on success the file system is replaced. *)
Definition fsCall (op : FS -> Result FS) : M unit :=
  fun w =>
    match op (fs w) with
    | Ok d => ({| fs := d; stdout := stdout w; stderr := stderr w |}, Ok tt)
    | Thrown e => (w, Thrown e)
    end.

(** A call that only reads the file system. *)
Definition fsRead {A : Type} (op : FS -> Result A) : M A :=
  fun w => (w, op (fs w)).

Definition when (b : bool) (m : M unit) : M unit := if b then m else ret tt.

(** [src/emit/writeFiles.ts] *)
Fixpoint writeFiles (files : list PlannedFile) : M unit :=
  match files with
  | [] => ret tt
  | f :: rest =>
      bindM (fsCall (fun d => mkdir d (dirname (file_path f)))) (fun _ =>
      bindM (fsCall (fun d => writeFile d (file_path f) (file_contents f))) (fun _ =>
      writeFiles rest))
  end.

(** [loadSpec] of [src/loaders/openapi.ts]. *)
Definition loadSpec (pathOrUrl : string) : M SpecModel :=
  fsRead (fun d => bind (bundle d pathOrUrl) (fun api => Ok (Loader.buildModel api))).

Definition coreFiles (opts : GenerateOptions) (spec : SpecModel)
    (openApiTsIntegration : option OpenApiTsIntegration) (byTag : ByTag) : list PlannedFile :=
  [ {| file_path := opt_outDir opts +:+ "/client.ts";
       file_contents := Client.renderClient (opt_baseUrl opts) openApiTsIntegration |};
    {| file_path := opt_outDir opts +:+ "/queryKeys.ts";
       file_contents := QueryKeys.renderQueryKeys byTag |};
    {| file_path := opt_outDir opts +:+ "/invalidate.ts";
       file_contents := Invalidate.renderInvalidate byTag |} ]
  ++ (if opt_generateTypes opts
      then [ {| file_path := opt_outDir opts +:+ "/types.ts";
                file_contents := generateTypesFile spec |} ]
      else []).

Definition hookFiles (opts : GenerateOptions) (byTag : ByTag) : Result (list PlannedFile) :=
  if opt_groupByTag opts then
    mapM (fun entry =>
            bind (Hooks.renderHooksByTag (fst entry) (snd entry)) (fun text =>
            Ok {| file_path := opt_outDir opts +:+ "/hooks/" +:+ fst entry +:+ ".generated.ts";
                  file_contents := text |})) byTag
  else
    bind (Hooks.renderHooksCombined byTag) (fun text =>
    Ok [ {| file_path := opt_outDir opts +:+ "/hooks.generated.ts";
            file_contents := text |} ]).

Definition integrationFiles (opts : GenerateOptions)
    (openApiTsIntegration : option OpenApiTsIntegration) : list PlannedFile :=
  match openApiTsIntegration with
  | Some i => [ {| file_path := opt_outDir opts +:+ "/openapi-ts.config.ts";
                   file_contents := generateOpenApiTsConfigFile i |} ]
  | None => []
  end.

(** The list [plannedFiles] as it stands when the dry-run test is
    reached. *)
Definition planFiles (opts : GenerateOptions) (spec : SpecModel)
    (openApiTsIntegration : option OpenApiTsIntegration) (byTag : ByTag)
    : Result (list PlannedFile) :=
  bind (hookFiles opts byTag) (fun hooks =>
  Ok (coreFiles opts spec openApiTsIntegration byTag ++ hooks
      ++ integrationFiles opts openApiTsIntegration)).

Definition verboseMessage (spec : SpecModel) : string :=
  cyan (bold "Parsed operations" +:+ " (" +:+ natToString (length (ops spec)) +:+ "):
" +:+ join "
" (List.map (fun op => "  • [" +:+ toUpperCase (methodName (method op)) +:+ "] " +:+ path op
                      +:+ "  (" +:+ operationId op +:+ ")") (ops spec))).

Definition dryRunMessage (plannedFiles : list PlannedFile) : string :=
  yellow (bold "Dry run" +:+ ": " +:+ natToString (length plannedFiles)
          +:+ " files would be written:
" +:+ join "
" (List.map (fun file => "  • " +:+ file_path file) plannedFiles)).

Definition summaryMessage (opts : GenerateOptions) (spec : SpecModel) : string :=
  let resultEmoji := if opt_dryRun opts then "📝" else "✨" in
  green (resultEmoji +:+ " " +:+ (if opt_dryRun opts then "Planned" else "Generated") +:+ " "
         +:+ natToString (length (ops spec)) +:+ " operations → " +:+ opt_outDir opts).

Definition integrationMessage (opts : GenerateOptions) : string :=
  magenta ("🔗 openapi-typescript integration "
           +:+ (if opt_dryRun opts then "would be configured" else "configured")).

Definition isSome {A : Type} (o : option A) : bool :=
  match o with Some _ => true | None => false end.

(** [src/generate.ts] *)
Definition generate (opts : GenerateOptions) : M unit :=
  bindM (loadSpec (opt_schema opts)) (fun spec =>
  bindM (fsRead (fun d => Ok (loadOpenApiTsConfig d (opt_openApiTsConfig opts))))
    (fun openApiTsConfig =>
  let openApiTsIntegration :=
    match openApiTsConfig with
    | Some c =>
        Some (generateOpenApiTsIntegration (opt_schema opts) (opt_outDir opts) (Some c))
    | None => None
    end in
  let byTag := groupOps (ops spec) in
  bindM (when (opt_verbose opts) (console_log (verboseMessage spec))) (fun _ =>
  bindM (fun w => (w, planFiles opts spec openApiTsIntegration byTag)) (fun plannedFiles =>
  bindM (if opt_dryRun opts then console_log (dryRunMessage plannedFiles)
         else writeFiles plannedFiles) (fun _ =>
  bindM (console_log (summaryMessage opts spec)) (fun _ =>
  when (isSome openApiTsIntegration) (console_log (integrationMessage opts)))))))).

(** *** [src/cli.ts] *)

Record CliOptions : Type := {
  cli_schema : string;
  cli_out : string;
  cli_baseUrl : string;
  cli_groupByTag : bool;
  cli_openapiTsConfig : option string;
  cli_generateTypes : option bool
}.

Definition cliGenerateOptions (opts : CliOptions) : GenerateOptions :=
  {| opt_schema := cli_schema opts;
     opt_outDir := cli_out opts;
     opt_baseUrl := cli_baseUrl opts;
     opt_groupByTag := cli_groupByTag opts;
     opt_openApiTsConfig := Loader.truthyString (cli_openapiTsConfig opts);
     opt_generateTypes := match cli_generateTypes opts with Some b => b | None => false end;
     opt_verbose := false;
     opt_dryRun := false |}.

(** The process: the world it leaves and its exit status.  A rejected
    [generate] prints the error message and exits with status 1. *)
Definition main (opts : CliOptions) (w : World FS) : World FS * nat :=
  match generate (cliGenerateOptions opts) w with
  | (w', Ok _) => (w', 0)
  | (w', Thrown message) => (fst (console_error message w'), 1)
  end.

(** The stages of a run, named for the statements about it: the world after
    the verbose listing, the integration derived from the descriptor, and
    the world after the closing messages. *)
Definition afterVerbose (opts : GenerateOptions) (spec : SpecModel) (w : World FS) : World FS :=
  if opt_verbose opts then fst (console_log (verboseMessage spec) w) else w.

Definition integrationOf (opts : GenerateOptions) (w : World FS) : option OpenApiTsIntegration :=
  match loadOpenApiTsConfig (fs w) (opt_openApiTsConfig opts) with
  | Some c => Some (generateOpenApiTsIntegration (opt_schema opts) (opt_outDir opts) (Some c))
  | None => None
  end.

Definition afterSummary (opts : GenerateOptions) (spec : SpecModel) (w0 w : World FS) : World FS :=
  let w1 := fst (console_log (summaryMessage opts spec) w) in
  if isSome (integrationOf opts w0) then fst (console_log (integrationMessage opts) w1) else w1.

(** The list [plannedFiles] that a run of [generate] in world [w] holds
    when it reaches the test of [opts.dryRun], or the exception that ends
    the run before that. *)
Definition plan (opts : GenerateOptions) (w : World FS) : Result (list PlannedFile) :=
  bind (bundle (fs w) (opt_schema opts)) (fun api =>
  let spec := Loader.buildModel api in
  planFiles opts spec (integrationOf opts w) (groupOps (ops spec))).

End WithHost.

(** The same options with another mode or another descriptor path. *)
Definition setDryRun (dry : bool) (opts : GenerateOptions) : GenerateOptions :=
  {| opt_schema := opt_schema opts; opt_outDir := opt_outDir opts;
     opt_baseUrl := opt_baseUrl opts; opt_groupByTag := opt_groupByTag opts;
     opt_openApiTsConfig := opt_openApiTsConfig opts;
     opt_generateTypes := opt_generateTypes opts;
     opt_verbose := opt_verbose opts; opt_dryRun := dry |}.

Definition setConfig (config : option string) (opts : GenerateOptions) : GenerateOptions :=
  {| opt_schema := opt_schema opts; opt_outDir := opt_outDir opts;
     opt_baseUrl := opt_baseUrl opts; opt_groupByTag := opt_groupByTag opts;
     opt_openApiTsConfig := config;
     opt_generateTypes := opt_generateTypes opts;
     opt_verbose := opt_verbose opts; opt_dryRun := opt_dryRun opts |}.

End Generate.

(** ** An in-memory host

    Files and directories in finite maps and sets.  The documents that
    bundling yields are given by the table [docs], the texts that parse as
    JSON by the table the host is built from.  Colours are switched off. *)

Module Mem.
Import Js Node.

Record Disk : Type := {
  files : gmap string string;
  dirs : gset string;
  docs : gmap string Loader.Document
}.

Definition read (d : Disk) (p : string) : Result string :=
  match files d !! p with
  | Some text => Ok text
  | None => Thrown ("ENOENT: no such file or directory, open '" +:+ p +:+ "'")
  end.

Definition makeDir (d : Disk) (p : string) : Result Disk :=
  match files d !! p with
  | Some _ => Thrown ("EEXIST: file already exists, mkdir '" +:+ p +:+ "'")
  | None => Ok {| files := files d; dirs := {[p]} ∪ dirs d; docs := docs d |}
  end.

Definition write (d : Disk) (p contents : string) : Result Disk :=
  if bool_decide (p ∈ dirs d)
  then Thrown ("EISDIR: illegal operation on a directory, open '" +:+ p +:+ "'")
  else Ok {| files := <[p := contents]> (files d); dirs := dirs d;
             docs := docs d |}.

(** The text before the last slash, or [.] when there is none. *)
Fixpoint beforeLastSlash (s : string) : option string :=
  match s with
  | EmptyString => None
  | String c r =>
      match beforeLastSlash r with
      | Some d => Some (String c d)
      | None => if Ascii.eqb c "/" then Some EmptyString else None
      end
  end.

Definition parentDir (p : string) : string :=
  match beforeLastSlash p with
  | Some EmptyString => "/"
  | Some d => d
  | None => "."
  end.

Definition parse (d : gmap string Value) (text : string) : Result Value :=
  match d !! text with
  | Some v => Ok v
  | None => Thrown "Unexpected token in JSON"
  end.

Definition fetch (d : Disk) (p : string) : Result Loader.Document :=
  match docs d !! p with
  | Some api => Ok api
  | None => Thrown ("Error opening file " +:+ dq +:+ p +:+ dq)
  end.

Fixpoint escape (s : string) : string :=
  match s with
  | EmptyString => EmptyString
  | String c r =>
      if Ascii.eqb c (ascii_of_nat 34) || Ascii.eqb c (ascii_of_nat 92)
      then String (ascii_of_nat 92) (String c (escape r))
      else String c (escape r)
  end.

(** [JSON.stringify(v, null, 2)] on values free of control characters. *)
Fixpoint stringify (indent : string) (v : Value) : string :=
  let inner := indent +:+ "  " in
  let nl := String (ascii_of_nat 10) EmptyString in
  match v with
  | Undefined | Null => "null"
  | Bool true => "true"
  | Bool false => "false"
  | Num z => numToString z
  | Str s => dq +:+ escape s +:+ dq
  | Arr [] => "[]"
  | Arr items =>
      "[" +:+ nl
      +:+ join ("," +:+ nl) (List.map (fun item => inner +:+ stringify inner item) items)
      +:+ nl +:+ indent +:+ "]"
  | Obj [] => "{}"
  | Obj entries =>
      "{" +:+ nl
      +:+ join ("," +:+ nl)
            (List.map (fun e => match e with
                                | (k, item) =>
                                    inner +:+ dq +:+ escape k +:+ dq +:+ ": "
                                    +:+ stringify inner item
                                end) entries)
      +:+ nl +:+ indent +:+ "}"
  end.

Definition host (json : gmap string Value) : Host Disk := {|
  readFileSync := read;
  mkdir := makeDir;
  writeFile := write;
  dirname := parentDir;
  pathJoin := fun a b => a +:+ "/" +:+ b;
  JSON_parse := parse json;
  JSON_stringify := stringify "";
  bundle := fetch;
  bold := fun s => s;
  cyan := fun s => s;
  green := fun s => s;
  magenta := fun s => s;
  yellow := fun s => s
|}.

End Mem.

(** ** Sample inputs *)

Module Examples.
Import Js Model Loader Node.

Definition petIdParam (required : bool) : Param :=
  {| p_name := Str "petId"; p_in := Str "path"; p_required := required;
     p_schema := None; p_type := None; p_format := None |}.

Definition mkOp (t id : string) (m : HttpMethod) (p : string) (pps : list Param) : Op :=
  {| tag := t; operationId := id; method := m; path := p;
     summary := None; description := None; params := pps;
     requestBody := None; responses := [];
     pathParams := Some pps; queryParams := Some []; headerParams := Some [];
     cookieParams := Some [] |}.

Definition getPetById : Op := mkOp "pets" "getPetById" get "/pets/{petId}" [petIdParam true].
Definition createPet : Op := mkOp "pets" "createPet" post "/pets" [].
Definition getPetCapital : Op := mkOp "Pets" "get_pet" get "/pets/{petId}" [petIdParam true].

Definition rawPetId : RawParam :=
  {| rp_name := Str "petId"; rp_in := Str "path"; rp_required := Some true;
     rp_schema := None |}.

(** A parameter left as a reference by the bundler: it has no [name] and
    no [in]. *)
Definition refParam : RawParam :=
  {| rp_name := Undefined; rp_in := Undefined; rp_required := None; rp_schema := None |}.

Definition operation (tags : option (list string)) (id : option string)
    (ps : list RawParam) : OperationObject :=
  {| oo_tags := tags; oo_operationId := id; oo_summary := None; oo_description := None;
     oo_parameters := Some ps; oo_responses := None; oo_requestBody := None |}.

Definition item (g p : option OperationObject) : PathItem :=
  {| pi_parameters := None; pi_get := g; pi_post := p; pi_put := None;
     pi_patch := None; pi_delete := None; pi_head := None |}.

Definition document (paths : list (string * option PathItem)) : Document :=
  {| d_paths := Some paths; d_info := None; d_servers := None |}.

(** Two paths: a read with two tags and a write without tags. *)
Definition petstore : Document :=
  document
    [ ("/pets/{petId}",
        Some (item (Some (operation (Some ["pets"; "store"]) (Some "getPetById") [rawPetId])) None));
      ("/pets", Some (item None (Some (operation None (Some "createPet") [])))) ].

(** An operation whose declared id is made of braces only. *)
Definition braces : Document :=
  document [ ("/x", Some (item (Some (operation (Some ["pets"]) (Some "{}") [])) None)) ].

Definition disk : Mem.Disk :=
  {| Mem.files := ∅; Mem.dirs := ∅;
     Mem.docs := {[ "petstore.yaml" := petstore; "braces.yaml" := braces ]} |}.

Definition world : World Mem.Disk := {| fs := disk; stdout := []; stderr := [] |}.

Definition options (schema : string) (config : option string) (dry : bool)
    : Generate.GenerateOptions :=
  {| Generate.opt_schema := schema; Generate.opt_outDir := "out";
     Generate.opt_baseUrl := "/api"; Generate.opt_groupByTag := true;
     Generate.opt_openApiTsConfig := config; Generate.opt_generateTypes := false;
     Generate.opt_verbose := false; Generate.opt_dryRun := dry |}.

Definition cliOptions (schema : string) : Generate.CliOptions :=
  {| Generate.cli_schema := schema; Generate.cli_out := "out";
     Generate.cli_baseUrl := "/api"; Generate.cli_groupByTag := true;
     Generate.cli_openapiTsConfig := None; Generate.cli_generateTypes := None |}.

(** A disk with a descriptor file whose text is not JSON. *)
Definition diskWithBadJson : Mem.Disk :=
  {| Mem.files := {[ "bad.json" := "{ typesPath: " ]}; Mem.dirs := ∅;
     Mem.docs := {[ "petstore.yaml" := petstore ]} |}.

End Examples.

(** ** Words used in the statements *)

Import Js ChangeCase Model.

(** The reference [queryKeys.<tag>.<fn>] that the hooks and the invalidation
    entries are built around. *)
Definition keyReference (tag : string) (op : Op) : string :=
  "queryKeys." +:+ camelCase tag +:+ "." +:+ camelCase (operationId op).

(** An identifier made of braces only. *)
Fixpoint onlyBraces (s : string) : bool :=
  match s with
  | EmptyString => true
  | String c r => (Ascii.eqb c "{" || Ascii.eqb c "}") && onlyBraces r
  end.


(** The serialization policy in the words of the specification: an entry
    whose value is [undefined] or [null] gives nothing, an array gives one
    pair per item under the same key, in array order, any other value gives
    one pair with the value stringified; no pair gives the empty string, and
    otherwise the encoded pairs are joined by [&] after a [?]. *)
Definition expandEntry (entry : string * Value) : list (string * string) :=
  match snd entry with
  | Undefined | Null => []
  | Arr items => List.map (fun item => (fst entry, toString item)) items
  | v => [(fst entry, toString v)]
  end.

Definition serializePolicy (entries : list (string * Value)) : string :=
  match flat_map expandEntry entries with
  | [] => ""
  | pairs => "?" +:+ join "&" (List.map Runtime.encodePair pairs)
  end.

Definition skipped (v : Value) : Prop := v = Undefined \/ v = Null.

(** The variables in scope of the emitted path expression: the one named
    [x] holds [v], any other is [undefined]. *)
Definition scope (x : string) (v : Value) : string -> Value :=
  fun y => if String.eqb y x then v else Undefined.



(** The operations of a list that carry the tag [t], in their order. *)
Definition withTag (t : string) (ops : list Op) : list Op :=
  List.filter (fun op => String.eqb (tag op) t) ops.

(** What the grouping loop keeps true: keys are distinct, the group of a
    tag holds exactly the operations seen so far with that tag, in order,
    and is not empty, and the tag of every operation seen is a key. *)
Definition grouped (seen : list Op) (byTag : ByTag) : Prop :=
  List.NoDup (List.map fst byTag) /\
  (forall t l, In (t, l) byTag -> l = withTag t seen /\ l <> []) /\
  (forall op, In op seen -> In (tag op) (List.map fst byTag)).

(** A string free of braces. *)
Fixpoint noBraces (s : string) : bool :=
  match s with
  | EmptyString => true
  | String c r => negb (Ascii.eqb c "{" || Ascii.eqb c "}") && noBraces r
  end.

(** The parameter carries one of the four locations. *)
Definition located (p : Param) : bool :=
  match p_in p with
  | Str s => existsb (String.eqb s) ["path"; "query"; "header"; "cookie"]
  | _ => false
  end.

(** The operations a path item declares, read field by field in the
    order get, post, put, patch, delete, head; a method without an
    operation object gives nothing. *)
Definition declaredUnder (m : HttpMethod) (o : option Loader.OperationObject)
    : list (HttpMethod * Loader.OperationObject) :=
  match o with
  | Some opObj => [(m, opObj)]
  | None => []
  end.

Definition declaredOperations (item : Loader.PathItem)
    : list (HttpMethod * Loader.OperationObject) :=
  declaredUnder get (Loader.pi_get item) ++ declaredUnder post (Loader.pi_post item)
  ++ declaredUnder put (Loader.pi_put item) ++ declaredUnder patch (Loader.pi_patch item)
  ++ declaredUnder delete (Loader.pi_delete item) ++ declaredUnder head (Loader.pi_head item).

(** The (path, method) pairs of a document, in document order. *)
Definition endpoints (paths : list (string * option Loader.PathItem))
    : list (string * HttpMethod) :=
  flat_map (fun entry =>
              match snd entry with
              | Some item => List.map (fun mo => (fst entry, fst mo)) (declaredOperations item)
              | None => []
              end) paths.

(** The distinct strings of a list, each at the place of its first
    occurrence. *)
Definition addKey (keys : list string) (k : string) : list string :=
  if existsb (String.eqb k) keys then keys else keys ++ [k].

Definition distinct (l : list string) : list string := fold_left addKey l [].

(** The number of operations held by a grouping. *)
Definition groupedCount (byTag : ByTag) : nat :=
  list_sum (List.map (fun entry => length (snd entry)) byTag).

Definition setGroupByTag (b : bool) (opts : Generate.GenerateOptions) : Generate.GenerateOptions :=
  {| Generate.opt_schema := Generate.opt_schema opts;
     Generate.opt_outDir := Generate.opt_outDir opts;
     Generate.opt_baseUrl := Generate.opt_baseUrl opts;
     Generate.opt_groupByTag := b;
     Generate.opt_openApiTsConfig := Generate.opt_openApiTsConfig opts;
     Generate.opt_generateTypes := Generate.opt_generateTypes opts;
     Generate.opt_verbose := Generate.opt_verbose opts;
     Generate.opt_dryRun := Generate.opt_dryRun opts |}.


(** The planned paths, relative to the output directory. *)
Definition hookSuffixes (groupByTag : bool) (byTag : ByTag) : list string :=
  if groupByTag
  then List.map (fun entry => "/hooks/" +:+ fst entry +:+ ".generated.ts") byTag
  else ["/hooks.generated.ts"].

Definition plannedSuffixes (generateTypes groupByTag integration : bool) (byTag : ByTag)
    : list string :=
  ["/client.ts"; "/queryKeys.ts"; "/invalidate.ts"]
  ++ (if generateTypes then ["/types.ts"] else [])
  ++ hookSuffixes groupByTag byTag
  ++ (if integration then ["/openapi-ts.config.ts"] else []).


(** Every character of a string passes a test; the number of occurrences of
    a character; a string without its first [k] characters. *)
Fixpoint allChars (P : ascii -> bool) (s : string) : bool :=
  match s with
  | EmptyString => true
  | String c r => P c && allChars P r
  end.

Fixpoint countChar (c : ascii) (s : string) : nat :=
  match s with
  | EmptyString => 0
  | String d r => (if Ascii.eqb d c then 1 else 0) + countChar c r
  end.

(** The characters a form-encoded name or value is made of. *)
Definition urlSafe (c : ascii) : bool :=
  Runtime.unreserved c || Ascii.eqb c "+" || Ascii.eqb c "%".

Definition notOpenBrace (c : ascii) : bool := negb (Ascii.eqb c "{").

(** The callback that puts a placeholder back as it was. *)
Definition asPlaceholder (name : string) : string := "{" +:+ name +:+ "}".


(** A string without its first [k] characters. *)
Fixpoint dropChars (k : nat) (s : string) : string :=
  match k, s with
  | S k', String _ r => dropChars k' r
  | _, _ => s
  end.

(** The string holds a letter or a digit; it starts with one. *)
Fixpoint hasAlnum (s : string) : bool :=
  match s with
  | EmptyString => false
  | String c r => isAlnum c || hasAlnum r
  end.

Definition startsAlnum (s : string) : bool :=
  match s with
  | String c _ => isAlnum c
  | EmptyString => false
  end.


(** The default base URL as [client.ts] spells it. *)
Definition defaultBase (baseUrl : string) : string :=
  "const base = (cfg.baseUrl ?? " +:+ dq +:+ baseUrl +:+ dq +:+ ")".

(** The types the generator writes for a parameter, and for a response. *)
Definition parameterTypes : list string :=
  ["number"; "boolean"; "any[]"; "Record<string, any>"; "string"].

Definition responseTypes : list string := ["any[]"; "Record<string, any>"; "any"].

(** An operation whose only response is an error that carries a list. *)
Definition notFoundOnly : Op :=
  {| tag := "pets"; operationId := "listPets"; method := get; path := "/pets";
     summary := None; description := None; params := [];
     requestBody := None;
     responses := [ ("404", {| r_contentType := Some "application/json";
                               r_schema := Some {| s_type := Some "array"; s_format := None;
                                                   s_items := true |};
                               r_description := None |}) ];
     pathParams := Some []; queryParams := Some []; headerParams := Some [];
     cookieParams := Some [] |}.

(** A text without a line break. *)
Fixpoint oneLine (s : string) : bool :=
  match s with
  | EmptyString => true
  | String c r => negb (Ascii.eqb c Runtime.newline) && oneLine r
  end.

(** The object that the query-key module is meant to export: under the
    camel-cased name of each tag, the constant [root] and, under the
    camel-cased id of each operation, a function of [params] whose body is
    the key tuple. *)
Definition keyMembers (root : string) (ops : list Op) : list (string * Runtime.Member) :=
  ("root", Runtime.Constant ("['" +:+ root +:+ "']"))
  :: List.map (fun op => (camelCase (operationId op),
                          Runtime.Arrow (QueryKeys.keyTuple root (camelCase (operationId op)))))
              ops.

Definition keyObject (byTag : ByTag) : Runtime.KeyObject :=
  List.map (fun entry => (camelCase (fst entry), keyMembers (camelCase (fst entry)) (snd entry)))
           byTag.

(** Every tag and every operation id of the grouping camel-cases to a name
    that can be written as a property name. *)
Definition wellNamed (byTag : ByTag) : Prop :=
  forall tag ops, In (tag, ops) byTag ->
    Runtime.isIdentifierName (camelCase tag) = true /\
    forall op, In op ops -> Runtime.isIdentifierName (camelCase (operationId op)) = true.

(** No other tag of the grouping camel-cases to the name of [tag]. *)
Definition ownRoot (byTag : ByTag) (tag : string) (ops : list Op) : Prop :=
  forall tag' ops', In (tag', ops') byTag -> camelCase tag' = camelCase tag ->
                    (tag', ops') = (tag, ops).


(** The paths that a listing holds: its lines that start with the bullet,
    without it. *)
Definition listedPaths (text : string) : list string :=
  flat_map (fun l => match Runtime.removePrefix "  • " l with
                     | Some p => [p]
                     | None => []
                     end)
           (Runtime.lines text).

(** * Properties *)

(** ** Strings *)

#[local] Arguments String.append !s1 s2 : simpl nomatch.

Lemma append_assoc (a b c : string) : (a +:+ b) +:+ c = a +:+ (b +:+ c).
Proof. induction a as [|x a IH]; simpl; [reflexivity | now rewrite IH]. Qed.

Lemma append_nil_r (a : string) : a +:+ "" = a.
Proof. induction a as [|x a IH]; simpl; [reflexivity | now rewrite IH]. Qed.

Lemma append_length (a b : string) :
  String.length (a +:+ b) = String.length a + String.length b.
Proof. induction a as [|x a IH]; simpl; [reflexivity | now rewrite IH]. Qed.

Lemma append_cancel_l (a x y : string) : a +:+ x = a +:+ y -> x = y.
Proof. induction a as [|c a IH]; simpl; intros E; [exact E | injection E; auto]. Qed.

Lemma prefix_append (sub post : string) : String.prefix sub (sub +:+ post) = true.
Proof.
  induction sub as [|c sub IH]; simpl; [now destruct post |].
  destruct (ascii_dec c c) as [_|N]; [exact IH | now elim N].
Qed.

Lemma prefix_elim (sub s : string) :
  String.prefix sub s = true -> exists post, s = sub +:+ post.
Proof.
  revert s; induction sub as [|c sub IH]; intros s Hp.
  - exists s; reflexivity.
  - destruct s as [|d s]; simpl in Hp; [discriminate |].
    destruct (ascii_dec c d) as [->|]; [| discriminate].
    destruct (IH s Hp) as [post ->]. exists post; reflexivity.
Qed.

Lemma includes_unfold (s sub : string) :
  includes s sub =
  String.prefix sub s || match s with EmptyString => false | String _ r => includes r sub end.
Proof. destruct s; reflexivity. Qed.

Lemma includes_iff (s sub : string) :
  includes s sub = true <-> exists pre post, s = pre +:+ sub +:+ post.
Proof.
  split.
  - induction s as [|c s IH]; intros Hi; rewrite includes_unfold in Hi;
      apply orb_true_iff in Hi as [Hp | Hr].
    + apply prefix_elim in Hp as [post E]. exists "", post. exact E.
    + discriminate.
    + apply prefix_elim in Hp as [post E]. exists "", post. exact E.
    + destruct (IH Hr) as (pre & post & ->). exists (String c pre), post. reflexivity.
  - intros (pre & post & ->). induction pre as [|c pre IH].
    + rewrite includes_unfold. simpl. now rewrite prefix_append.
    + rewrite includes_unfold. simpl in *. rewrite IH. apply orb_true_r.
Qed.

Lemma includes_mid (pre sub post : string) : includes (pre +:+ sub +:+ post) sub = true.
Proof. apply includes_iff. now exists pre, post. Qed.

Lemma includes_refl (s : string) : includes s s = true.
Proof. apply includes_iff. exists "", "". simpl. now rewrite append_nil_r. Qed.

Lemma includes_trans (s t u : string) :
  includes s t = true -> includes t u = true -> includes s u = true.
Proof.
  intros Hst Htu. apply includes_iff in Hst as (a & b & ->).
  apply includes_iff in Htu as (c & d & ->). apply includes_iff.
  exists (a +:+ c), (d +:+ b). now rewrite !append_assoc.
Qed.

Lemma includes_app_l (a b x : string) : includes a x = true -> includes (a +:+ b) x = true.
Proof.
  intros Ha. apply includes_iff in Ha as (p & q & ->). apply includes_iff.
  exists p, (q +:+ b). now rewrite !append_assoc.
Qed.

Lemma includes_app_r (a b x : string) : includes b x = true -> includes (a +:+ b) x = true.
Proof.
  intros Hb. apply includes_iff in Hb as (p & q & ->). apply includes_iff.
  exists (a +:+ p), q. now rewrite !append_assoc.
Qed.

Lemma includes_join (sep : string) (l : list string) (x : string) :
  In x l -> includes (join sep l) x = true.
Proof.
  induction l as [|y l IH]; intros Hin; [destruct Hin |].
  destruct Hin as [-> | Hin].
  - destruct l as [|z l]; simpl; [apply includes_refl |].
    apply includes_app_l, includes_refl.
  - destruct l as [|z l]; [destruct Hin |].
    change (join sep (y :: z :: l)) with (y +:+ sep +:+ join sep (z :: l)).
    apply includes_app_r, includes_app_r, IH, Hin.
Qed.

Lemma append_eq_nil (a b : string) : a +:+ b = "" -> a = "" /\ b = "".
Proof. destruct a; simpl; intros E; [auto | discriminate]. Qed.

(** ** Calls that may throw *)

Lemma lines_nonempty (s : string) : Runtime.lines s <> [].
Proof.
  induction s as [|c s IH]; simpl; [discriminate |].
  destruct (Ascii.eqb c Runtime.newline); [discriminate |].
  destruct (Runtime.lines s); discriminate.
Qed.

Lemma lines_app_newline (a b : string) :
  Runtime.lines (a +:+ String Runtime.newline b) = Runtime.lines a ++ Runtime.lines b.
Proof.
  induction a as [|c a IH].
  - reflexivity.
  - cbn [String.append Runtime.lines]. rewrite IH.
    destruct (Ascii.eqb c Runtime.newline); [reflexivity |].
    destruct (Runtime.lines a) as [|l ls] eqn:E; [now elim (lines_nonempty a) | reflexivity].
Qed.

Lemma lines_oneLine (a : string) : oneLine a = true -> Runtime.lines a = [a].
Proof.
  induction a as [|c a IH]; [reflexivity |]. cbn [oneLine Runtime.lines]. intros H.
  apply andb_true_iff in H as [Hc Ha]. apply negb_true_iff in Hc. rewrite Hc, (IH Ha).
  reflexivity.
Qed.

Lemma oneLine_app (a b : string) : oneLine (a +:+ b) = oneLine a && oneLine b.
Proof. induction a as [|c a IH]; simpl; [reflexivity | now rewrite IH, andb_assoc]. Qed.

Lemma removePrefix_app (pre s : string) : Runtime.removePrefix pre (pre +:+ s) = Some s.
Proof.
  induction pre as [|c pre IH]; [now destruct s |].
  cbn [String.append Runtime.removePrefix]. now rewrite Ascii.eqb_refl.
Qed.

Lemma lines_join (xs : list string) :
  xs <> [] -> (forall x, In x xs -> oneLine x = true) ->
  Runtime.lines (join "
" xs) = xs.
Proof.
  induction xs as [|x xs IH]; [congruence |]. intros _ Hall.
  destruct xs as [|y xs'].
  - cbn [join]. apply lines_oneLine, Hall. now left.
  - change (join "
" (x :: y :: xs')) with (x +:+ String Runtime.newline (join "
" (y :: xs'))).
    rewrite lines_app_newline, (lines_oneLine x (Hall x (or_introl eq_refl))).
    rewrite IH; [reflexivity | discriminate | intros z Hz; apply Hall; now right].
Qed.

Lemma listedPaths_listing (paths : list string) :
  (forall p, In p paths -> oneLine p = true) ->
  listedPaths (join "
" (List.map (fun p => "  • " +:+ p) paths)) = paths.
Proof.
  intros Hall. unfold listedPaths. destruct paths as [|p paths]; [reflexivity |].
  rewrite lines_join.
  - clear Hall. induction (p :: paths) as [|q qs IH]; [reflexivity |].
    cbn [List.map flat_map]. rewrite removePrefix_app, IH. reflexivity.
  - discriminate.
  - intros x Hx. apply in_map_iff in Hx as (q & <- & Hq).
    rewrite oneLine_app, (Hall q Hq). reflexivity.
Qed.

Lemma mapM_Ok_inv {A B : Type} (f : A -> Result B) (l : list A) (ys : list B) :
  mapM f l = Ok ys -> forall x, In x l -> exists y, f x = Ok y.
Proof.
  revert ys; induction l as [|a l IH]; intros ys E x Hin; [destruct Hin |].
  simpl in E. destruct (f a) as [b|m] eqn:Ea; simpl in E; [| discriminate].
  destruct (mapM f l) as [bs|m] eqn:El; simpl in E; [| discriminate].
  destruct Hin as [<- | Hin]; [now exists b | exact (IH bs eq_refl x Hin)].
Qed.

Lemma mapM_throws {A B : Type} (f : A -> Result B) (l : list A) (x : A) (e : string) :
  In x l -> f x = Thrown e -> exists e', mapM f l = Thrown e'.
Proof.
  intros Hin Ex. destruct (mapM f l) as [ys|e'] eqn:El; [| now exists e'].
  destruct (mapM_Ok_inv f l ys El x Hin) as [y Ey]. congruence.
Qed.

(** ** The hooks renderer *)

Lemma capitalize_empty (fn : string) :
  fn = "" -> Hooks.capitalize fn = Thrown "Cannot read properties of undefined (reading 'toUpperCase')".
Proof. now intros ->. Qed.

Lemma capitalize_Ok (fn Fn : string) : Hooks.capitalize fn = Ok Fn -> fn <> "".
Proof. destruct fn; simpl; [discriminate | discriminate]. Qed.

Lemma renderHook_empty (tag : string) (op : Op) :
  camelCase (operationId op) = "" ->
  Hooks.renderHook tag op = Thrown "Cannot read properties of undefined (reading 'toUpperCase')".
Proof.
  intros E. unfold Hooks.renderHook, Hooks.renderQueryHook, Hooks.renderMutationHook.
  rewrite (capitalize_empty _ E). now destruct (Hooks.isQuery (method op)).
Qed.

Lemma renderHook_Ok (tag : string) (op : Op) (text : string) :
  Hooks.renderHook tag op = Ok text -> camelCase (operationId op) <> "".
Proof.
  unfold Hooks.renderHook, Hooks.renderQueryHook, Hooks.renderMutationHook.
  destruct (Hooks.capitalize (camelCase (operationId op))) as [Fn|m] eqn:E.
  - intros _. exact (capitalize_Ok _ _ E).
  - now destruct (Hooks.isQuery (method op)).
Qed.

Lemma renderTagHooks_Ok (tag : string) (ops : list Op) (text : string) :
  Hooks.renderTagHooks tag ops = Ok text ->
  forall op, In op ops -> camelCase (operationId op) <> "".
Proof.
  unfold Hooks.renderTagHooks. intros E op Hin.
  destruct (mapM (Hooks.renderHook tag) ops) as [hooks|m] eqn:Em; [| discriminate].
  destruct (mapM_Ok_inv _ _ _ Em op Hin) as [t Et]. exact (renderHook_Ok _ _ _ Et).
Qed.

Lemma renderHooksTemplate_Ok (entries : ByTag) (importBase text : string) :
  Hooks.renderHooksTemplate entries importBase = Ok text ->
  forall tag ops op, In (tag, ops) entries -> In op ops -> camelCase (operationId op) <> "".
Proof.
  unfold Hooks.renderHooksTemplate. intros E tag ops op Hentry Hop.
  destruct (mapM _ entries) as [blocks|m] eqn:Em; [| discriminate].
  destruct (mapM_Ok_inv _ _ _ Em (tag, ops) Hentry) as [t Et].
  exact (renderTagHooks_Ok _ _ _ Et op Hop).
Qed.

Lemma stripBraces_onlyBraces (s : string) : onlyBraces s = true -> stripBraces s = "".
Proof.
  induction s as [|c s IH]; simpl; [reflexivity |].
  intros H. apply andb_true_iff in H as [Hc Hs]. rewrite Hc. exact (IH Hs).
Qed.

(** C9.  A declared [operationId] made of braces only is sanitized to the
    empty string by the loader; an operation whose camel-cased id is empty
    makes each hook renderer throw, and with it the rendering of every group
    and file that holds the operation; so whenever the hooks of a tag or of
    a file are rendered, every operation in them has a non-empty sanitized
    id. *)
Theorem C9_braces_only_id_makes_hooks_throw :
  (forall m p opObj id,
      Loader.oo_operationId opObj = Some id -> onlyBraces id = true ->
      Loader.operationIdOf m p opObj = "") /\
  (forall tag op,
      operationId op = "" ->
      exists e, Hooks.renderQueryHook tag op = Thrown e /\
                Hooks.renderMutationHook tag op = Thrown e) /\
  (forall entries importBase tag ops op,
      In (tag, ops) entries -> In op ops -> operationId op = "" ->
      exists e, Hooks.renderHooksTemplate entries importBase = Thrown e) /\
  (forall entries importBase text,
      Hooks.renderHooksTemplate entries importBase = Ok text ->
      forall tag ops op, In (tag, ops) entries -> In op ops -> operationId op <> "").
Proof.
  split; [| split; [| split]].
  - intros m p opObj id Eid Hb. unfold Loader.operationIdOf. rewrite Eid.
    exact (stripBraces_onlyBraces id Hb).
  - intros tag op E. eexists. unfold Hooks.renderQueryHook, Hooks.renderMutationHook.
    rewrite E. split; reflexivity.
  - intros entries importBase tag ops op Hentry Hop E.
    destruct (Hooks.renderHooksTemplate entries importBase) as [text|e] eqn:Er;
      [| now exists e].
    exfalso. apply (renderHooksTemplate_Ok _ _ _ Er tag ops op Hentry Hop).
    now rewrite E.
  - intros entries importBase text Er tag ops op Hentry Hop E.
    apply (renderHooksTemplate_Ok _ _ _ Er tag ops op Hentry Hop). now rewrite E.
Qed.

(** The sample document with the id [{}]: loading gives an operation with
    the empty id, and neither hooks file can be rendered. *)
Lemma C9_witness :
  List.map operationId (ops (Loader.buildModel Examples.braces)) = [""] /\
  (exists e, Hooks.renderHooksByTag "pets" (ops (Loader.buildModel Examples.braces)) = Thrown e) /\
  (forall tag ops op, In (tag, ops) [("pets", [Examples.getPetById])] -> In op ops ->
                      operationId op <> "").
Proof.
  split; [reflexivity | split].
  - destruct C9_braces_only_id_makes_hooks_throw as (_ & _ & Hthrow & _).
    apply (Hthrow [("pets", ops (Loader.buildModel Examples.braces))] "../" "pets"
                  (ops (Loader.buildModel Examples.braces))
                  (Examples.mkOp "pets" "" get "/x" [])).
    + left; reflexivity.
    + left; reflexivity.
    + reflexivity.
  - destruct C9_braces_only_id_makes_hooks_throw as (_ & _ & _ & Hok).
    destruct (Hooks.renderHooksTemplate [("pets", [Examples.getPetById])] "../") as [t|e] eqn:E.
    + exact (Hok _ _ t E).
    + vm_compute in E. discriminate E.
Defined.

Lemma isQuery_iff (m : HttpMethod) : Hooks.isQuery m = true <-> m = get \/ m = head.
Proof.
  destruct m; simpl; split; intros H; try reflexivity; try discriminate; auto;
    destruct H as [H | H]; discriminate H.
Qed.


Lemma Ok_inj {A : Type} (a b : A) : Ok a = Ok b -> a = b.
Proof. now intros [= ->]. Qed.

(** A non-empty sanitized id is needed for the hooks to render, but it is
    not enough: an id without letters or digits camel-cases to the empty
    name as well. *)
Lemma underscore_id_throws :
  stripBraces "_" = "_" /\
  camelCase "_" = "" /\
  exists e, Hooks.renderHook "pets" (Examples.mkOp "pets" "_" get "/x" []) = Thrown e.
Proof. split; [reflexivity | split; [reflexivity | eexists; reflexivity]]. Qed.

Ltac skip_left :=
  lazymatch goal with
  | |- includes (?a +:+ ?b) ?x = true => apply (includes_app_r a b x)
  end.





Lemma read_not_write (m : HttpMethod) :
  m = get \/ m = head -> m = post \/ m = put \/ m = patch \/ m = delete -> False.
Proof. intros [-> | ->] [H | [H | [H | H]]]; discriminate H. Qed.

Lemma renderHook_read (tag : string) (op : Op) :
  method op = get \/ method op = head ->
  Hooks.renderHook tag op = Hooks.renderQueryHook tag op.
Proof. intros H. unfold Hooks.renderHook. apply isQuery_iff in H. now rewrite H. Qed.


(** ** Query keys and invalidation *)

Lemma keyLine_in_queryKeys (byTag : ByTag) (tag : string) (ops : list Op) (op : Op) :
  In (tag, ops) byTag -> In op ops ->
  includes (QueryKeys.renderQueryKeys byTag) (QueryKeys.keyLine (camelCase tag) op) = true.
Proof.
  intros Hentry Hop. unfold QueryKeys.renderQueryKeys.
  skip_left. apply includes_app_l.
  apply includes_trans with (t := QueryKeys.tagBlock (tag, ops)).
  - apply includes_join, in_map, Hentry.
  - unfold QueryKeys.tagBlock. do 5 skip_left. apply includes_app_l.
    apply includes_join, in_map, Hop.
Qed.

Lemma entryLine_in_invalidate (byTag : ByTag) (tag : string) (ops : list Op) (op : Op) :
  In (tag, ops) byTag -> In op ops -> Invalidate.isRead op = true ->
  includes (Invalidate.renderInvalidate byTag) (Invalidate.entryLine (camelCase tag) op) = true.
Proof.
  intros Hentry Hop Hread. unfold Invalidate.renderInvalidate.
  skip_left. apply includes_app_l.
  apply includes_trans with (t := Invalidate.tagBlock (tag, ops)).
  - apply includes_join, in_map, Hentry.
  - unfold Invalidate.tagBlock. do 3 skip_left. apply includes_app_l.
    apply includes_join. unfold Invalidate.tagEntries.
    apply in_map, filter_In. split; assumption.
Qed.

Lemma isRead_iff (op : Op) : Invalidate.isRead op = true <-> method op = get \/ method op = head.
Proof. unfold Invalidate.isRead. apply isQuery_iff. Qed.

Lemma removeSuffix_unfold (suf s : string) :
  Runtime.removeSuffix suf s =
  if String.eqb s suf then Some EmptyString
  else match s with
       | EmptyString => None
       | String c r => option_map (String c) (Runtime.removeSuffix suf r)
       end.
Proof. destruct s; reflexivity. Qed.

Lemma removeSuffix_correct (suf s pre : string) :
  Runtime.removeSuffix suf s = Some pre -> s = pre +:+ suf.
Proof.
  revert pre; induction s as [|c s IH]; intros pre; rewrite removeSuffix_unfold.
  - destruct (String.eqb_spec "" suf) as [<- | _]; [| discriminate].
    now intros [= <-].
  - destruct (String.eqb_spec (String c s) suf) as [<- | _].
    + now intros [= <-].
    + destruct (Runtime.removeSuffix suf s) as [p|]; simpl; [| discriminate].
      intros [= <-]. simpl. now rewrite (IH p eq_refl).
Qed.

(** A text that ends with [x], then [k], then a text that starts with [y]
    holds [x k y]. *)
Lemma includes_between (a k b x y a' : string) :
  Runtime.removeSuffix x a = Some a' -> String.prefix y b = true ->
  includes (a +:+ k +:+ b) (x +:+ k +:+ y) = true.
Proof.
  intros Ha Hb. apply removeSuffix_correct in Ha as ->.
  apply prefix_elim in Hb as [b' ->]. apply includes_iff.
  exists a', b'. now rewrite !append_assoc.
Qed.

Lemma queryHook_uses_key (tag : string) (op : Op) (text : string) :
  Hooks.renderQueryHook tag op = Ok text ->
  includes text ("queryKey: " +:+ keyReference tag op +:+ "(params?.query)") = true.
Proof.
  unfold Hooks.renderQueryHook.
  destruct (Hooks.capitalize (camelCase (operationId op))) as [Fn|m]; cbv [bind]; [| discriminate].
  intros E; apply Ok_inj in E; subst text.
  do 6 skip_left. eapply includes_between; [vm_compute; reflexivity | reflexivity].
Qed.

Lemma entryLine_uses_key (tag : string) (op : Op) :
  includes (Invalidate.entryLine (camelCase tag) op)
           ("queryKey: " +:+ keyReference tag op +:+ "(params)") = true.
Proof.
  unfold Invalidate.entryLine, keyReference. do 2 skip_left.
  apply includes_iff.
  exists ": (params?: any) => qc.invalidateQueries({ ", " })". 
  rewrite !append_assoc. reflexivity.
Qed.

Lemma mapM_Ok_In {A B : Type} (f : A -> Result B) (l : list A) (ys : list B) :
  mapM f l = Ok ys -> forall x, In x l -> exists y, f x = Ok y /\ In y ys.
Proof.
  revert ys; induction l as [|a l IH]; intros ys E x Hin; [destruct Hin |].
  simpl in E. destruct (f a) as [b|m] eqn:Ea; simpl in E; [| discriminate].
  destruct (mapM f l) as [bs|m] eqn:El; simpl in E; [| discriminate].
  apply Ok_inj in E; subst ys.
  destruct Hin as [<- | Hin]; [exists b; split; [exact Ea | now left] |].
  destruct (IH bs eq_refl x Hin) as (y & Ey & Hy). exists y; split; [exact Ey | now right].
Qed.

Lemma includes_nonempty (s x : string) : includes s x = true -> x <> "" -> s <> "".
Proof.
  intros Hi Hx ->. apply includes_iff in Hi as (a & b & E).
  symmetry in E. apply append_eq_nil in E as [_ E]. apply append_eq_nil in E as [E _].
  exact (Hx E).
Qed.

(** Every hook rendered for an operation is part of the hooks file. *)
Lemma hook_in_file (entries : ByTag) (importBase file : string)
    (tag : string) (ops : list Op) (op : Op) :
  Hooks.renderHooksTemplate entries importBase = Ok file ->
  In (tag, ops) entries -> In op ops ->
  exists text, Hooks.renderHook tag op = Ok text /\ includes file text = true.
Proof.
  unfold Hooks.renderHooksTemplate. intros E Hentry Hop.
  destruct (mapM _ entries) as [blocks|m] eqn:Em; cbv [bind] in E; [| discriminate].
  apply Ok_inj in E; subst file.
  destruct (mapM_Ok_In _ _ _ Em (tag, ops) Hentry) as (block & Eb & Hb).
  unfold Hooks.renderTagHooks in Eb. cbn [fst snd] in Eb.
  destruct (mapM (Hooks.renderHook tag) ops) as [hooks|m] eqn:Eh; cbv [bind] in Eb;
    [| discriminate].
  apply Ok_inj in Eb; subst block.
  destruct (mapM_Ok_In _ _ _ Eh op Hop) as (text & Et & Ht).
  exists text; split; [exact Et |].
  assert (Hin : includes (join "
" hooks) text = true) by (apply includes_join, Ht).
  apply includes_app_r, includes_trans with (t := join "
" hooks); [| exact Hin].
  apply includes_join, filter_In. split; [exact Hb |].
  unfold Hooks.nonEmpty. apply negb_true_iff, String.eqb_neq.
  apply (includes_nonempty _ _ Hin).
  intros ->. unfold Hooks.renderHook, Hooks.renderQueryHook, Hooks.renderMutationHook in Et.
  destruct (Hooks.capitalize _), (Hooks.isQuery _); cbv [bind] in Et;
    try discriminate; apply Ok_inj in Et; apply (f_equal String.length) in Et;
    rewrite append_length in Et; simpl in Et; discriminate Et.
Qed.



(** *** Generated identifiers *)

Lemma isWordChar_lowerChar (c : ascii) :
  isWordChar c = true -> isWordChar (lowerChar c) = true.
Proof. destruct c as [[] [] [] [] [] [] [] []]; vm_compute; auto. Qed.

Lemma isWordChar_upperChar (c : ascii) :
  isWordChar c = true -> isWordChar (upperChar c) = true.
Proof. destruct c as [[] [] [] [] [] [] [] []]; vm_compute; auto. Qed.

Lemma isAlnum_word (c : ascii) : isAlnum c = true -> isWordChar c = true.
Proof. unfold isWordChar. now intros ->. Qed.

Lemma isDigit_word (c : ascii) : isDigit c = true -> isWordChar c = true.
Proof. unfold isWordChar, isAlnum. intros ->. now rewrite !orb_true_r. Qed.

Lemma isWordChar_plain (c : ascii) :
  isWordChar c = true -> Runtime.plainChar c = true /\ Ascii.eqb c "," = false.
Proof. destruct c as [[] [] [] [] [] [] [] []]; vm_compute; auto; discriminate. Qed.

Lemma allWord_app (a b : string) :
  Runtime.allWord a = true -> Runtime.allWord b = true -> Runtime.allWord (a +:+ b) = true.
Proof.
  intros Ha Hb. induction a as [|c a IH]; simpl; [exact Hb |].
  simpl in Ha. apply andb_true_iff in Ha as [Hc Ha]. now rewrite Hc, (IH Ha).
Qed.

Lemma allWord_mapChars (f : ascii -> ascii) (s : string) :
  (forall c, isWordChar c = true -> isWordChar (f c) = true) ->
  Runtime.allWord s = true -> Runtime.allWord (mapChars f s) = true.
Proof.
  intros Hf. induction s as [|c s IH]; simpl; [reflexivity |].
  intros Hs. apply andb_true_iff in Hs as [Hc Hs]. now rewrite (Hf c Hc), (IH Hs).
Qed.

Lemma wordsFrom_word (s cur : string) :
  Runtime.allWord cur = true ->
  Forall (fun w => Runtime.allWord w = true) (wordsFrom cur s).
Proof.
  revert cur; induction s as [|c s IH]; intros cur Hcur; simpl.
  - unfold flush. destruct (String.eqb cur ""); constructor; [exact Hcur | constructor].
  - destruct (isAlnum c) eqn:Ec.
    + apply IH, allWord_app; [exact Hcur |]. simpl. now rewrite (isAlnum_word c Ec).
    + apply Forall_app. split; [| now apply IH].
      unfold flush. destruct (String.eqb cur ""); constructor; [exact Hcur | constructor].
Qed.

Lemma pascalCaseTransform_word (w : string) :
  Runtime.allWord w = true -> Runtime.allWord (pascalCaseTransform w) = true.
Proof.
  destruct w as [|c r]; simpl; [reflexivity |].
  intros Hw. apply andb_true_iff in Hw as [Hc Hr].
  pose proof (allWord_mapChars lowerChar r isWordChar_lowerChar Hr) as Hlow.
  destruct (isDigit c) eqn:Ed; simpl.
  - fold (toLowerCase r). unfold toLowerCase. now rewrite Hc, Hlow.
  - fold (toLowerCase r). unfold toLowerCase. now rewrite (isWordChar_upperChar c Hc), Hlow.
Qed.

Lemma concat_word (l : list string) :
  Forall (fun w => Runtime.allWord w = true) l -> Runtime.allWord (String.concat "" l) = true.
Proof.
  induction 1 as [|w l Hw Hl IH]; [reflexivity |].
  destruct l as [|w' l']; [exact Hw |].
  change (String.concat "" (w :: w' :: l')) with (w +:+ "" +:+ String.concat "" (w' :: l')).
  apply allWord_app; [exact Hw | exact IH].
Qed.

(** A camel-cased name is made of letters, digits and underscores. *)
Lemma camelCase_word (s : string) : Runtime.allWord (camelCase s) = true.
Proof.
  unfold camelCase, split.
  pose proof (wordsFrom_word (splitUpperUpper (splitLowerUpper s)) "" eq_refl) as Hwords.
  destruct (wordsFrom "" (splitUpperUpper (splitLowerUpper s))) as [|w ws]; [reflexivity |].
  inversion Hwords as [|? ? Hw Hws]; subst.
  apply concat_word. constructor.
  - exact (allWord_mapChars lowerChar w isWordChar_lowerChar Hw).
  - clear Hwords Hw. induction Hws as [|x xs Hx Hxs IH]; simpl; constructor;
      [exact (pascalCaseTransform_word x Hx) | exact IH].
Qed.

(** *** The value of the emitted key tuple *)

Lemma splitComma_word (w cur s : string) :
  Runtime.allWord w = true ->
  Runtime.splitComma cur (w +:+ s) = Runtime.splitComma (cur +:+ w) s.
Proof.
  revert cur; induction w as [|c w IH]; intros cur Hw; simpl.
  - now rewrite append_nil_r.
  - simpl in Hw. apply andb_true_iff in Hw as [Hc Hw].
    rewrite (proj2 (isWordChar_plain c Hc)), (IH _ Hw).
    now rewrite append_assoc.
Qed.

Lemma lastChar_snoc (a : string) (c : ascii) : lastChar (a +:+ String c "") = Some c.
Proof.
  induction a as [|x a IH]; [reflexivity |].
  simpl. rewrite IH. now destruct (a +:+ String c "") eqn:E; [destruct a; discriminate E |].
Qed.

Lemma dropLast_snoc (a : string) (c : ascii) : dropLast (a +:+ String c "") = a.
Proof.
  induction a as [|x a IH]; [reflexivity |].
  simpl. rewrite IH. now destruct (a +:+ String c "") eqn:E; [destruct a; discriminate E |].
Qed.

Lemma allPlain_word (w : string) : Runtime.allWord w = true -> Runtime.allPlain w = true.
Proof.
  induction w as [|c w IH]; simpl; [reflexivity |].
  intros Hw. apply andb_true_iff in Hw as [Hc Hw].
  now rewrite (proj1 (isWordChar_plain c Hc)), (IH Hw).
Qed.

Lemma evalElement_quoted (params : Value) (w : string) :
  Runtime.allWord w = true ->
  Runtime.evalElement params (Runtime.trimStart ("'" +:+ w +:+ "'")) = Some (Str w).
Proof.
  intros Hw. change ("'" +:+ w +:+ "'") with (String "'" (w +:+ "'")).
  cbn [Runtime.trimStart Ascii.eqb Bool.eqb]. unfold Runtime.evalElement.
  cbn [String.eqb Ascii.eqb Bool.eqb andb]. unfold endsWithChar.
  rewrite lastChar_snoc, dropLast_snoc, (allPlain_word w Hw). reflexivity.
Qed.

Lemma keyTuple_value (root keyName : string) (params : Value) :
  Runtime.allWord root = true -> Runtime.allWord keyName = true ->
  Runtime.evalArrayLiteral params (QueryKeys.keyTuple root keyName)
  = Some (Arr [Str root; Str keyName; nullish params (Obj [])]).
Proof.
  intros Hr Hk. unfold QueryKeys.keyTuple.
  replace ("['" +:+ root +:+ "','" +:+ keyName +:+ "', params ?? {}]")
    with (String "[" (("'" +:+ root +:+ "','" +:+ keyName +:+ "', params ?? {}") +:+ "]"))
    by (repeat (simpl; rewrite ?append_assoc); reflexivity).
  unfold Runtime.evalArrayLiteral. cbn [Ascii.eqb Bool.eqb andb]. unfold endsWithChar.
  rewrite lastChar_snoc, dropLast_snoc. cbn [Ascii.eqb Bool.eqb].
  change ("'" +:+ root +:+ "','" +:+ keyName +:+ "', params ?? {}")
    with (String "'" (root +:+ String "'" (String "," (String "'" (keyName +:+ "', params ?? {}"))))).
  cbn [Runtime.splitComma Ascii.eqb Bool.eqb]. rewrite (splitComma_word root _ _ Hr).
  cbn [Runtime.splitComma Ascii.eqb Bool.eqb]. rewrite (splitComma_word keyName _ _ Hk).
  cbn [Runtime.splitComma Ascii.eqb Bool.eqb List.map].
  replace ((("" +:+ "'") +:+ root) +:+ "'") with ("'" +:+ root +:+ "'")
    by (repeat (simpl; rewrite ?append_assoc); reflexivity).
  replace ((("" +:+ "'") +:+ keyName) +:+ "'") with ("'" +:+ keyName +:+ "'")
    by (repeat (simpl; rewrite ?append_assoc); reflexivity).
  rewrite (evalElement_quoted params root Hr), (evalElement_quoted params keyName Hk).
  reflexivity.
Qed.


(** C4, as stated, fails: an operation that is not a [get] or a [head] has
    no invalidation entry.  For a tag whose only operation is a [post] the
    block of the tag is empty. *)
Lemma C4_counterexample :
  In Examples.createPet [Examples.createPet] /\
  Invalidate.tagEntries "pets" [Examples.createPet] = [] /\
  includes (Invalidate.renderInvalidate [("pets", [Examples.createPet])])
           (Invalidate.entryLine (camelCase "pets") Examples.createPet) = false /\
  Invalidate.renderInvalidate [("pets", [Examples.createPet])] = "
// GENERATED FILE
import { QueryClient } from '@tanstack/react-query';
import { queryKeys } from './queryKeys.js';

export const invalidate = (qc: QueryClient) => ({
  pets: {

  }
});
".
Proof.
  split; [left; reflexivity |]. split; [reflexivity |]. split; vm_compute; reflexivity.
Qed.

(** C4, amended.  The output of the invalidate renderer holds one block per
    tag, and in the block of a tag one entry
    [name: (params?: any) => qc.invalidateQueries(...)] for every operation
    of the tag whose method is [get] or [head], in source order; operations
    with another method have no entry. *)
Theorem C4_invalidate_covers_reads (byTag : ByTag) (tag : string) (ops : list Op) :
  In (tag, ops) byTag ->
  includes (Invalidate.renderInvalidate byTag) (Invalidate.tagBlock (tag, ops)) = true /\
  Invalidate.tagBlock (tag, ops)
    = "  " +:+ camelCase tag +:+ ": {
" +:+ join ",
" (Invalidate.tagEntries (camelCase tag) ops) +:+ "
  }" /\
  Invalidate.tagEntries (camelCase tag) ops
    = List.map (Invalidate.entryLine (camelCase tag))
               (List.filter (fun op => Hooks.isQuery (method op)) ops) /\
  (forall op, In op ops -> method op = get \/ method op = head ->
     In (Invalidate.entryLine (camelCase tag) op) (Invalidate.tagEntries (camelCase tag) ops) /\
     includes (Invalidate.renderInvalidate byTag) (Invalidate.entryLine (camelCase tag) op) = true /\
     Invalidate.entryLine (camelCase tag) op
       = "    " +:+ camelCase (operationId op)
         +:+ ": (params?: any) => qc.invalidateQueries({ queryKey: queryKeys."
         +:+ camelCase tag +:+ "." +:+ camelCase (operationId op) +:+ "(params) })") /\
  ((forall op, In op ops ->
      method op = post \/ method op = put \/ method op = patch \/ method op = delete) ->
   Invalidate.tagEntries (camelCase tag) ops = []).
Proof.
  intros Hentry.
  split.
  { unfold Invalidate.renderInvalidate. skip_left. apply includes_app_l.
    apply includes_join, in_map, Hentry. }
  split; [reflexivity |]. split; [reflexivity |]. split.
  - intros op Hop Hread. apply isRead_iff in Hread. split; [| split; [| reflexivity]].
    + unfold Invalidate.tagEntries. apply in_map, filter_In. split; assumption.
    + exact (entryLine_in_invalidate byTag tag ops op Hentry Hop Hread).
  - intros Hwrite. unfold Invalidate.tagEntries.
    replace (List.filter Invalidate.isRead ops) with (@nil Op); [reflexivity |].
    symmetry. clear Hentry. induction ops as [|op ops IH]; [reflexivity |].
    simpl. destruct (Invalidate.isRead op) eqn:E.
    + apply isRead_iff in E. destruct (read_not_write _ E (Hwrite op (or_introl eq_refl))).
    + apply IH. intros o Ho. apply Hwrite. now right.
Qed.

Lemma C4_witness :
  includes (Invalidate.renderInvalidate [("pets", [Examples.getPetById; Examples.createPet])])
    "    getPetById: (params?: any) => qc.invalidateQueries({ queryKey: queryKeys.pets.getPetById(params) })"
    = true /\
  Invalidate.tagEntries (camelCase "pets") [Examples.createPet] = [].
Proof.
  split.
  - destruct (C4_invalidate_covers_reads
                [("pets", [Examples.getPetById; Examples.createPet])] "pets"
                [Examples.getPetById; Examples.createPet] (or_introl eq_refl))
      as (_ & _ & _ & Hread & _).
    apply (Hread Examples.getPetById); [left; reflexivity | left; reflexivity].
  - destruct (C4_invalidate_covers_reads [("pets", [Examples.createPet])] "pets"
                [Examples.createPet] (or_introl eq_refl)) as (_ & _ & _ & _ & Hwrite).
    apply Hwrite. intros op [<- | []]. left; reflexivity.
Defined.

(** ** The driver *)

Section Driver.
Import Node OpenApiTs Generate.
Context {FS : Type} {H : Host FS}.

(** [generate], one case after the other. *)
Lemma generate_unfold (opts : GenerateOptions) (w : World FS) :
  generate opts w =
  match bundle (fs w) (opt_schema opts) with
  | Thrown e => (w, Thrown e)
  | Ok api =>
      let spec := Loader.buildModel api in
      let wv := afterVerbose opts spec w in
      match planFiles opts spec (integrationOf opts w) (groupOps (ops spec)) with
      | Thrown e => (wv, Thrown e)
      | Ok plannedFiles =>
          match (if opt_dryRun opts then console_log (dryRunMessage plannedFiles) wv
                 else writeFiles plannedFiles wv) with
          | (w1, Thrown e) => (w1, Thrown e)
          | (w1, Ok _) => (afterSummary opts spec w w1, Ok tt)
          end
      end
  end.
Proof.
  unfold generate, bindM, loadSpec, fsRead, afterVerbose, afterSummary, integrationOf.
  destruct (bundle (fs w) (opt_schema opts)) as [api|e]; cbn [bind]; [| reflexivity].
  cbv zeta.
  destruct (loadOpenApiTsConfig (fs w) (opt_openApiTsConfig opts)) as [c|];
    destruct (opt_verbose opts); cbn [when ret console_log fst snd];
    match goal with
    | |- context [planFiles ?a ?b ?c ?d] => destruct (planFiles a b c d) as [files|e]
    end; try reflexivity;
    destruct (opt_dryRun opts); cbn [console_log isSome when ret fst snd]; try reflexivity;
    match goal with
    | |- context [writeFiles ?f ?w] => destruct (writeFiles f w) as [w1 [u|e]]
    end; try reflexivity; destruct u; reflexivity.
Qed.

Lemma afterVerbose_fs (opts : GenerateOptions) (spec : SpecModel) (w : World FS) :
  fs (afterVerbose opts spec w) = fs w.
Proof. unfold afterVerbose. now destruct (opt_verbose opts). Qed.

Lemma afterSummary_fs (opts : GenerateOptions) (spec : SpecModel) (w0 w : World FS) :
  fs (afterSummary opts spec w0 w) = fs w.
Proof. unfold afterSummary. now destruct (isSome (integrationOf opts w0)). Qed.

Lemma afterSummary_stdout (opts : GenerateOptions) (spec : SpecModel) (w0 w : World FS)
    (msg : string) :
  In msg (stdout w) -> In msg (stdout (afterSummary opts spec w0 w)).
Proof.
  intros Hin. unfold afterSummary.
  destruct (isSome (integrationOf opts w0)); cbn [console_log fst stdout];
    repeat (apply in_or_app; left); exact Hin.
Qed.

Lemma plan_unfold (opts : GenerateOptions) (w : World FS) :
  plan opts w =
  match bundle (fs w) (opt_schema opts) with
  | Thrown e => Thrown e
  | Ok api =>
      planFiles opts (Loader.buildModel api) (integrationOf opts w)
                (groupOps (ops (Loader.buildModel api)))
  end.
Proof. unfold plan. now destruct (bundle (fs w) (opt_schema opts)). Qed.

(** The plan does not depend on the mode. *)
Lemma plan_setDryRun (dry : bool) (opts : GenerateOptions) (w : World FS) :
  plan (setDryRun dry opts) w = plan opts w.
Proof. reflexivity. Qed.

(** C7.  When bundling the document throws, [generate] rejects at its first
    statement, in the world it started in: nothing was written and nothing
    printed.  The command-line program then prints the message on the error
    stream and exits with status 1; the file system is the one it started
    with. *)
Theorem C7_load_failure_aborts (opts : CliOptions) (w : World FS) (e : string) :
  bundle (fs w) (cli_schema opts) = Thrown e ->
  loadSpec (cli_schema opts) w = (w, Thrown e) /\
  generate (cliGenerateOptions opts) w = (w, Thrown e) /\
  main opts w = ({| fs := fs w; stdout := stdout w; stderr := stderr w ++ [e] |}, 1) /\
  fs (fst (main opts w)) = fs w /\
  snd (main opts w) <> 0 /\
  (forall gopts : GenerateOptions,
      opt_schema gopts = cli_schema opts -> generate gopts w = (w, Thrown e)).
Proof.
  intros Hb.
  assert (Hgen : forall gopts : GenerateOptions,
             opt_schema gopts = cli_schema opts -> generate gopts w = (w, Thrown e)).
  { intros gopts Es. rewrite generate_unfold, Es, Hb. reflexivity. }
  assert (Hmain : main opts w
                  = ({| fs := fs w; stdout := stdout w; stderr := stderr w ++ [e] |}, 1)).
  { unfold main. rewrite (Hgen (cliGenerateOptions opts) eq_refl). reflexivity. }
  split; [unfold loadSpec, fsRead; now rewrite Hb |].
  split; [exact (Hgen (cliGenerateOptions opts) eq_refl) |].
  split; [exact Hmain |].
  rewrite Hmain. split; [reflexivity |]. split; [discriminate | exact Hgen].
Qed.

Lemma loadOpenApiTsConfig_failure (d : FS) (p : string) :
  (exists e, readFileSync d p = Thrown e) \/
  (exists text e, readFileSync d p = Ok text /\ JSON_parse text = Thrown e) ->
  loadOpenApiTsConfig d (Some p) = None.
Proof.
  intros Hfail. unfold loadOpenApiTsConfig, readConfig.
  destruct (String.eqb p ""); [reflexivity |].
  destruct Hfail as [[e Er] | (text & e & Er & Ep)]; rewrite Er; cbn [bind];
    [reflexivity | now rewrite Ep].
Qed.

(** C8, amended.  When the descriptor file cannot be read, or its text is
    not JSON, loading it yields [null], no exception leaves
    [loadOpenApiTsConfig], and [generate] does exactly what it does when
    no descriptor path is given: the same result, the same files and the
    same output.  Nothing about the failure is printed. *)
Theorem C8_descriptor_failure_disables (opts : GenerateOptions) (w : World FS) (p : string) :
  (exists e, readFileSync (fs w) p = Thrown e) \/
  (exists text e, readFileSync (fs w) p = Ok text /\ JSON_parse text = Thrown e) ->
  loadOpenApiTsConfig (fs w) (Some p) = None /\
  integrationOf (setConfig (Some p) opts) w = None /\
  generate (setConfig (Some p) opts) w = generate (setConfig None opts) w.
Proof.
  intros Hfail. pose proof (loadOpenApiTsConfig_failure (fs w) p Hfail) as Hload.
  assert (Hint : integrationOf (setConfig (Some p) opts) w = None).
  { unfold integrationOf. cbn [setConfig opt_openApiTsConfig]. now rewrite Hload. }
  split; [exact Hload |]. split; [exact Hint |].
  rewrite !generate_unfold. unfold afterSummary. rewrite Hint.
  reflexivity.
Qed.

(** C6.  A dry run leaves the file system as it found it, whatever
    happens.  When the document cannot be bundled, or planning throws, both
    runs reject with the same error before anything is written.  When
    planning succeeds, the dry run prints, after the heading with their
    number, one line per planned file that holds its path, in the order of
    the plan, and resolves; these lines give the paths back; and the real
    run hands the very same files to [writeFiles]. *)
Theorem C6_dry_run_plans_what_a_run_writes (opts : GenerateOptions) (w : World FS) :
  fs (fst (generate (setDryRun true opts) w)) = fs w /\
  (forall e, bundle (fs w) (opt_schema opts) = Thrown e ->
     generate (setDryRun true opts) w = (w, Thrown e) /\
     generate (setDryRun false opts) w = (w, Thrown e)) /\
  (forall api e,
     bundle (fs w) (opt_schema opts) = Ok api ->
     planFiles opts (Loader.buildModel api) (integrationOf opts w)
       (groupOps (ops (Loader.buildModel api))) = Thrown e ->
     snd (generate (setDryRun true opts) w) = Thrown e /\
     snd (generate (setDryRun false opts) w) = Thrown e /\
     fs (fst (generate (setDryRun false opts) w)) = fs w) /\
  (forall api plannedFiles,
     bundle (fs w) (opt_schema opts) = Ok api ->
     planFiles opts (Loader.buildModel api) (integrationOf opts w)
       (groupOps (ops (Loader.buildModel api))) = Ok plannedFiles ->
     snd (generate (setDryRun true opts) w) = Ok tt /\
     (exists closing,
        stdout (fst (generate (setDryRun true opts) w))
        = stdout (afterVerbose opts (Loader.buildModel api) w)
          ++ yellow (bold "Dry run" +:+ ": " +:+ natToString (length plannedFiles)
                     +:+ " files would be written:
" +:+ join "
" (List.map (fun p => "  • " +:+ p) (List.map file_path plannedFiles)))
             :: closing) /\
     ((forall f, In f plannedFiles -> oneLine (file_path f) = true) ->
      listedPaths (join "
" (List.map (fun p => "  • " +:+ p) (List.map file_path plannedFiles)))
      = List.map file_path plannedFiles) /\
     fs (afterVerbose opts (Loader.buildModel api) w) = fs w /\
     fs (fst (generate (setDryRun false opts) w))
     = fs (fst (writeFiles plannedFiles (afterVerbose opts (Loader.buildModel api) w))) /\
     snd (generate (setDryRun false opts) w)
     = snd (writeFiles plannedFiles (afterVerbose opts (Loader.buildModel api) w))).
Proof.
  rewrite !generate_unfold.
  cbn [setDryRun opt_schema opt_dryRun].
  destruct (bundle (fs w) (opt_schema opts)) as [api|e0].
  2:{ split; [reflexivity |]. split; [intros e [= ->]; split; reflexivity |].
      split; [intros api e E; discriminate E | intros api files E; discriminate E]. }
  cbv zeta.
  change (integrationOf (setDryRun true opts) w) with (integrationOf opts w).
  change (integrationOf (setDryRun false opts) w) with (integrationOf opts w).
  change (planFiles (setDryRun true opts)) with (planFiles opts).
  change (planFiles (setDryRun false opts)) with (planFiles opts).
  change (afterVerbose (setDryRun true opts)) with (afterVerbose opts).
  change (afterVerbose (setDryRun false opts)) with (afterVerbose opts).
  split.
  { destruct (planFiles opts (Loader.buildModel api) (integrationOf opts w)
                (groupOps (ops (Loader.buildModel api)))) as [files|e0]; cbn [console_log fst].
    - rewrite afterSummary_fs. cbn [fs]. apply afterVerbose_fs.
    - apply afterVerbose_fs. }
  split; [intros e E; discriminate E |].
  split.
  { intros api' e E Ep. apply Ok_inj in E. subst api'. rewrite Ep. cbn [fst snd].
    repeat split. apply afterVerbose_fs. }
  intros api' files E Ep. apply Ok_inj in E. subst api'. rewrite Ep.
  cbn [console_log fst snd].
  split; [reflexivity |]. split.
  { unfold afterSummary, dryRunMessage. rewrite List.map_map.
    destruct (isSome _); cbn [console_log fst stdout]; eexists;
      rewrite <- ?List.app_assoc; reflexivity. }
  split.
  { intros Hpaths. apply listedPaths_listing.
    intros p Hp. apply in_map_iff in Hp as (f & <- & Hf). exact (Hpaths f Hf). }
  split; [apply afterVerbose_fs |].
  destruct (writeFiles files (afterVerbose opts (Loader.buildModel api) w))
    as [w1 [u|e1]]; cbn [fst snd].
  - rewrite afterSummary_fs. split; [reflexivity | now destruct u].
  - split; reflexivity.
Qed.

End Driver.

(** ** The driver on the in-memory host *)

Section OnDisk.
Import Node OpenApiTs Generate.
Variable json : gmap string Value.

(** A successful [writeFiles] creates or overwrites exactly the given
    paths. *)
Lemma writeFiles_dom (plannedFiles : list PlannedFile) (w w' : World Mem.Disk) :
  writeFiles (H := Mem.host json) plannedFiles w = (w', Ok tt) ->
  dom (Mem.files (fs w'))
  = dom (Mem.files (fs w)) ∪ list_to_set (List.map file_path plannedFiles).
Proof.
  revert w; induction plannedFiles as [|f rest IH]; intros w E.
  - unfold writeFiles, ret in E. assert (w' = w) as -> by congruence.
    simpl. set_solver.
  - simpl in E. unfold bindM, fsCall in E. cbn [mkdir writeFile Mem.host] in E.
    unfold Mem.makeDir in E.
    destruct (Mem.files (fs w) !! _) as [?|]; [discriminate |]. cbn [fs] in E.
    unfold Mem.write in E. cbn [Mem.dirs Mem.files] in E.
    destruct (bool_decide _); [discriminate |]. cbn [fs] in E.
    apply IH in E. rewrite E. cbn [fs Mem.files List.map].
    rewrite dom_insert_L. set_solver.
Qed.

End OnDisk.

Lemma C7_witness :
  snd (Generate.main (H := Mem.host ∅) (Examples.cliOptions "missing.yaml") Examples.world) = 1 /\
  Node.fs (fst (Generate.main (H := Mem.host ∅) (Examples.cliOptions "missing.yaml")
                  Examples.world)) = Examples.disk.
Proof.
  destruct (C7_load_failure_aborts (H := Mem.host ∅) (Examples.cliOptions "missing.yaml")
              Examples.world ("Error opening file " +:+ dq +:+ "missing.yaml" +:+ dq) eq_refl)
    as (_ & _ & Hmain & Hfs & _).
  split; [now rewrite Hmain | exact Hfs].
Defined.

(** C8, as stated, fails on the words "the failure is logged".  With a
    descriptor path that names no file, the whole output of a run is the
    plan and the summary: nothing tells that the descriptor failed to load,
    on either stream. *)
Lemma C8_counterexample :
  OpenApiTs.loadOpenApiTsConfig (H := Mem.host ∅) Examples.disk (Some "missing.json") = None /\
  Node.stderr (fst (Generate.generate (H := Mem.host ∅)
                      (Examples.options "petstore.yaml" (Some "missing.json") true)
                      Examples.world)) = [] /\
  Node.stdout (fst (Generate.generate (H := Mem.host ∅)
                      (Examples.options "petstore.yaml" (Some "missing.json") true)
                      Examples.world))
  = [ "Dry run: 5 files would be written:
  • out/client.ts
  • out/queryKeys.ts
  • out/invalidate.ts
  • out/hooks/pets.generated.ts
  • out/hooks/default.generated.ts";
      "📝 Planned 2 operations → out" ].
Proof. repeat split; vm_compute; reflexivity. Qed.

Lemma C8_witness :
  Generate.generate (H := Mem.host ∅)
    (Examples.options "petstore.yaml" (Some "missing.json") false) Examples.world
  = Generate.generate (H := Mem.host ∅)
      (Examples.options "petstore.yaml" None false) Examples.world /\
  OpenApiTs.loadOpenApiTsConfig (H := Mem.host ∅) Examples.diskWithBadJson (Some "bad.json")
  = None.
Proof.
  split.
  - apply (C8_descriptor_failure_disables (H := Mem.host ∅)
             (Examples.options "petstore.yaml" None false) Examples.world "missing.json").
    left. eexists. reflexivity.
  - apply (C8_descriptor_failure_disables (H := Mem.host ∅)
             (Examples.options "petstore.yaml" None false)
             {| Node.fs := Examples.diskWithBadJson; Node.stdout := []; Node.stderr := [] |}
             "bad.json").
    right. do 2 eexists. split; reflexivity.
Defined.

(** On the sample document: the dry run leaves the disk alone and lists five
    paths; the real run resolves and the files on the disk afterwards are
    those five. *)
Lemma C6_witness :
  Node.fs (fst (Generate.generate (H := Mem.host ∅)
                  (Examples.options "petstore.yaml" None true) Examples.world))
  = Examples.disk /\
  Node.stdout (fst (Generate.generate (H := Mem.host ∅)
                      (Examples.options "petstore.yaml" None true) Examples.world))
  = [ "Dry run: 5 files would be written:
  • out/client.ts
  • out/queryKeys.ts
  • out/invalidate.ts
  • out/hooks/pets.generated.ts
  • out/hooks/default.generated.ts";
      "📝 Planned 2 operations → out" ] /\
  dom (Mem.files (Node.fs (fst (Generate.generate (H := Mem.host ∅)
                                  (Examples.options "petstore.yaml" None false)
                                  Examples.world))))
  = list_to_set [ "out/client.ts"; "out/queryKeys.ts"; "out/invalidate.ts";
                  "out/hooks/pets.generated.ts"; "out/hooks/default.generated.ts" ].
Proof.
  set (opts := Examples.options "petstore.yaml" None false).
  set (files := match Generate.planFiles (H := Mem.host ∅) opts
                        (Loader.buildModel Examples.petstore)
                        (Generate.integrationOf (H := Mem.host ∅) opts Examples.world)
                        (Generate.groupOps (ops (Loader.buildModel Examples.petstore))) with
                | Ok plannedFiles => plannedFiles
                | Thrown _ => []
                end).
  assert (Eplan : Generate.planFiles (H := Mem.host ∅) opts
                    (Loader.buildModel Examples.petstore)
                    (Generate.integrationOf (H := Mem.host ∅) opts Examples.world)
                    (Generate.groupOps (ops (Loader.buildModel Examples.petstore)))
                  = Ok files) by (vm_compute; reflexivity).
  destruct (C6_dry_run_plans_what_a_run_writes (H := Mem.host ∅) opts Examples.world)
    as (Hdry & _ & _ & Hplan).
  destruct (Hplan Examples.petstore files eq_refl Eplan)
    as (_ & _ & _ & Hwv & Hfs & Hres).
  split; [exact Hdry |]. split; [vm_compute; reflexivity |].
  change (Generate.setDryRun false opts) with opts in Hfs, Hres.
  rewrite Hfs.
  destruct (Generate.writeFiles files _) as [w1 [[]|e]] eqn:Ew.
  - cbn [fst]. rewrite (writeFiles_dom ∅ _ _ w1 Ew), Hwv. vm_compute. reflexivity.
  - exfalso. cbn [snd] in Hres. vm_compute in Hres. discriminate Hres.
Defined.

(** ** The emitted [serializeQuery] *)

Lemma fold_items (key : string) (items : list Value) (sp : Runtime.URLSearchParams) :
  fold_left (fun sp item => Runtime.append sp key (toString item)) items sp
  = sp ++ List.map (fun item => (key, toString item)) items.
Proof.
  revert sp; induction items as [|item items IH]; intros sp; simpl.
  - now rewrite app_nil_r.
  - rewrite IH. unfold Runtime.append. now rewrite <- app_assoc.
Qed.

Lemma visit_expand (sp : Runtime.URLSearchParams) (entry : string * Value) :
  Runtime.visit sp entry = sp ++ expandEntry entry.
Proof.
  destruct entry as [key value]. unfold Runtime.visit, expandEntry. cbn [fst snd].
  destruct value; try reflexivity; try (now rewrite app_nil_r).
  apply fold_items.
Qed.

Lemma fold_visit (entries : list (string * Value)) (sp : Runtime.URLSearchParams) :
  fold_left Runtime.visit entries sp = sp ++ flat_map expandEntry entries.
Proof.
  revert sp; induction entries as [|entry entries IH]; intros sp; simpl.
  - now rewrite app_nil_r.
  - rewrite IH, visit_expand. now rewrite <- app_assoc.
Qed.

Lemma join_cons_nonempty (sep x : string) (rest : list string) :
  x <> "" -> join sep (x :: rest) <> "".
Proof.
  intros Hx. destruct rest as [|y rest]; simpl; [exact Hx |].
  intros E. apply append_eq_nil in E as [E _]. exact (Hx E).
Qed.

Lemma encodePair_nonempty (nv : string * string) : Runtime.encodePair nv <> "".
Proof.
  unfold Runtime.encodePair. intros E.
  apply append_eq_nil in E as [_ E]. discriminate E.
Qed.

Lemma searchParams_nonempty (p : string * string) (sp : Runtime.URLSearchParams) :
  Runtime.searchParamsToString (p :: sp) <> "".
Proof. apply join_cons_nonempty, encodePair_nonempty. Qed.

Lemma serializeQuery_policy (entries : list (string * Value)) :
  Runtime.serializeQuery (Some entries) = serializePolicy entries.
Proof.
  unfold Runtime.serializeQuery, serializePolicy. rewrite fold_visit. cbn [app].
  destruct (flat_map expandEntry entries) as [|p ps]; [reflexivity |].
  destruct (String.eqb_spec (Runtime.searchParamsToString (p :: ps)) "") as [E | _];
    [destruct (searchParams_nonempty p ps E) | reflexivity].
Qed.

Lemma flat_map_skipped (entries : list (string * Value)) :
  (forall e, In e entries -> skipped (snd e)) -> flat_map expandEntry entries = [].
Proof.
  induction entries as [|e entries IH]; intros Hall; [reflexivity |].
  simpl. rewrite IH by (intros x Hx; apply Hall; now right).
  unfold expandEntry. destruct (Hall e (or_introl eq_refl)) as [-> | ->]; reflexivity.
Qed.

(** C2.  The emitted serializer follows the stated policy: entries whose
    value is [undefined] or [null] are skipped, an array gives one pair per
    item under its key in array order, every other value is stringified
    (and every pair is form-encoded by [URLSearchParams]); a missing input,
    an empty mapping and a mapping of skipped values give the empty string,
    never a bare [?]; any other result starts with [?]; and the sample
    mapping gives [?status=available&status=pending&limit=10]. *)
Theorem C2_serializeQuery_policy (entries : list (string * Value)) :
  Runtime.serializeQuery (Some entries) = serializePolicy entries /\
  Runtime.serializeQuery None = "" /\
  Runtime.serializeQuery (Some []) = "" /\
  ((forall e, In e entries -> skipped (snd e)) -> Runtime.serializeQuery (Some entries) = "") /\
  (forall before after key value,
      entries = before ++ (key, value) :: after -> skipped value ->
      Runtime.serializeQuery (Some entries) = Runtime.serializeQuery (Some (before ++ after))) /\
  (forall before after key items,
      entries = before ++ (key, Arr items) :: after ->
      flat_map expandEntry entries
      = flat_map expandEntry before ++ List.map (fun item => (key, toString item)) items
        ++ flat_map expandEntry after) /\
  (Runtime.serializeQuery (Some entries) = "" \/
   exists qs, qs <> "" /\ Runtime.serializeQuery (Some entries) = "?" +:+ qs) /\
  Runtime.serializeQuery
    (Some [ ("status", Arr [Str "available"; Str "pending"]); ("limit", Num 10);
            ("includeDeleted", Undefined) ])
  = "?status=available&status=pending&limit=10".
Proof.
  split; [apply serializeQuery_policy |].
  split; [reflexivity |]. split; [reflexivity |]. split; [| split; [| split; [| split]]].
  - intros Hall. rewrite serializeQuery_policy. unfold serializePolicy.
    now rewrite (flat_map_skipped entries Hall).
  - intros before after key value -> Hskip. rewrite !serializeQuery_policy.
    unfold serializePolicy. rewrite !flat_map_app. cbn [flat_map].
    replace (expandEntry (key, value)) with (@nil (string * string));
      [reflexivity |].
    unfold expandEntry. destruct Hskip as [-> | ->]; reflexivity.
  - intros before after key items ->. rewrite flat_map_app. reflexivity.
  - rewrite serializeQuery_policy. unfold serializePolicy.
    destruct (flat_map expandEntry entries) as [|p ps]; [now left |].
    right. exists (join "&" (List.map Runtime.encodePair (p :: ps))).
    split; [apply (searchParams_nonempty p ps) | reflexivity].
  - vm_compute. reflexivity.
Qed.

Lemma C2_witness :
  Runtime.serializeQuery (Some [("includeDeleted", Undefined); ("owner", Null)]) = "" /\
  Runtime.serializeQuery (Some [("limit", Num 10); ("includeDeleted", Undefined)])
  = Runtime.serializeQuery (Some [("limit", Num 10)]).
Proof.
  split.
  - destruct (C2_serializeQuery_policy [("includeDeleted", Undefined); ("owner", Null)])
      as (_ & _ & _ & Hall & _).
    apply Hall. intros e [<- | [<- | []]]; [left | right]; reflexivity.
  - destruct (C2_serializeQuery_policy [("limit", Num 10); ("includeDeleted", Undefined)])
      as (_ & _ & _ & _ & Hskip & _).
    apply (Hskip [("limit", Num 10)] [] "includeDeleted" Undefined eq_refl).
    left; reflexivity.
Defined.

(** ** Path interpolation *)

Lemma spanWord_eq (a w r : string) : Hooks.spanWord a = (w, r) -> a = w +:+ r.
Proof.
  revert w r; induction a as [|c a IH]; intros w r; simpl.
  - now intros [= <- <-].
  - destruct (isWordChar c).
    + destruct (Hooks.spanWord a) as [w' r']. intros [= <- <-].
      simpl. now rewrite (IH w' r' eq_refl).
    + now intros [= <- <-].
Qed.

Lemma spanWord_word (name : string) (c : ascii) (rest : string) :
  Runtime.allWord name = true -> isWordChar c = false ->
  Hooks.spanWord (name +:+ String c rest) = (name, String c rest).
Proof.
  intros Hname Hc. induction name as [|n name IH]; simpl.
  - now rewrite Hc.
  - simpl in Hname. apply andb_true_iff in Hname as [Hn Hname].
    rewrite Hn, (IH Hname). reflexivity.
Qed.





Lemma replaceFrom_nil (f : string -> string) (k : nat) : Hooks.replaceFrom f k "" = "".
Proof. reflexivity. Qed.









(** ** The query key

    The key factory is read back from the text of the emitted module. *)

(** *** Reading the emitted module back *)

Lemma word_oneLine (w : string) : Runtime.allWord w = true -> oneLine w = true.
Proof.
  induction w as [|c w IH]; [reflexivity |]. simpl. intros H.
  apply andb_true_iff in H as [Hc Hw]. rewrite (IH Hw), andb_true_r.
  destruct c as [[] [] [] [] [] [] [] []]; vm_compute in Hc |- *; congruence.
Qed.

Lemma read_line (st : Runtime.KeyObject * Runtime.Position) (l rest : string) :
  oneLine l = true ->
  Runtime.readLines st (Runtime.lines (l +:+ String Runtime.newline rest))
  = match Runtime.readLine st l with
    | Some st' => Runtime.readLines st' (Runtime.lines rest)
    | None => None
    end.
Proof. intros Hl. now rewrite lines_app_newline, (lines_oneLine l Hl). Qed.

Lemma identifier_word (s : string) :
  Runtime.isIdentifierName s = true -> Runtime.allWord s = true /\ s <> "".
Proof.
  destruct s as [|c r]; [discriminate |]. cbn [Runtime.isIdentifierName Runtime.allWord].
  intros H. apply andb_true_iff in H as [H Hr]. apply andb_true_iff in H as [Hc _].
  split; [now rewrite Hc, Hr | discriminate].
Qed.

Lemma removeSuffix_app (a suf : string) : Runtime.removeSuffix suf (a +:+ suf) = Some a.
Proof.
  induction a as [|c a IH]; rewrite removeSuffix_unfold.
  - simpl. now rewrite String.eqb_refl.
  - destruct (String.eqb_spec (String c a +:+ suf) suf) as [E | _].
    + apply (f_equal String.length) in E. rewrite append_length in E. simpl in E. lia.
    + cbn [String.append]. now rewrite IH.
Qed.

Lemma stripComma_comma (l : string) : Runtime.stripComma (l +:+ ",") = (l, true).
Proof.
  unfold Runtime.stripComma, endsWithChar. now rewrite lastChar_snoc, dropLast_snoc.
Qed.

Lemma stripComma_const (a : string) :
  Runtime.stripComma (a +:+ " as const") = (a +:+ " as const", false).
Proof.
  unfold Runtime.stripComma, endsWithChar.
  replace (a +:+ " as const") with ((a +:+ " as cons") +:+ "t")
    by (now rewrite append_assoc).
  now rewrite lastChar_snoc.
Qed.

Lemma openLine_name (name : string) :
  Runtime.isIdentifierName name = true ->
  Runtime.openLine ("  " +:+ name +:+ ": {") = Some name.
Proof.
  intros Hname. destruct (identifier_word name Hname) as [Hword _].
  unfold Runtime.openLine. rewrite removePrefix_app.
  change (name +:+ ": {") with (name +:+ String ":" " {").
  rewrite (spanWord_word name ":" " {" Hword eq_refl). cbv beta iota.
  now rewrite Hname.
Qed.

Lemma memberLine_key (root : string) (op : Op) :
  Runtime.isIdentifierName (camelCase (operationId op)) = true ->
  Runtime.memberLine (QueryKeys.keyLine root op)
  = Some (camelCase (operationId op),
          Runtime.Arrow (QueryKeys.keyTuple root (camelCase (operationId op)))).
Proof.
  intros Hname. destruct (identifier_word _ Hname) as [Hword _].
  unfold Runtime.memberLine, QueryKeys.keyLine. cbv zeta.
  set (name := camelCase (operationId op)) in *.
  set (tuple := QueryKeys.keyTuple root name).
  rewrite removePrefix_app.
  change (name +:+ ": (params?: any) => " +:+ tuple +:+ " as const")
    with (name +:+ String ":" (" (params?: any) => " +:+ tuple +:+ " as const")).
  rewrite (spanWord_word name ":" _ Hword eq_refl). cbv beta iota. rewrite Hname.
  change (String ":" (" (params?: any) => " +:+ tuple +:+ " as const"))
    with (": " +:+ ("(params?: any) => " +:+ tuple +:+ " as const")).
  rewrite removePrefix_app.
  replace ("(params?: any) => " +:+ tuple +:+ " as const")
    with (("(params?: any) => " +:+ tuple) +:+ " as const")
    by (now rewrite append_assoc).
  rewrite removeSuffix_app, removePrefix_app. reflexivity.
Qed.

Lemma memberLine_root (root : string) :
  Runtime.memberLine ("    root: ['" +:+ root +:+ "'] as const")
  = Some ("root", Runtime.Constant ("['" +:+ root +:+ "']")).
Proof.
  unfold Runtime.memberLine.
  change ("    root: ['" +:+ root +:+ "'] as const")
    with ("    " +:+ ("root" +:+ String ":" (" ['" +:+ root +:+ "'] as const"))).
  rewrite removePrefix_app.
  rewrite (spanWord_word "root" ":" _ eq_refl eq_refl). cbv beta iota.
  change (Runtime.isIdentifierName "root") with true. cbv iota.
  change (String ":" (" ['" +:+ root +:+ "'] as const"))
    with (": " +:+ ("['" +:+ root +:+ "'] as const")).
  rewrite removePrefix_app.
  replace ("['" +:+ root +:+ "'] as const") with (("['" +:+ root +:+ "']") +:+ " as const")
    by (cbn [String.append]; now rewrite append_assoc).
  rewrite removeSuffix_app. reflexivity.
Qed.

Lemma readLine_open (blocks : Runtime.KeyObject) (name : string) :
  Runtime.isIdentifierName name = true ->
  Runtime.readLine (blocks, Runtime.Between false) ("  " +:+ name +:+ ": {")
  = Some (blocks, Runtime.Within name [] false).
Proof.
  intros Hname. unfold Runtime.readLine. cbn [fst snd]. rewrite (openLine_name name Hname).
  reflexivity.
Qed.

Lemma stripComma_keyLine (root : string) (op : Op) :
  Runtime.stripComma (QueryKeys.keyLine root op) = (QueryKeys.keyLine root op, false).
Proof.
  unfold QueryKeys.keyLine. cbv zeta.
  set (name := camelCase (operationId op)). set (tuple := QueryKeys.keyTuple root name).
  replace ("    " +:+ name +:+ ": (params?: any) => " +:+ tuple +:+ " as const")
    with (("    " +:+ name +:+ ": (params?: any) => " +:+ tuple) +:+ " as const")
    by (now rewrite !append_assoc).
  apply stripComma_const.
Qed.

Lemma readLine_entry (blocks : Runtime.KeyObject) (name : string)
    (ms : list (string * Runtime.Member)) (root : string) (op : Op) :
  Runtime.isIdentifierName (camelCase (operationId op)) = true ->
  Runtime.readLine (blocks, Runtime.Within name ms false) (QueryKeys.keyLine root op +:+ ",")
  = Some (blocks,
          Runtime.Within name
            (ms ++ [(camelCase (operationId op),
                     Runtime.Arrow (QueryKeys.keyTuple root (camelCase (operationId op))))])
            false).
Proof.
  intros Hop. unfold Runtime.readLine. rewrite stripComma_comma. cbn [fst snd].
  rewrite (memberLine_key root op Hop). reflexivity.
Qed.

Lemma readLine_last (blocks : Runtime.KeyObject) (name : string)
    (ms : list (string * Runtime.Member)) (root : string) (op : Op) :
  Runtime.isIdentifierName (camelCase (operationId op)) = true ->
  Runtime.readLine (blocks, Runtime.Within name ms false) (QueryKeys.keyLine root op)
  = Some (blocks,
          Runtime.Within name
            (ms ++ [(camelCase (operationId op),
                     Runtime.Arrow (QueryKeys.keyTuple root (camelCase (operationId op))))])
            true).
Proof.
  intros Hop. unfold Runtime.readLine. rewrite stripComma_keyLine. cbn [fst snd].
  rewrite (memberLine_key root op Hop). reflexivity.
Qed.

Lemma readLine_close (blocks : Runtime.KeyObject) (name : string)
    (ms : list (string * Runtime.Member)) (closed comma : bool) :
  Runtime.readLine (blocks, Runtime.Within name ms closed)
    ("  }" +:+ (if comma then "," else ""))
  = Some (blocks ++ [(name, ms)], Runtime.Between (negb comma)).
Proof. destruct comma; reflexivity. Qed.

Lemma keyLine_oneLine (root : string) (op : Op) :
  Runtime.allWord root = true -> Runtime.allWord (camelCase (operationId op)) = true ->
  oneLine (QueryKeys.keyLine root op) = true.
Proof.
  intros Hr Hk. unfold QueryKeys.keyLine, QueryKeys.keyTuple. cbv zeta.
  rewrite !oneLine_app, !(word_oneLine _ Hr), !(word_oneLine _ Hk). reflexivity.
Qed.

Lemma join_two (x y : string) (l : list string) (rest : string) :
  join ",
" (x :: y :: l) +:+ rest
  = (x +:+ ",") +:+ String Runtime.newline (join ",
" (y :: l) +:+ rest).
Proof. cbn [join]. now rewrite !append_assoc. Qed.

Lemma read_members (blocks : Runtime.KeyObject) (root : string) (ops : list Op) :
  Runtime.allWord root = true ->
  (forall op, In op ops -> Runtime.isIdentifierName (camelCase (operationId op)) = true) ->
  forall (ms : list (string * Runtime.Member)) (rest : string),
  exists closed,
    Runtime.readLines (blocks, Runtime.Within root ms false)
      (Runtime.lines (join ",
" (List.map (QueryKeys.keyLine root) ops) +:+ String Runtime.newline rest))
    = Runtime.readLines (blocks, Runtime.Within root (ms ++ List.tl (keyMembers root ops)) closed)
        (Runtime.lines rest).
Proof.
  intros Hroot. induction ops as [|op ops IH]; intros Hnames ms rest.
  - exists false. cbn [List.map join keyMembers List.tl]. rewrite app_nil_r.
    rewrite (read_line _ "" rest eq_refl). reflexivity.
  - assert (Hop : Runtime.isIdentifierName (camelCase (operationId op)) = true)
      by (apply Hnames; now left).
    destruct (identifier_word _ Hop) as [Hword _].
    pose proof (keyLine_oneLine root op Hroot Hword) as Hline.
    pose proof (memberLine_key root op Hop) as Hm.
    destruct ops as [|op' ops'].
    + exists true. cbn [List.map join keyMembers List.tl].
      rewrite (read_line _ _ rest Hline).
      rewrite (readLine_last blocks root ms root op Hop). reflexivity.
    + destruct (IH (fun o Ho => Hnames o (or_intror Ho))
                   (ms ++ [(camelCase (operationId op),
                            Runtime.Arrow (QueryKeys.keyTuple root (camelCase (operationId op))))])
                   rest) as [closed E].
      exists closed. cbn [List.map]. rewrite join_two.
      rewrite read_line by (rewrite oneLine_app, Hline; reflexivity).
      rewrite (readLine_entry blocks root ms root op Hop).
      cbn [List.map] in E. rewrite E. cbn [keyMembers List.tl List.map].
      now rewrite <- app_assoc.
Qed.

Lemma readLine_root (blocks : Runtime.KeyObject) (root : string) :
  Runtime.readLine (blocks, Runtime.Within root [] false)
    (("    root: ['" +:+ root +:+ "'] as const") +:+ ",")
  = Some (blocks,
          Runtime.Within root [("root", Runtime.Constant ("['" +:+ root +:+ "']"))] false).
Proof.
  unfold Runtime.readLine. rewrite stripComma_comma. cbn [fst snd].
  rewrite memberLine_root. reflexivity.
Qed.

Lemma read_block (blocks : Runtime.KeyObject) (tag : string) (ops : list Op)
    (comma : bool) (rest : string) :
  Runtime.isIdentifierName (camelCase tag) = true ->
  (forall op, In op ops -> Runtime.isIdentifierName (camelCase (operationId op)) = true) ->
  Runtime.readLines (blocks, Runtime.Between false)
    (Runtime.lines (QueryKeys.tagBlock (tag, ops) +:+ (if comma then "," else "")
                    +:+ String Runtime.newline rest))
  = Runtime.readLines
      (blocks ++ [(camelCase tag, keyMembers (camelCase tag) ops)],
       Runtime.Between (negb comma))
      (Runtime.lines rest).
Proof.
  intros Htag Hops. destruct (identifier_word _ Htag) as [Hword _].
  unfold QueryKeys.tagBlock. cbv zeta. set (root := camelCase tag) in *.
  set (body := join ",
" (List.map (QueryKeys.keyLine root) ops)).
  replace (("  " +:+ root +:+ ": {
    root: ['" +:+ root +:+ "'] as const,
" +:+ body +:+ "
  }") +:+ (if comma then "," else "") +:+ String Runtime.newline rest)
    with (("  " +:+ root +:+ ": {")
          +:+ String Runtime.newline
                ((("    root: ['" +:+ root +:+ "'] as const") +:+ ",")
                 +:+ String Runtime.newline
                       (body +:+ String Runtime.newline
                          (("  }" +:+ (if comma then "," else ""))
                           +:+ String Runtime.newline rest))))
    by (repeat (cbn [String.append] || rewrite append_assoc); reflexivity).
  rewrite read_line by (rewrite !oneLine_app, (word_oneLine _ Hword); reflexivity).
  rewrite (readLine_open blocks root Htag).
  rewrite read_line by (rewrite !oneLine_app, (word_oneLine _ Hword); reflexivity).
  rewrite readLine_root. unfold body.
  destruct (read_members blocks root ops Hword Hops
              [("root", Runtime.Constant ("['" +:+ root +:+ "']"))]
              (("  }" +:+ (if comma then "," else "")) +:+ String Runtime.newline rest))
    as [closed ->].
  rewrite read_line by (destruct comma; reflexivity).
  rewrite readLine_close. reflexivity.
Qed.

Lemma read_blocks (byTag : ByTag) :
  wellNamed byTag ->
  forall blocks,
    Runtime.readLines (blocks, Runtime.Between false)
      (Runtime.lines (join ",
" (List.map QueryKeys.tagBlock byTag) +:+ "
} as const;
"))
    = Some (blocks ++ keyObject byTag, Runtime.Finished).
Proof.
  induction byTag as [|[tag ops] byTag IH]; intros Hnames blocks.
  - cbn [List.map join keyObject]. rewrite app_nil_r. reflexivity.
  - destruct (Hnames tag ops (or_introl eq_refl)) as [Htag Hops].
    destruct byTag as [|entry byTag'].
    + cbn [List.map join keyObject fst snd].
      change (QueryKeys.tagBlock (tag, ops) +:+ "
} as const;
") with (QueryKeys.tagBlock (tag, ops) +:+ (if false then "," else "")
         +:+ String Runtime.newline "} as const;
").
      rewrite (read_block blocks tag ops false _ Htag Hops). reflexivity.
    + cbn [List.map]. rewrite join_two.
      replace ((QueryKeys.tagBlock (tag, ops) +:+ ",")
               +:+ String Runtime.newline
                     (join ",
" (QueryKeys.tagBlock entry :: List.map QueryKeys.tagBlock byTag') +:+ "
} as const;
"))
        with (QueryKeys.tagBlock (tag, ops) +:+ (if true then "," else "")
              +:+ String Runtime.newline
                    (join ",
" (QueryKeys.tagBlock entry :: List.map QueryKeys.tagBlock byTag') +:+ "
} as const;
"))
        by (now rewrite append_assoc).
      rewrite (read_block blocks tag ops true _ Htag Hops).
      cbn [List.map] in IH. rewrite IH.
      * cbn [keyObject List.map fst snd negb]. now rewrite <- app_assoc.
      * intros t os Hin. apply Hnames. now right.
Qed.

Lemma read_heading (body : string) :
  Runtime.readLines ([], Runtime.Heading)
    (Runtime.lines ("
// GENERATED FILE
export const queryKeys = {
" +:+ body))
  = Runtime.readLines ([], Runtime.Between false) (Runtime.lines body).
Proof.
  change ("
// GENERATED FILE
export const queryKeys = {
" +:+ body)
    with ("" +:+ String Runtime.newline
            ("// GENERATED FILE" +:+ String Runtime.newline
               ("export const queryKeys = {" +:+ String Runtime.newline body))).
  rewrite (read_line _ "" _ eq_refl).
  change (Runtime.readLine ([], Runtime.Heading) "") with (Some (@nil (string * list (string * Runtime.Member)), Runtime.Heading)).
  cbv iota. rewrite (read_line _ "// GENERATED FILE" _ eq_refl).
  change (Runtime.readLine ([], Runtime.Heading) "// GENERATED FILE")
    with (Some (@nil (string * list (string * Runtime.Member)), Runtime.Heading)).
  cbv iota. rewrite (read_line _ "export const queryKeys = {" _ eq_refl).
  reflexivity.
Qed.

Lemma load_rendered (byTag : ByTag) :
  wellNamed byTag ->
  Runtime.loadQueryKeys (QueryKeys.renderQueryKeys byTag) = Some (keyObject byTag).
Proof.
  intros Hnames. unfold Runtime.loadQueryKeys, QueryKeys.renderQueryKeys.
  rewrite read_heading. pose proof (read_blocks byTag Hnames []) as E. cbn [app] in E.
  match goal with
  | |- match ?x with _ => _ end = _ =>
      replace x with (Some (keyObject byTag, Runtime.Finished)) by (symmetry; exact E)
  end.
  reflexivity.
Qed.

Lemma getProperty_In {A : Type} (k : string) (entries : list (string * A)) (v : A) :
  Runtime.getProperty k entries = Some v -> In (k, v) entries.
Proof.
  induction entries as [|[k' v'] rest IH]; [discriminate |]. cbn [Runtime.getProperty].
  destruct (Runtime.getProperty k rest) as [w|].
  - intros [= <-]. right. now apply IH.
  - destruct (String.eqb_spec k' k) as [-> | _]; [| discriminate].
    intros [= <-]. now left.
Qed.

Lemma getProperty_None {A : Type} (k : string) (entries : list (string * A)) (v : A) :
  Runtime.getProperty k entries = None -> ~ In (k, v) entries.
Proof.
  induction entries as [|[k' v'] rest IH]; [intros _ []|]. cbn [Runtime.getProperty].
  destruct (Runtime.getProperty k rest) as [w|]; [discriminate |].
  destruct (String.eqb_spec k' k) as [-> | Hne]; [discriminate |].
  intros _ [[= -> _] | Hin]; [now elim Hne | now apply IH].
Qed.

Lemma getProperty_only {A : Type} (k : string) (entries : list (string * A)) (v : A) :
  In (k, v) entries -> (forall v', In (k, v') entries -> v' = v) ->
  Runtime.getProperty k entries = Some v.
Proof.
  intros Hin Hall. destruct (Runtime.getProperty k entries) as [w|] eqn:E.
  - now rewrite (Hall w (getProperty_In k entries w E)).
  - elim (getProperty_None k entries v E Hin).
Qed.

Lemma keyObject_block (byTag : ByTag) (tag : string) (ops : list Op) :
  In (tag, ops) byTag -> ownRoot byTag tag ops ->
  Runtime.getProperty (camelCase tag) (keyObject byTag)
  = Some (keyMembers (camelCase tag) ops).
Proof.
  intros Hentry Hown. apply getProperty_only.
  - unfold keyObject.
    exact (in_map (fun entry => (camelCase (fst entry),
                                 keyMembers (camelCase (fst entry)) (snd entry)))
                  byTag (tag, ops) Hentry).
  - intros v' Hin. unfold keyObject in Hin. apply in_map_iff in Hin as ([tag' ops'] & E & Hin).
    cbn [fst snd] in E. injection E as Eroot <-.
    assert (Hsame : (tag', ops') = (tag, ops)) by (apply Hown; assumption).
    injection Hsame as -> ->. reflexivity.
Qed.

Lemma keyMembers_entry (root : string) (ops : list Op) (op : Op) :
  In op ops ->
  Runtime.getProperty (camelCase (operationId op)) (keyMembers root ops)
  = Some (Runtime.Arrow (QueryKeys.keyTuple root (camelCase (operationId op)))).
Proof.
  intros Hop. unfold keyMembers. cbn [Runtime.getProperty].
  rewrite (getProperty_only (camelCase (operationId op)) _
             (Runtime.Arrow (QueryKeys.keyTuple root (camelCase (operationId op))))).
  - reflexivity.
  - exact (in_map (fun o => (camelCase (operationId o),
                             Runtime.Arrow (QueryKeys.keyTuple root (camelCase (operationId o)))))
                  ops op Hop).
  - intros v' Hin. apply in_map_iff in Hin as (o & E & _).
    injection E as Ename <-. now rewrite Ename.
Qed.

Lemma callKey_rendered (byTag : ByTag) (tag : string) (ops : list Op) (op : Op)
    (arg : Value) :
  In (tag, ops) byTag -> In op ops -> wellNamed byTag -> ownRoot byTag tag ops ->
  Runtime.callKey (QueryKeys.renderQueryKeys byTag)
    (camelCase tag) (camelCase (operationId op)) arg
  = Some (Arr [Str (camelCase tag); Str (camelCase (operationId op)); nullish arg (Obj [])]).
Proof.
  intros Hentry Hop Hnames Hown. unfold Runtime.callKey.
  rewrite (load_rendered byTag Hnames), (keyObject_block byTag tag ops Hentry Hown).
  rewrite (keyMembers_entry (camelCase tag) ops op Hop).
  apply keyTuple_value; apply camelCase_word.
Qed.

Lemma evalKeyCall_reference (text : string) (env : string -> Value)
    (root name chain : string) (arg : Value) :
  Runtime.allWord root = true -> Runtime.allWord name = true ->
  Runtime.evalChain env chain = Some arg ->
  Runtime.evalKeyCall text env
    (("queryKeys." +:+ root +:+ "." +:+ name) +:+ "(" +:+ chain +:+ ")")
  = Runtime.callKey text root name arg.
Proof.
  intros Hroot Hname Hchain. unfold Runtime.evalKeyCall.
  replace (("queryKeys." +:+ root +:+ "." +:+ name) +:+ "(" +:+ chain +:+ ")")
    with ("queryKeys." +:+ (root +:+ String "." (name +:+ String "(" (chain +:+ ")"))))
    by (repeat (cbn [String.append] || rewrite append_assoc); reflexivity).
  rewrite removePrefix_app.
  rewrite (spanWord_word root "." _ Hroot eq_refl). cbv beta iota.
  change (String "." (name +:+ String "(" (chain +:+ ")")))
    with ("." +:+ (name +:+ String "(" (chain +:+ ")"))).
  rewrite removePrefix_app.
  rewrite (spanWord_word name "(" _ Hname eq_refl). cbv beta iota.
  change (String "(" (chain +:+ ")")) with ("(" +:+ (chain +:+ ")")).
  rewrite removePrefix_app, removeSuffix_app, Hchain. reflexivity.
Qed.

(** C1, as stated, fails: the first two components of the key are the
    camel-cased tag and operation id, not the tag and id themselves.  For
    the tag [Pets] and the id [get_pet] the module exports
    [queryKeys.pets.getPet], which returns [['pets','getPet', {}]], and
    nothing under [Pets] or [get_pet].  Nor does every operation have a
    key: of two tags with one camel-cased name the later object replaces
    the earlier, and a tag whose camel-cased name starts with a digit gives
    a module that does not load. *)
Lemma C1_counterexample :
  Runtime.callKey (QueryKeys.renderQueryKeys [("Pets", [Examples.getPetCapital])])
    "pets" "getPet" Undefined
  = Some (Arr [Str "pets"; Str "getPet"; Obj []]) /\
  Arr [Str "pets"; Str "getPet"; Obj []]
  <> Arr [Str (tag Examples.getPetCapital); Str (operationId Examples.getPetCapital);
          nullish Undefined (Obj [])] /\
  Runtime.callKey (QueryKeys.renderQueryKeys [("Pets", [Examples.getPetCapital])])
    (tag Examples.getPetCapital) (operationId Examples.getPetCapital) Undefined
  = None /\
  QueryKeys.keyLine (camelCase (tag Examples.getPetCapital)) Examples.getPetCapital
  = "    getPet: (params?: any) => ['pets','getPet', params ?? {}] as const" /\
  Runtime.callKey
    (QueryKeys.renderQueryKeys [("Pets", [Examples.getPetCapital]);
                                ("pets", [Examples.createPet])])
    "pets" "getPet" Undefined
  = None /\
  Runtime.loadQueryKeys (QueryKeys.renderQueryKeys [("2fa", [Examples.getPetById])]) = None.
Proof.
  split; [vm_compute; reflexivity |]. split; [vm_compute; discriminate |].
  repeat split; vm_compute; reflexivity.
Qed.

(** C1, amended.  Let every tag and operation id of the grouping camel-case
    to a property name, and let no other tag camel-case to the name of this
    one.  Then the emitted module loads, and its member
    [queryKeys.<camelCase(tag)>.<camelCase(operationId)>], called with
    [params], returns the 3-tuple
    [[camelCase(tag), camelCase(operationId), params ?? {}]].  The query
    hook of the operation, and with it the hooks file, takes the value of
    that member at [params?.query] as its cache key; the invalidation entry
    of a [get] or [head] operation targets its value at [params].  For
    [getPetById] under [pets], called with a path parameter only, the key
    is [["pets","getPetById",{}]]. *)
Theorem C1_query_key_shape (byTag : ByTag) (tag : string) (ops : list Op) (op : Op) :
  In (tag, ops) byTag -> In op ops -> wellNamed byTag -> ownRoot byTag tag ops ->
  let root := camelCase tag in
  let keyName := camelCase (operationId op) in
  Runtime.loadQueryKeys (QueryKeys.renderQueryKeys byTag) = Some (keyObject byTag) /\
  (forall params,
      Runtime.callKey (QueryKeys.renderQueryKeys byTag) root keyName params
      = Some (Arr [Str root; Str keyName; nullish params (Obj [])])) /\
  (forall text, Hooks.renderQueryHook tag op = Ok text ->
      includes text ("queryKey: " +:+ keyReference tag op +:+ "(params?.query)") = true /\
      forall params,
        Runtime.evalKeyCall (QueryKeys.renderQueryKeys byTag) (scope "params" params)
          (keyReference tag op +:+ "(params?.query)")
        = Some (Arr [Str root; Str keyName; nullish (optGet params "query") (Obj [])])) /\
  (forall importBase file,
      Hooks.renderHooksTemplate byTag importBase = Ok file ->
      method op = get \/ method op = head ->
      includes file ("queryKey: " +:+ keyReference tag op +:+ "(params?.query)") = true) /\
  (method op = get \/ method op = head ->
      includes (Invalidate.renderInvalidate byTag)
        ("queryKey: " +:+ keyReference tag op +:+ "(params)") = true /\
      forall params,
        Runtime.evalKeyCall (QueryKeys.renderQueryKeys byTag) (scope "params" params)
          (keyReference tag op +:+ "(params)")
        = Some (Arr [Str root; Str keyName; nullish params (Obj [])])) /\
  Runtime.evalKeyCall
    (QueryKeys.renderQueryKeys (Generate.groupOps [Examples.getPetById; Examples.createPet]))
    (scope "params" (Obj [("path", Obj [("petId", Str "123")])]))
    "queryKeys.pets.getPetById(params?.query)"
  = Some (Arr [Str "pets"; Str "getPetById"; Obj []]).
Proof.
  intros Hentry Hop Hnames Hown root keyName.
  assert (Hcall : forall arg,
             Runtime.callKey (QueryKeys.renderQueryKeys byTag) root keyName arg
             = Some (Arr [Str root; Str keyName; nullish arg (Obj [])]))
    by (intros arg; exact (callKey_rendered byTag tag ops op arg Hentry Hop Hnames Hown)).
  assert (Heval : forall params chain arg,
             Runtime.evalChain (scope "params" params) chain = Some arg ->
             Runtime.evalKeyCall (QueryKeys.renderQueryKeys byTag) (scope "params" params)
               (keyReference tag op +:+ "(" +:+ chain +:+ ")")
             = Some (Arr [Str root; Str keyName; nullish arg (Obj [])])).
  { intros params chain arg Hchain. unfold keyReference.
    rewrite (evalKeyCall_reference _ _ root keyName chain arg
               (camelCase_word tag) (camelCase_word (operationId op)) Hchain).
    apply Hcall. }
  split; [exact (load_rendered byTag Hnames) |].
  split; [exact Hcall |].
  split.
  { intros text Etext. split; [exact (queryHook_uses_key tag op text Etext) |].
    intros params. exact (Heval params "params?.query" (optGet params "query") eq_refl). }
  split.
  { intros importBase file Efile Hread.
    destruct (hook_in_file _ _ _ tag ops op Efile Hentry Hop) as (text & Et & Hin).
    rewrite (renderHook_read tag op Hread) in Et.
    exact (includes_trans _ _ _ Hin (queryHook_uses_key tag op text Et)). }
  split; [| vm_compute; reflexivity].
  intros Hread. split.
  - apply isRead_iff in Hread.
    exact (includes_trans _ _ _ (entryLine_in_invalidate byTag tag ops op Hentry Hop Hread)
                                (entryLine_uses_key tag op)).
  - intros params. exact (Heval params "params" params eq_refl).
Qed.

Lemma C1_witness :
  Runtime.callKey
    (QueryKeys.renderQueryKeys [("pets", [Examples.getPetById; Examples.createPet])])
    "pets" "getPetById" (Obj [("status", Str "sold")])
  = Some (Arr [Str "pets"; Str "getPetById"; Obj [("status", Str "sold")]]).
Proof.
  destruct (C1_query_key_shape [("pets", [Examples.getPetById; Examples.createPet])]
              "pets" [Examples.getPetById; Examples.createPet] Examples.getPetById
              (or_introl eq_refl) (or_introl eq_refl)) as (_ & Hcall & _).
  - intros t os [[= <- <-] | []]. split; [reflexivity |].
    intros o [<- | [<- | []]]; reflexivity.
  - intros t os [[= <- <-] | []] _. reflexivity.
  - exact (Hcall (Obj [("status", Str "sold")])).
Defined.


(** ** Tags and grouping *)

Section Grouping.
Import Generate.

Lemma mapGet_Some (byTag : ByTag) (k : string) (v : list Op) :
  mapGet byTag k = Some v -> In (k, v) byTag.
Proof.
  induction byTag as [|[k' v'] rest IH]; simpl; [discriminate |].
  destruct (String.eqb_spec k k') as [<- | _].
  - intros [= <-]. now left.
  - intros E. right. exact (IH E).
Qed.

Lemma mapGet_None (byTag : ByTag) (k : string) :
  mapGet byTag k = None -> ~ In k (List.map fst byTag).
Proof.
  induction byTag as [|[k' v'] rest IH]; simpl; [tauto |].
  destruct (String.eqb_spec k k') as [<- | Hne]; [discriminate |].
  intros E [Hk | Hk]; [now elim Hne | exact (IH E Hk)].
Qed.

Lemma mapSet_In (byTag : ByTag) (k : string) (v : list Op) (t : string) (l : list Op) :
  List.NoDup (List.map fst byTag) -> In (t, l) (mapSet byTag k v) ->
  (t = k /\ l = v) \/ (t <> k /\ In (t, l) byTag).
Proof.
  induction byTag as [|[k' v'] rest IH]; simpl; intros Hnd.
  - intros [[= <- <-] | []]. now left.
  - inversion Hnd as [|? ? Hnotin Hnd']; subst.
    destruct (String.eqb_spec k k') as [<- | Hne]; simpl.
    + intros [[= <- <-] | Hin]; [now left |].
      right. split; [| now right]. intros ->. apply Hnotin.
      exact (in_map fst _ _ Hin).
    + intros [[= <- <-] | Hin].
      * right. split; [congruence | now left].
      * destruct (IH Hnd' Hin) as [Hl | [Ht Hr]];
          [now left | right; split; [exact Ht | now right]].
Qed.

Lemma mapSet_keys (byTag : ByTag) (k : string) (v : list Op) (x : string) :
  In x (List.map fst (mapSet byTag k v)) <-> x = k \/ In x (List.map fst byTag).
Proof.
  induction byTag as [|[k' v'] rest IH]; simpl.
  - split; [intros [<- | []]; now left | intros [-> | []]; now left].
  - destruct (String.eqb_spec k k') as [<- | Hne]; simpl.
    + split; [intros [<- | Hin]; auto | intros [-> | [<- | Hin]]; auto].
    + rewrite IH. split; [intros [<- | [-> | Hin]]; auto | intros [-> | [<- | Hin]]; auto].
Qed.

Lemma mapSet_NoDup (byTag : ByTag) (k : string) (v : list Op) :
  List.NoDup (List.map fst byTag) -> List.NoDup (List.map fst (mapSet byTag k v)).
Proof.
  induction byTag as [|[k' v'] rest IH]; simpl; intros Hnd.
  - constructor; [intros [] | constructor].
  - inversion Hnd as [|? ? Hnotin Hnd']; subst.
    destruct (String.eqb_spec k k') as [<- | Hne]; simpl.
    + constructor; assumption.
    + constructor; [| exact (IH Hnd')].
      intros Hin. apply mapSet_keys in Hin as [-> | Hin]; [now elim Hne | exact (Hnotin Hin)].
Qed.

Lemma mapSet_In_new (byTag : ByTag) (k : string) (v : list Op) : In (k, v) (mapSet byTag k v).
Proof.
  induction byTag as [|[k' v'] rest IH]; simpl; [now left |].
  destruct (String.eqb_spec k k') as [<- | Hne]; [now left | now right].
Qed.

Lemma mapSet_In_old (byTag : ByTag) (k : string) (v : list Op) (t : string) (l : list Op) :
  t <> k -> In (t, l) byTag -> In (t, l) (mapSet byTag k v).
Proof.
  intros Ht. induction byTag as [|[k' v'] rest IH]; simpl; [tauto |].
  destruct (String.eqb_spec k k') as [<- | Hne].
  - intros [[= <- <-] | Hin]; [now elim Ht | now right].
  - intros [E | Hin]; [now left | right; exact (IH Hin)].
Qed.

Lemma withTag_app (t : string) (a b : list Op) :
  withTag t (a ++ b) = withTag t a ++ withTag t b.
Proof. unfold withTag. apply List.filter_app. Qed.

Lemma withTag_none (t : string) (seen : list Op) :
  (forall op, In op seen -> tag op <> t) -> withTag t seen = [].
Proof.
  induction seen as [|op seen IH]; intros Hall; [reflexivity |].
  unfold withTag in *. simpl.
  destruct (String.eqb_spec (tag op) t) as [E | _];
    [destruct (Hall op (or_introl eq_refl) E) |].
  apply IH. intros o Ho. apply Hall. now right.
Qed.

Lemma grouped_step (seen : list Op) (byTag : ByTag) (op : Op) :
  grouped seen byTag -> grouped (seen ++ [op]) (groupStep byTag op).
Proof.
  intros (Hnd & Hgroups & Hkeys). unfold groupStep.
  assert (Hlist : orEmpty (mapGet byTag (tag op)) = withTag (tag op) seen).
  { destruct (mapGet byTag (tag op)) as [l0|] eqn:E; simpl.
    - apply mapGet_Some in E. exact (proj1 (Hgroups _ _ E)).
    - apply mapGet_None in E. symmetry. apply withTag_none.
      intros o Ho Et. apply E. rewrite <- Et. exact (Hkeys o Ho). }
  rewrite Hlist. split; [exact (mapSet_NoDup _ _ _ Hnd) | split].
  - intros t l Hin. apply (mapSet_In _ _ _ _ _ Hnd) in Hin as [[-> ->] | [Ht Hin]].
    + split; [| now destruct (withTag (tag op) seen)].
      rewrite withTag_app. f_equal. unfold withTag. simpl.
      now rewrite String.eqb_refl.
    + destruct (Hgroups t l Hin) as [-> Hne]. split; [| exact Hne].
      rewrite withTag_app. unfold withTag at 3. simpl.
      destruct (String.eqb_spec (tag op) t) as [E | _]; [now elim Ht |].
      now rewrite app_nil_r.
  - intros o Ho. apply mapSet_keys. apply in_app_or in Ho as [Ho | [<- | []]].
    + right. exact (Hkeys o Ho).
    + now left.
Qed.

Lemma grouped_fold (ops seen : list Op) (byTag : ByTag) :
  grouped seen byTag -> grouped (seen ++ ops) (fold_left groupStep ops byTag).
Proof.
  revert seen byTag; induction ops as [|op ops IH]; intros seen byTag Hg; simpl.
  - now rewrite app_nil_r.
  - replace (seen ++ op :: ops) with ((seen ++ [op]) ++ ops) by now rewrite <- app_assoc.
    apply IH, grouped_step, Hg.
Qed.

Lemma groupOps_grouped (ops : list Op) : grouped ops (groupOps ops).
Proof.
  apply (grouped_fold ops [] []). split; [constructor | split]; [intros t l [] | intros op []].
Qed.

(** C10.  The grouping tag of an operation is the first of its declared
    tags, whatever follows it, and [default] when none is declared; the
    grouping puts every operation into the group of its tag and into no
    other: keys are distinct and the group of a tag is made of the
    operations with that tag, in source order. *)
Theorem C10_first_tag_only :
  (forall opObj t others, Loader.oo_tags opObj = Some (t :: others) -> Loader.tagOf opObj = t) /\
  (forall opObj, Loader.oo_tags opObj = None \/ Loader.oo_tags opObj = Some [] ->
                 Loader.tagOf opObj = "default") /\
  (forall p item m opObj, tag (Loader.buildOp p item m opObj) = Loader.tagOf opObj) /\
  (forall ops,
      List.NoDup (List.map fst (groupOps ops)) /\
      (forall t l, In (t, l) (groupOps ops) -> l = withTag t ops /\ l <> []) /\
      (forall op, In op ops -> exists l, In (tag op, l) (groupOps ops) /\ In op l) /\
      (forall op t l, In (t, l) (groupOps ops) -> In op l -> t = tag op) /\
      (forall op t1 l1 t2 l2,
          In (t1, l1) (groupOps ops) -> In (t2, l2) (groupOps ops) ->
          In op l1 -> In op l2 -> (t1, l1) = (t2, l2))) /\
  List.map tag (ops (Loader.buildModel Examples.petstore)) = ["pets"; "default"] /\
  List.map (fun e => (fst e, List.map operationId (snd e)))
           (groupOps (ops (Loader.buildModel Examples.petstore)))
  = [("pets", ["getPetById"]); ("default", ["createPet"])].
Proof.
  split; [intros opObj t others E; unfold Loader.tagOf; now rewrite E |].
  split; [intros opObj [E | E]; unfold Loader.tagOf; now rewrite E |].
  split; [reflexivity |].
  split; [| split; reflexivity].
  intros ops. destruct (groupOps_grouped ops) as (Hnd & Hgroups & Hkeys).
  assert (Hin_tag : forall op t l, In (t, l) (groupOps ops) -> In op l -> t = tag op).
  { intros op t l Hin Hop. destruct (Hgroups t l Hin) as [-> _].
    apply filter_In in Hop as [_ E]. symmetry. now apply String.eqb_eq. }
  split; [exact Hnd |]. split; [exact Hgroups |]. split; [| split; [exact Hin_tag |]].
  - intros op Hop. pose proof (Hkeys op Hop) as Hk.
    apply in_map_iff in Hk as ([t l] & Et & Hin). simpl in Et. subst t.
    exists l. split; [exact Hin |].
    destruct (Hgroups _ _ Hin) as [-> _]. apply filter_In.
    split; [exact Hop | apply String.eqb_refl].
  - intros op t1 l1 t2 l2 H1 H2 Ho1 Ho2.
    rewrite (Hin_tag op t1 l1 H1 Ho1), (Hin_tag op t2 l2 H2 Ho2).
    destruct (Hgroups t1 l1 H1) as [-> _]. destruct (Hgroups t2 l2 H2) as [-> _].
    now rewrite (Hin_tag op t1 _ H1 Ho1), (Hin_tag op t2 _ H2 Ho2).
Qed.

End Grouping.

Lemma C10_witness :
  Loader.tagOf (Examples.operation (Some ["pets"; "store"]) (Some "getPetById") []) = "pets" /\
  Loader.tagOf (Examples.operation None (Some "createPet") []) = "default".
Proof.
  destruct C10_first_tag_only as (Hfirst & Hdefault & _).
  split.
  - exact (Hfirst (Examples.operation (Some ["pets"; "store"]) (Some "getPetById") [])
                   "pets" ["store"] eq_refl).
  - apply Hdefault. left; reflexivity.
Defined.

(** * Further properties of the code *)

(** ** The loader *)

Lemma stripBraces_noBraces (s : string) : noBraces (stripBraces s) = true.
Proof.
  induction s as [|c s IH]; simpl; [reflexivity |].
  destruct (Ascii.eqb c "{" || Ascii.eqb c "}") eqn:E; [exact IH |].
  simpl. now rewrite E, IH.
Qed.

Lemma stripBraces_fixed (s : string) : noBraces s = true -> stripBraces s = s.
Proof.
  induction s as [|c s IH]; simpl; [reflexivity |].
  intros H. apply andb_true_iff in H as [Hc Hs]. apply negb_true_iff in Hc.
  now rewrite Hc, (IH Hs).
Qed.

(** X1.  Brace stripping, the sanitization of operation ids, is idempotent:
    its result holds no brace, a brace-free id is left as it is, and so the
    id of every loaded operation is a fixed point of the sanitization. *)
Theorem X1_sanitization_idempotent (s : string) :
  noBraces (stripBraces s) = true /\
  stripBraces (stripBraces s) = stripBraces s /\
  (noBraces s = true -> stripBraces s = s) /\
  (forall p item m opObj,
      stripBraces (operationId (Loader.buildOp p item m opObj))
      = operationId (Loader.buildOp p item m opObj)).
Proof.
  split; [apply stripBraces_noBraces |].
  split; [apply stripBraces_fixed, stripBraces_noBraces |].
  split; [apply stripBraces_fixed |].
  intros p item m opObj. apply stripBraces_fixed. cbn [operationId Loader.buildOp].
  unfold Loader.operationIdOf. apply stripBraces_noBraces.
Qed.

Lemma map_flat_map {A B C : Type} (f : B -> C) (g : A -> list B) (l : list A) :
  List.map f (flat_map g l) = flat_map (fun a => List.map f (g a)) l.
Proof.
  induction l as [|a l IH]; simpl; [reflexivity |].
  now rewrite List.map_app, IH.
Qed.

Lemma itemOps_declared (p : string) (item : Loader.PathItem) :
  Loader.itemOps p item
  = List.map (fun mo => Loader.buildOp p item (fst mo) (snd mo)) (declaredOperations item).
Proof.
  unfold Loader.itemOps, declaredOperations, declaredUnder, Loader.methods.
  cbn [flat_map Loader.operationAt].
  destruct (Loader.pi_get item), (Loader.pi_post item), (Loader.pi_put item),
    (Loader.pi_patch item), (Loader.pi_delete item), (Loader.pi_head item); reflexivity.
Qed.

Lemma extractOps_declared (paths : list (string * option Loader.PathItem)) :
  Loader.extractOps paths
  = flat_map (fun entry =>
                match snd entry with
                | Some item =>
                    List.map (fun mo => Loader.buildOp (fst entry) item (fst mo) (snd mo))
                             (declaredOperations item)
                | None => []
                end) paths.
Proof.
  unfold Loader.extractOps.
  induction paths as [|[p [item|]] paths IH]; simpl; [reflexivity | |].
  - now rewrite itemOps_declared, IH.
  - exact IH.
Qed.

(** X3.  The loader yields exactly one operation for every pair of a path
    and a method declared under it, built from that path item and that
    operation object: paths in document order, and under a path the methods
    in the order get, post, put, patch, delete, head.  Entries without a
    path item give nothing. *)
Theorem X3_one_operation_per_endpoint (paths : list (string * option Loader.PathItem)) :
  Loader.extractOps paths
  = flat_map (fun entry =>
                match snd entry with
                | Some item =>
                    List.map (fun mo => Loader.buildOp (fst entry) item (fst mo) (snd mo))
                             (declaredOperations item)
                | None => []
                end) paths /\
  List.map (fun op => (path op, method op)) (Loader.extractOps paths) = endpoints paths /\
  length (Loader.extractOps paths) = length (endpoints paths) /\
  (forall p item m opObj,
     In (p, Some item) paths -> In (m, opObj) (declaredOperations item) ->
     In (Loader.buildOp p item m opObj) (Loader.extractOps paths)) /\
  (forall api, length (ops (Loader.buildModel api))
               = length (endpoints (orEmpty (Loader.d_paths api)))).
Proof.
  assert (Hmap : forall ps, List.map (fun op => (path op, method op)) (Loader.extractOps ps)
                            = endpoints ps).
  { intros ps. rewrite extractOps_declared. unfold endpoints. rewrite map_flat_map.
    induction ps as [|[p [item|]] ps IH]; simpl; [reflexivity | |].
    - rewrite IH, List.map_map. reflexivity.
    - exact IH. }
  assert (Hlen : forall ps, length (Loader.extractOps ps) = length (endpoints ps)).
  { intros ps. rewrite <- Hmap. now rewrite List.length_map. }
  split; [apply extractOps_declared |]. split; [apply Hmap |]. split; [apply Hlen |].
  split.
  - intros p item m opObj Hentry Hdecl. rewrite extractOps_declared.
    apply in_flat_map. exists (p, Some item). split; [exact Hentry |]. cbn [fst snd].
    apply (in_map (fun mo => Loader.buildOp p item (fst mo) (snd mo)) _ (m, opObj) Hdecl).
  - intros api. cbn [ops Loader.buildModel]. apply Hlen.
Qed.

Lemma location_count (p : Param) :
  Nat.b2n (Loader.inLocation InPath p) + Nat.b2n (Loader.inLocation InQuery p)
  + Nat.b2n (Loader.inLocation InHeader p) + Nat.b2n (Loader.inLocation InCookie p)
  = Nat.b2n (located p).
Proof.
  unfold Loader.inLocation, located, strictEqualsString, locationName.
  destruct (p_in p) as [| |b|z|s|items|entries]; try reflexivity. cbn [existsb].
  destruct (String.eqb_spec s "path") as [-> | _]; [reflexivity |].
  destruct (String.eqb_spec s "query") as [-> | _]; [reflexivity |].
  destruct (String.eqb_spec s "header") as [-> | _]; [reflexivity |].
  destruct (String.eqb_spec s "cookie") as [-> | _]; reflexivity.
Qed.

Lemma views_length (ps : list Param) :
  length (List.filter (Loader.inLocation InPath) ps)
  + length (List.filter (Loader.inLocation InQuery) ps)
  + length (List.filter (Loader.inLocation InHeader) ps)
  + length (List.filter (Loader.inLocation InCookie) ps)
  = length (List.filter located ps).
Proof.
  induction ps as [|p ps IH]; [reflexivity |].
  cbn [List.filter]. pose proof (location_count p) as Hp.
  destruct (Loader.inLocation InPath p), (Loader.inLocation InQuery p),
    (Loader.inLocation InHeader p), (Loader.inLocation InCookie p), (located p);
    simpl in Hp |- *; lia.
Qed.

Lemma inLocation_iff (loc : ParamIn) (p : Param) :
  Loader.inLocation loc p = true <-> p_in p = Str (locationName loc).
Proof.
  unfold Loader.inLocation, strictEqualsString.
  destruct (p_in p) as [| |b|z|s|items|entries]; try (split; intros E; discriminate E).
  destruct (String.eqb_spec s (locationName loc)) as [-> | Hne]; split; intros E;
    try reflexivity; try discriminate E.
  elim Hne. congruence.
Qed.

Lemma view_iff (loc : ParamIn) (ps : list Param) (prm : Param) :
  In prm (List.filter (Loader.inLocation loc) ps)
  <-> In prm ps /\ p_in prm = Str (locationName loc).
Proof. rewrite List.filter_In, inLocation_iff. reflexivity. Qed.

Lemma filter_all (A : Type) (f : A -> bool) (l : list A) :
  length (List.filter f l) = length l <-> (forall x, In x l -> f x = true).
Proof.
  induction l as [|a l IH]; [simpl; tauto |].
  pose proof (List.filter_length_le f l) as Hle. simpl.
  destruct (f a) eqn:Ea; simpl.
  - split.
    + intros E x [<- | Hx]; [exact Ea |]. apply IH; [lia | exact Hx].
    + intros Hall. f_equal. apply IH. intros x Hx. apply Hall. now right.
  - split; [intros E; lia |]. intros Hall. rewrite (Hall a (or_introl eq_refl)) in Ea.
    discriminate Ea.
Qed.

Lemma located_iff (p : Param) :
  located p = true <-> exists loc, p_in p = Str (locationName loc).
Proof.
  unfold located. split.
  - destruct (p_in p) as [| |b|z|s|items|entries]; try discriminate. cbn [existsb].
    destruct (String.eqb_spec s "path") as [-> | _]; [intros _; now exists InPath |].
    destruct (String.eqb_spec s "query") as [-> | _]; [intros _; now exists InQuery |].
    destruct (String.eqb_spec s "header") as [-> | _]; [intros _; now exists InHeader |].
    destruct (String.eqb_spec s "cookie") as [-> | _]; [intros _; now exists InCookie |].
    discriminate.
  - intros [loc ->]. destruct loc; reflexivity.
Qed.

(** X4.  The parameters of a loaded operation are those of the path item
    followed by those of the operation, none dropped or merged, with [in]
    and [name] as the document has them.  A parameter is in the view of a
    location exactly when its [in] is that string, so the four views are
    disjoint and their sizes add up to the number of parameters whose [in]
    is one of the four strings.  A parameter with another [in], or with
    none, as an unresolved [$ref] object, is among [params] and in no view:
    the views cover [params] only when every parameter has a location. *)
Theorem X4_parameter_views_partition
    (p : string) (item : Loader.PathItem) (m : HttpMethod) (opObj : Loader.OperationObject) :
  let op := Loader.buildOp p item m opObj in
  params op
  = List.map Loader.paramOf
      (orEmpty (Loader.pi_parameters item) ++ orEmpty (Loader.oo_parameters opObj)) /\
  length (params op)
  = length (orEmpty (Loader.pi_parameters item)) + length (orEmpty (Loader.oo_parameters opObj)) /\
  (forall raw, p_in (Loader.paramOf raw) = Loader.rp_in raw /\
               p_name (Loader.paramOf raw) = Loader.rp_name raw) /\
  (forall prm,
      (In prm (orEmpty (pathParams op)) <-> In prm (params op) /\ p_in prm = Str "path") /\
      (In prm (orEmpty (queryParams op)) <-> In prm (params op) /\ p_in prm = Str "query") /\
      (In prm (orEmpty (headerParams op)) <-> In prm (params op) /\ p_in prm = Str "header") /\
      (In prm (orEmpty (cookieParams op)) <-> In prm (params op) /\ p_in prm = Str "cookie")) /\
  length (orEmpty (pathParams op)) + length (orEmpty (queryParams op))
  + length (orEmpty (headerParams op)) + length (orEmpty (cookieParams op))
  = length (List.filter located (params op)) /\
  (length (orEmpty (pathParams op)) + length (orEmpty (queryParams op))
   + length (orEmpty (headerParams op)) + length (orEmpty (cookieParams op))
   = length (params op)
   <-> forall prm, In prm (params op) -> located prm = true) /\
  (forall prm, In prm (params op) -> located prm = false ->
     ~ In prm (orEmpty (pathParams op)) /\ ~ In prm (orEmpty (queryParams op)) /\
     ~ In prm (orEmpty (headerParams op)) /\ ~ In prm (orEmpty (cookieParams op))).
Proof.
  cbv zeta. cbn [params pathParams queryParams headerParams cookieParams Loader.buildOp orEmpty].
  split; [reflexivity |].
  split; [now rewrite List.length_map, List.length_app |].
  split; [intros raw; split; reflexivity |].
  split.
  { intros prm.
    split; [apply (view_iff InPath) | split; [apply (view_iff InQuery) |
    split; [apply (view_iff InHeader) | apply (view_iff InCookie)]]]. }
  split; [apply views_length |].
  split; [rewrite views_length; apply filter_all |].
  intros prm _ Hloc.
  assert (Hno : forall loc ps, ~ In prm (List.filter (Loader.inLocation loc) ps)).
  { intros loc ps Hin. apply view_iff in Hin as [_ Hin].
    assert (located prm = true) by (apply located_iff; now exists loc). congruence. }
  repeat split; apply Hno.
Qed.

(** An operation with one proper path parameter and one unresolved
    reference: two parameters, one of them in a view. *)
Lemma X4_witness :
  length (params (Loader.buildOp "/pets/{petId}" (Examples.item None None) get
                    (Examples.operation None None [Examples.rawPetId; Examples.refParam]))) = 2 /\
  length (orEmpty (pathParams (Loader.buildOp "/pets/{petId}" (Examples.item None None) get
                    (Examples.operation None None [Examples.rawPetId; Examples.refParam])))) = 1 /\
  ~ In (Loader.paramOf Examples.refParam)
       (orEmpty (pathParams (Loader.buildOp "/pets/{petId}" (Examples.item None None) get
                    (Examples.operation None None [Examples.rawPetId; Examples.refParam])))).
Proof.
  destruct (X4_parameter_views_partition "/pets/{petId}" (Examples.item None None) get
              (Examples.operation None None [Examples.rawPetId; Examples.refParam]))
    as (_ & Hlen & _ & _ & _ & _ & Hout).
  split; [exact Hlen |]. split; [reflexivity |].
  destruct (Hout (Loader.paramOf Examples.refParam)) as (Hpath & _);
    [right; left; reflexivity | reflexivity | exact Hpath].
Defined.

(** ** Grouping *)

Section GroupingOrder.
Import Generate.

Lemma mapSet_fst (byTag : ByTag) (k : string) (v : list Op) :
  List.map fst (mapSet byTag k v) = addKey (List.map fst byTag) k.
Proof.
  unfold addKey. induction byTag as [|[k' v'] rest IH]; simpl; [reflexivity |].
  destruct (String.eqb_spec k k') as [<- | Hne]; simpl; [reflexivity |].
  rewrite IH. now destruct (existsb (String.eqb k) (List.map fst rest)).
Qed.

Lemma groupOps_keys (ops : list Op) (byTag : ByTag) :
  List.map fst (fold_left groupStep ops byTag)
  = fold_left addKey (List.map tag ops) (List.map fst byTag).
Proof.
  revert byTag; induction ops as [|op ops IH]; intros byTag; simpl; [reflexivity |].
  rewrite IH. unfold groupStep. now rewrite mapSet_fst.
Qed.

Lemma groupStep_count (byTag : ByTag) (op : Op) :
  groupedCount (groupStep byTag op) = S (groupedCount byTag).
Proof.
  unfold groupStep, groupedCount.
  induction byTag as [|[k' v'] rest IH]; simpl; [reflexivity |].
  destruct (String.eqb_spec (tag op) k') as [E | Hne]; simpl.
  - rewrite List.length_app. simpl. lia.
  - rewrite IH. lia.
Qed.

Lemma groupOps_count (ops : list Op) (byTag : ByTag) :
  groupedCount (fold_left groupStep ops byTag) = length ops + groupedCount byTag.
Proof.
  revert byTag; induction ops as [|op ops IH]; intros byTag; simpl; [reflexivity |].
  rewrite IH, groupStep_count. lia.
Qed.

(** X5.  The grouping lists the tags in the order in which they are first
    met among the operations, and it neither loses nor repeats an
    operation: the sizes of the groups add up to the number of operations.
    Only the empty list of operations gives the empty grouping. *)
Theorem X5_grouping_order_and_size (ops : list Op) :
  List.map fst (groupOps ops) = distinct (List.map tag ops) /\
  groupedCount (groupOps ops) = length ops /\
  (groupOps ops = [] <-> ops = []).
Proof.
  assert (Hcount : groupedCount (groupOps ops) = length ops).
  { unfold groupOps. rewrite groupOps_count. unfold groupedCount. simpl. lia. }
  split; [apply (groupOps_keys ops []) |]. split; [exact Hcount |].
  split.
  - intros E. rewrite E in Hcount. destruct ops; [reflexivity | discriminate Hcount].
  - now intros ->.
Qed.

End GroupingOrder.

(** ** When the hooks render *)

Lemma mapM_Forall2 {A B : Type} (f : A -> Result B) (l : list A) (ys : list B) :
  mapM f l = Ok ys -> Forall2 (fun x y => f x = Ok y) l ys.
Proof.
  revert ys; induction l as [|a l IH]; intros ys E; simpl in E.
  - apply Ok_inj in E; subst. constructor.
  - destruct (f a) as [b|m] eqn:Ea; cbn [bind] in E; [| discriminate].
    destruct (mapM f l) as [bs|m] eqn:El; cbn [bind] in E; [| discriminate].
    apply Ok_inj in E; subst. constructor; [exact Ea | now apply IH].
Qed.

Lemma mapM_all_Ok {A B : Type} (f : A -> Result B) (l : list A) :
  (forall x, In x l -> exists y, f x = Ok y) -> exists ys, mapM f l = Ok ys.
Proof.
  induction l as [|a l IH]; intros Hall; [now exists [] |].
  destruct (Hall a (or_introl eq_refl)) as [b Eb].
  destruct IH as [bs Ebs]; [intros x Hx; apply Hall; now right |].
  exists (b :: bs). simpl. now rewrite Eb, Ebs.
Qed.

Lemma renderHook_Ok_iff (tag : string) (op : Op) :
  (exists text, Hooks.renderHook tag op = Ok text) <-> camelCase (operationId op) <> "".
Proof.
  split; [intros [text E]; exact (renderHook_Ok tag op text E) |].
  intros Hne. unfold Hooks.renderHook, Hooks.renderQueryHook, Hooks.renderMutationHook.
  destruct (camelCase (operationId op)) as [|c r]; [now elim Hne |].
  destruct (Hooks.isQuery (method op)); eexists; reflexivity.
Qed.

Lemma renderTagHooks_Ok_iff (tag : string) (ops : list Op) :
  (exists text, Hooks.renderTagHooks tag ops = Ok text) <->
  (forall op, In op ops -> camelCase (operationId op) <> "").
Proof.
  split; [intros [text E]; exact (renderTagHooks_Ok tag ops text E) |].
  intros Hall. unfold Hooks.renderTagHooks.
  destruct (mapM_all_Ok (Hooks.renderHook tag) ops) as [hooks ->].
  - intros op Hop. apply renderHook_Ok_iff, Hall, Hop.
  - eexists; reflexivity.
Qed.

Lemma renderHooksTemplate_Ok_iff (entries : ByTag) (importBase : string) :
  (exists file, Hooks.renderHooksTemplate entries importBase = Ok file) <->
  (forall tag ops op, In (tag, ops) entries -> In op ops -> camelCase (operationId op) <> "").
Proof.
  split; [intros [file E]; exact (renderHooksTemplate_Ok entries importBase file E) |].
  intros Hall. unfold Hooks.renderHooksTemplate.
  destruct (mapM_all_Ok (fun e => Hooks.renderTagHooks (fst e) (snd e)) entries) as [blocks ->].
  - intros [tag ops] Hentry. apply renderTagHooks_Ok_iff. intros op Hop.
    exact (Hall tag ops op Hentry Hop).
  - eexists; reflexivity.
Qed.

(** X6.  The hooks of a tag render exactly when the camel-cased id of every
    operation of the tag is non-empty, and then the text is made of one hook
    per operation, in the order of the operations, joined by line breaks.
    The same criterion, over all tags, decides whether a hooks file
    renders, whatever its import base. *)
Theorem X6_hooks_render_iff_names_nonempty (tag : string) (ops : list Op) :
  ((exists text, Hooks.renderTagHooks tag ops = Ok text) <->
   (forall op, In op ops -> camelCase (operationId op) <> "")) /\
  (forall text, Hooks.renderTagHooks tag ops = Ok text ->
     exists hooks,
       Forall2 (fun op hook => Hooks.renderHook tag op = Ok hook) ops hooks /\
       length hooks = length ops /\
       text = join "
" hooks) /\
  (forall entries importBase,
     (exists file, Hooks.renderHooksTemplate entries importBase = Ok file) <->
     (forall t os op, In (t, os) entries -> In op os -> camelCase (operationId op) <> "")).
Proof.
  split; [apply renderTagHooks_Ok_iff |].
  split; [| intros entries importBase; apply renderHooksTemplate_Ok_iff].
  intros text E. unfold Hooks.renderTagHooks in E.
  destruct (mapM (Hooks.renderHook tag) ops) as [hooks|m] eqn:Em; cbv [bind] in E;
    [| discriminate].
  apply Ok_inj in E. exists hooks.
  pose proof (mapM_Forall2 _ _ _ Em) as H2.
  split; [exact H2 |]. split; [symmetry; apply (List.Forall2_length H2) | now symmetry].
Qed.

(** ** Grouped and combined hook files *)

Section Modes.
Import Generate.

Lemma hookFiles_grouped_Ok_iff (opts : GenerateOptions) (byTag : ByTag) :
  (exists files, hookFiles (setGroupByTag true opts) byTag = Ok files) <->
  (forall tag ops op, In (tag, ops) byTag -> In op ops -> camelCase (operationId op) <> "").
Proof.
  unfold hookFiles. cbn [setGroupByTag opt_groupByTag opt_outDir]. split.
  - intros [files E] tag ops op Hentry Hop.
    destruct (mapM_Ok_inv _ _ _ E (tag, ops) Hentry) as [f Ef]. cbn [fst snd] in Ef.
    destruct (Hooks.renderHooksByTag tag ops) as [text|m] eqn:Et; [| discriminate].
    exact (renderHooksTemplate_Ok _ _ _ Et tag ops op (or_introl eq_refl) Hop).
  - intros Hall. apply mapM_all_Ok. intros [tag ops] Hentry. cbn [fst snd].
    destruct (proj2 (renderHooksTemplate_Ok_iff [(tag, ops)] "../")) as [text Et].
    + intros t os op [[= <- <-] | []] Hop. exact (Hall tag ops op Hentry Hop).
    + unfold Hooks.renderHooksByTag. rewrite Et. eexists; reflexivity.
Qed.

Lemma hookFiles_combined_Ok_iff (opts : GenerateOptions) (byTag : ByTag) :
  (exists files, hookFiles (setGroupByTag false opts) byTag = Ok files) <->
  (forall tag ops op, In (tag, ops) byTag -> In op ops -> camelCase (operationId op) <> "").
Proof.
  unfold hookFiles. cbn [setGroupByTag opt_groupByTag opt_outDir].
  rewrite <- (renderHooksTemplate_Ok_iff byTag "./"). unfold Hooks.renderHooksCombined.
  split; intros [x E].
  - destruct (Hooks.renderHooksTemplate byTag "./") as [text|m]; [now exists text | discriminate].
  - rewrite E. eexists; reflexivity.
Qed.

Lemma hookFiles_grouped_paths (opts : GenerateOptions) (byTag : ByTag) (files : list PlannedFile) :
  hookFiles (setGroupByTag true opts) byTag = Ok files ->
  List.map file_path files
  = List.map (fun entry => opt_outDir opts +:+ "/hooks/" +:+ fst entry +:+ ".generated.ts") byTag.
Proof.
  unfold hookFiles. cbn [setGroupByTag opt_groupByTag opt_outDir]. intros E.
  apply mapM_Forall2 in E. induction E as [|entry f es fs Ef _ IH]; [reflexivity |].
  simpl. rewrite IH. f_equal.
  destruct (Hooks.renderHooksByTag (fst entry) (snd entry)); cbv [bind] in Ef; [| discriminate].
  apply Ok_inj in Ef. now subst f.
Qed.

(** X7.  The grouping mode decides how the hooks are split into files, not
    whether they render or what they hold: planning the hook files succeeds
    in one mode exactly when it succeeds in the other; the grouped mode
    plans one file [hooks/<tag>.generated.ts] per tag, in the order of the
    tags, the combined mode the single file [hooks.generated.ts]; and the
    hook of every operation is part of a planned file in either mode. *)
Theorem X7_grouping_mode_only_splits (opts : GenerateOptions) (byTag : ByTag) :
  ((exists files, hookFiles (setGroupByTag true opts) byTag = Ok files) <->
   (exists files, hookFiles (setGroupByTag false opts) byTag = Ok files)) /\
  (forall files, hookFiles (setGroupByTag true opts) byTag = Ok files ->
     List.map file_path files
     = List.map (fun entry => opt_outDir opts +:+ "/hooks/" +:+ fst entry +:+ ".generated.ts")
                byTag) /\
  (forall files, hookFiles (setGroupByTag false opts) byTag = Ok files ->
     List.map file_path files = [opt_outDir opts +:+ "/hooks.generated.ts"]) /\
  (forall b files tag ops op,
     hookFiles (setGroupByTag b opts) byTag = Ok files ->
     In (tag, ops) byTag -> In op ops ->
     exists text file,
       Hooks.renderHook tag op = Ok text /\ In file files /\
       includes (file_contents file) text = true).
Proof.
  split; [now rewrite hookFiles_grouped_Ok_iff, hookFiles_combined_Ok_iff |].
  split; [apply hookFiles_grouped_paths |].
  split.
  - unfold hookFiles. cbn [setGroupByTag opt_groupByTag opt_outDir]. intros files E.
    destruct (Hooks.renderHooksCombined byTag); cbv [bind] in E; [| discriminate].
    apply Ok_inj in E. now subst files.
  - intros b files tag ops op E Hentry Hop. unfold hookFiles in E.
    cbn [setGroupByTag opt_groupByTag opt_outDir] in E. destruct b.
    + destruct (mapM_Ok_In _ _ _ E (tag, ops) Hentry) as (file & Ef & Hfile).
      cbn [fst snd] in Ef.
      destruct (Hooks.renderHooksByTag tag ops) as [content|m] eqn:Ec; cbv [bind] in Ef;
        [| discriminate].
      apply Ok_inj in Ef. subst file.
      destruct (hook_in_file _ _ _ tag ops op Ec (or_introl eq_refl) Hop) as (text & Et & Hin).
      exists text. eexists. split; [exact Et |]. split; [exact Hfile | exact Hin].
    + destruct (Hooks.renderHooksCombined byTag) as [content|m] eqn:Ec; cbv [bind] in E;
        [| discriminate].
      apply Ok_inj in E. subst files.
      destruct (hook_in_file _ _ _ tag ops op Ec Hentry Hop) as (text & Et & Hin).
      exists text. eexists. split; [exact Et |]. split; [now left | exact Hin].
Qed.

End Modes.

(** ** The plan *)

Lemma append_cancel_r (a b s : string) : a +:+ s = b +:+ s -> a = b.
Proof.
  revert b; induction a as [|c a IH]; intros b E.
  - destruct b as [|d b]; [reflexivity |].
    apply (f_equal String.length) in E. rewrite !append_length in E. simpl in E. lia.
  - destruct b as [|d b].
    + apply (f_equal String.length) in E. rewrite !append_length in E. simpl in E. lia.
    + simpl in E. injection E as -> E. now rewrite (IH b E).
Qed.

Lemma NoDup_map_injective {A B : Type} (f : A -> B) (l : list A) :
  (forall x y, f x = f y -> x = y) -> List.NoDup l -> List.NoDup (List.map f l).
Proof.
  intros Hinj Hnd. induction Hnd as [|x l Hx Hnd IH]; simpl; constructor; [| exact IH].
  intros Hin. apply in_map_iff in Hin as (y & Ey & Hy). apply Hinj in Ey. now subst y.
Qed.

Lemma NoDup_append {A : Type} (l1 l2 : list A) :
  List.NoDup l1 -> List.NoDup l2 -> (forall x, In x l1 -> In x l2 -> False) ->
  List.NoDup (l1 ++ l2).
Proof.
  intros H1 H2 Hdis. induction H1 as [|x l Hx H1 IH]; simpl; [exact H2 |].
  constructor.
  - intros Hin. apply in_app_or in Hin as [Hin | Hin]; [exact (Hx Hin) |].
    exact (Hdis x (or_introl eq_refl) Hin).
  - apply IH. intros y Hy. apply Hdis. now right.
Qed.

Lemma hookSuffixes_prefix (groupByTag : bool) (byTag : ByTag) (s : string) :
  In s (hookSuffixes groupByTag byTag) -> String.prefix "/hooks" s = true.
Proof.
  unfold hookSuffixes. destruct groupByTag.
  - intros Hin. apply in_map_iff in Hin as (entry & <- & _). reflexivity.
  - intros [<- | []]. reflexivity.
Qed.

Lemma hookSuffixes_NoDup (groupByTag : bool) (byTag : ByTag) :
  List.NoDup (List.map fst byTag) -> List.NoDup (hookSuffixes groupByTag byTag).
Proof.
  intros Hnd. unfold hookSuffixes. destruct groupByTag.
  - rewrite <- (List.map_map fst (fun t => "/hooks/" +:+ t +:+ ".generated.ts")).
    apply NoDup_map_injective; [| exact Hnd].
    intros x y E. apply (append_cancel_l "/hooks/") in E.
    exact (append_cancel_r _ _ _ E).
  - constructor; [intros [] | constructor].
Qed.

Lemma plannedSuffixes_NoDup (generateTypes groupByTag integration : bool) (byTag : ByTag) :
  List.NoDup (List.map fst byTag) ->
  List.NoDup (plannedSuffixes generateTypes groupByTag integration byTag).
Proof.
  intros Hnd. unfold plannedSuffixes. rewrite !app_assoc.
  apply NoDup_append; [apply NoDup_append | |].
  - destruct generateTypes; simpl; repeat constructor; simpl; intuition discriminate.
  - exact (hookSuffixes_NoDup groupByTag byTag Hnd).
  - intros x Hcore Hhook. apply hookSuffixes_prefix in Hhook.
    destruct generateTypes; simpl in Hcore;
      repeat (destruct Hcore as [<- | Hcore]; [discriminate Hhook |]); exact Hcore.
  - destruct integration; repeat constructor. intros [].
  - intros x Hin Hint. destruct integration; [| exact Hint].
    destruct Hint as [<- | []]. apply in_app_or in Hin as [Hcore | Hhook].
    + destruct generateTypes; simpl in Hcore;
        repeat (destruct Hcore as [E | Hcore]; [discriminate E |]); exact Hcore.
    + apply hookSuffixes_prefix in Hhook. discriminate Hhook.
Qed.

Section Plan.
Import Node OpenApiTs Generate.
Context {FS : Type} {H : Host FS}.

Lemma hookFiles_paths (opts : GenerateOptions) (byTag : ByTag) (files : list PlannedFile) :
  hookFiles opts byTag = Ok files ->
  List.map file_path files
  = List.map (String.append (opt_outDir opts)) (hookSuffixes (opt_groupByTag opts) byTag).
Proof.
  unfold hookFiles, hookSuffixes. destruct (opt_groupByTag opts); intros E.
  - apply mapM_Forall2 in E. induction E as [|entry f es fs Ef _ IH]; [reflexivity |].
    simpl. rewrite IH. f_equal.
    destruct (Hooks.renderHooksByTag (fst entry) (snd entry)); cbv [bind] in Ef;
      [| discriminate].
    apply Ok_inj in Ef. now subst f.
  - destruct (Hooks.renderHooksCombined byTag); cbv [bind] in E; [| discriminate].
    apply Ok_inj in E. now subst files.
Qed.

(** X8.  A successful plan holds, in this order, the three core files, the
    types file when asked for, one hooks file per tag or the one combined
    hooks file, and the integration file when an integration is set; so
    their number is known from the options and the number of tags, and when
    the tags are distinct, as they are after grouping, no two planned files
    share a path. *)
Theorem X8_planned_paths (opts : GenerateOptions) (spec : SpecModel)
    (integration : option OpenApiTsIntegration) (byTag : ByTag) (files : list PlannedFile) :
  planFiles opts spec integration byTag = Ok files ->
  List.map file_path files
  = List.map (String.append (opt_outDir opts))
      (plannedSuffixes (opt_generateTypes opts) (opt_groupByTag opts) (isSome integration) byTag) /\
  length files
  = 3 + (if opt_generateTypes opts then 1 else 0)
    + (if opt_groupByTag opts then length byTag else 1)
    + (if isSome integration then 1 else 0) /\
  (List.NoDup (List.map fst byTag) -> List.NoDup (List.map file_path files)).
Proof.
  intros E. unfold planFiles in E.
  destruct (hookFiles opts byTag) as [hooks|m] eqn:Eh; cbv [bind] in E; [| discriminate].
  apply Ok_inj in E.
  assert (Hpaths : List.map file_path files
                   = List.map (String.append (opt_outDir opts))
                       (plannedSuffixes (opt_generateTypes opts) (opt_groupByTag opts)
                                        (isSome integration) byTag)).
  { subst files. unfold plannedSuffixes, coreFiles, integrationFiles.
    rewrite !List.map_app, (hookFiles_paths opts byTag hooks Eh).
    destruct (opt_generateTypes opts), integration; reflexivity. }
  split; [exact Hpaths |]. split.
  - rewrite <- (List.length_map file_path), Hpaths, List.length_map.
    unfold plannedSuffixes, hookSuffixes. rewrite !List.length_app.
    destruct (opt_generateTypes opts), (opt_groupByTag opts), (isSome integration);
      simpl; rewrite ?List.length_map; lia.
  - intros Hnd. rewrite Hpaths. apply NoDup_map_injective.
    + intros x y. apply append_cancel_l.
    + now apply plannedSuffixes_NoDup.
Qed.

(** ** The writer *)

Lemma writeFiles_app (a b : list PlannedFile) (w : World FS) :
  writeFiles (a ++ b) w
  = match writeFiles a w with
    | (w1, Ok _) => writeFiles b w1
    | (w1, Thrown e) => (w1, Thrown e)
    end.
Proof.
  revert w; induction a as [|f a IH]; intros w; [reflexivity |].
  simpl. unfold bindM, fsCall.
  destruct (mkdir (fs w) (dirname (file_path f))) as [d1|e1]; [| reflexivity].
  cbn [fs]. destruct (writeFile d1 (file_path f) (file_contents f)) as [d2|e2]; [| reflexivity].
  apply IH.
Qed.

Lemma writeFiles_console (files : list PlannedFile) (w : World FS) :
  stdout (fst (writeFiles files w)) = stdout w /\
  stderr (fst (writeFiles files w)) = stderr w.
Proof.
  revert w; induction files as [|f files IH]; intros w; [split; reflexivity |].
  simpl. unfold bindM, fsCall.
  destruct (mkdir (fs w) (dirname (file_path f))) as [d1|e1]; [| split; reflexivity].
  cbn [fs stdout stderr].
  destruct (writeFile d1 (file_path f) (file_contents f)) as [d2|e2]; [| split; reflexivity].
  exact (IH {| fs := d2; stdout := stdout w; stderr := stderr w |}).
Qed.

(** X9.  Writing a list of files is writing its front part and then the
    rest.  When the directory or the file of one entry cannot be written,
    the call rejects at that entry: what was written before stays written,
    nothing is rolled back, and the entries after it are not attempted.
    The writer prints nothing. *)
Theorem X9_writeFiles_stops_at_first_failure
    (before after : list PlannedFile) (f : PlannedFile) (w w1 : World FS) (e : string) :
  writeFiles before w = (w1, Ok tt) ->
  (mkdir (fs w1) (dirname (file_path f)) = Thrown e ->
   writeFiles (before ++ f :: after) w = (w1, Thrown e)) /\
  (forall d, mkdir (fs w1) (dirname (file_path f)) = Ok d ->
             writeFile d (file_path f) (file_contents f) = Thrown e ->
             writeFiles (before ++ f :: after) w
             = ({| fs := d; stdout := stdout w1; stderr := stderr w1 |}, Thrown e)) /\
  (forall d d', mkdir (fs w1) (dirname (file_path f)) = Ok d ->
                writeFile d (file_path f) (file_contents f) = Ok d' ->
                writeFiles (before ++ f :: after) w
                = writeFiles after {| fs := d'; stdout := stdout w1; stderr := stderr w1 |}) /\
  stdout w1 = stdout w /\ stderr w1 = stderr w.
Proof.
  intros Eb.
  split; [| split; [| split]].
  - intros Em. rewrite writeFiles_app, Eb. simpl. unfold bindM, fsCall. now rewrite Em.
  - intros d Em Ew. rewrite writeFiles_app, Eb. simpl. unfold bindM, fsCall.
    rewrite Em. cbn [fs]. now rewrite Ew.
  - intros d d' Em Ew. rewrite writeFiles_app, Eb. simpl. unfold bindM, fsCall.
    rewrite Em. cbn [fs]. now rewrite Ew.
  - pose proof (writeFiles_console before w) as Hc. rewrite Eb in Hc. exact Hc.
Qed.

(** ** What is printed *)

Lemma afterVerbose_console (opts : GenerateOptions) (spec : SpecModel) (w : World FS) :
  stderr (afterVerbose opts spec w) = stderr w /\
  exists printed, stdout (afterVerbose opts spec w) = stdout w ++ printed.
Proof.
  unfold afterVerbose. destruct (opt_verbose opts); cbn [console_log fst stdout stderr].
  - split; [reflexivity | now eexists].
  - split; [reflexivity | exists []; now rewrite app_nil_r].
Qed.

Lemma afterSummary_console (opts : GenerateOptions) (spec : SpecModel) (w0 w : World FS) :
  stderr (afterSummary opts spec w0 w) = stderr w /\
  exists printed, stdout (afterSummary opts spec w0 w) = stdout w ++ printed.
Proof.
  unfold afterSummary. destruct (isSome (integrationOf opts w0));
    cbn [console_log fst stdout stderr]; (split; [reflexivity |]).
  - rewrite <- app_assoc. now eexists.
  - now eexists.
Qed.

Lemma generate_stderr (opts : GenerateOptions) (w : World FS) :
  stderr (fst (generate opts w)) = stderr w.
Proof.
  rewrite generate_unfold.
  destruct (bundle (fs w) (opt_schema opts)) as [api|e0]; [| reflexivity].
  cbv zeta.
  destruct (afterVerbose_console opts (Loader.buildModel api) w) as (Hv_err & _).
  destruct (planFiles opts (Loader.buildModel api) (integrationOf opts w)
              (groupOps (ops (Loader.buildModel api)))) as [files|e0]; [| exact Hv_err].
  destruct (opt_dryRun opts).
  - cbn [console_log fst]. rewrite (proj1 (afterSummary_console _ _ _ _)). exact Hv_err.
  - pose proof (writeFiles_console files (afterVerbose opts (Loader.buildModel api) w)) as Hw.
    destruct (writeFiles files _) as [w1 [u|e1]]; cbn [fst] in *.
    + rewrite (proj1 (afterSummary_console _ _ _ _)). now rewrite (proj2 Hw).
    + now rewrite (proj2 Hw).
Qed.

Lemma generate_stdout (opts : GenerateOptions) (w : World FS) :
  exists printed, stdout (fst (generate opts w)) = stdout w ++ printed.
Proof.
  rewrite generate_unfold.
  destruct (bundle (fs w) (opt_schema opts)) as [api|e0];
    [| exists []; now rewrite app_nil_r].
  cbv zeta.
  destruct (afterVerbose_console opts (Loader.buildModel api) w) as (_ & pv & Hv_out).
  destruct (planFiles opts (Loader.buildModel api) (integrationOf opts w)
              (groupOps (ops (Loader.buildModel api)))) as [files|e0]; [| now exists pv].
  destruct (opt_dryRun opts).
  - cbn [console_log fst].
    destruct (afterSummary_console opts (Loader.buildModel api) w
                {| fs := fs (afterVerbose opts (Loader.buildModel api) w);
                   stdout := stdout (afterVerbose opts (Loader.buildModel api) w)
                             ++ [dryRunMessage files];
                   stderr := stderr (afterVerbose opts (Loader.buildModel api) w) |})
      as (_ & ps & Hs).
    rewrite Hs. cbn [stdout]. rewrite Hv_out, <- !app_assoc. now eexists.
  - pose proof (writeFiles_console files (afterVerbose opts (Loader.buildModel api) w)) as Hw.
    destruct (writeFiles files _) as [w1 [u|e1]]; cbn [fst] in *.
    + destruct (afterSummary_console opts (Loader.buildModel api) w w1) as (_ & ps & Hs).
      rewrite Hs, (proj1 Hw), Hv_out, <- app_assoc. now eexists.
    + rewrite (proj1 Hw). now exists pv.
Qed.

(** X14.  [generate] never prints on the error stream, and on the output
    stream it only adds lines after those already there; the writer itself
    prints nothing on either stream. *)
Theorem X14_generate_console_discipline (opts : GenerateOptions) (w : World FS) :
  stderr (fst (generate opts w)) = stderr w /\
  (exists printed, stdout (fst (generate opts w)) = stdout w ++ printed) /\
  (forall files, stdout (fst (writeFiles files w)) = stdout w /\
                 stderr (fst (writeFiles files w)) = stderr w).
Proof.
  split; [apply generate_stderr |]. split; [apply generate_stdout |].
  intros files. apply writeFiles_console.
Qed.

(** X15.  The program exits with status 0 exactly when [generate] resolves,
    and otherwise with status 1.  On success it adds nothing to what
    [generate] did; on failure it adds one line to the error stream, the
    message of the exception, and leaves the file system as [generate] left
    it.  The error stream never gets more than that one line. *)
Theorem X15_exit_status (opts : CliOptions) (w : World FS) :
  (snd (main opts w) = 0 <-> snd (generate (cliGenerateOptions opts) w) = Ok tt) /\
  (snd (main opts w) = 0 \/ snd (main opts w) = 1) /\
  (snd (main opts w) = 0 ->
     fst (main opts w) = fst (generate (cliGenerateOptions opts) w) /\
     stderr (fst (main opts w)) = stderr w) /\
  (forall e, snd (generate (cliGenerateOptions opts) w) = Thrown e ->
     snd (main opts w) = 1 /\
     stderr (fst (main opts w)) = stderr w ++ [e] /\
     fs (fst (main opts w)) = fs (fst (generate (cliGenerateOptions opts) w)) /\
     stdout (fst (main opts w)) = stdout (fst (generate (cliGenerateOptions opts) w))).
Proof.
  pose proof (generate_stderr (cliGenerateOptions opts) w) as Herr.
  unfold main. destruct (generate (cliGenerateOptions opts) w) as [w1 [u|e]] eqn:E;
    cbn [fst snd] in *.
  - destruct u. split; [split; reflexivity |]. split; [now left |].
    split; [intros _; split; [reflexivity | exact Herr] |]. intros e He. discriminate He.
  - split; [split; intros He; discriminate He |]. split; [now right |].
    split; [intros He; discriminate He |].
    intros e' [= <-]. cbn [console_error fst stderr fs stdout]. rewrite Herr. repeat split.
Qed.

End Plan.

(** ** Reading back what was written *)

Section ReadBack.
Import Node Generate.
Context {FS : Type} {H : Host FS}.

(** A file system on which a write is read back, and on which writing a
    file or making a directory leaves the other files as they are. *)
Hypothesis write_then_read :
  forall d p c d', writeFile d p c = Ok d' -> readFileSync d' p = Ok c.
Hypothesis write_elsewhere :
  forall d p c d' q, writeFile d p c = Ok d' -> q <> p -> readFileSync d' q = readFileSync d q.
Hypothesis mkdir_keeps_files :
  forall d p d' q, mkdir d p = Ok d' -> readFileSync d' q = readFileSync d q.

Lemma writeFiles_untouched (files : list PlannedFile) (w w' : World FS) (q : string) :
  writeFiles files w = (w', Ok tt) -> ~ In q (List.map file_path files) ->
  readFileSync (fs w') q = readFileSync (fs w) q.
Proof.
  revert w; induction files as [|f files IH]; intros w E Hq.
  - unfold writeFiles, ret in E. now assert (w' = w) as -> by congruence.
  - simpl in E. unfold bindM, fsCall in E.
    destruct (mkdir (fs w) (dirname (file_path f))) as [d1|e1] eqn:E1; [| discriminate].
    cbn [fs] in E.
    destruct (writeFile d1 (file_path f) (file_contents f)) as [d2|e2] eqn:E2; [| discriminate].
    rewrite (IH _ E) by (intros Hin; apply Hq; now right). cbn [fs].
    rewrite (write_elsewhere _ _ _ _ q E2) by (intros ->; apply Hq; now left).
    exact (mkdir_keeps_files _ _ _ q E1).
Qed.

(** X10.  On such a file system, when [writeFiles] resolves for files with
    distinct paths, every one of them reads back with the contents it was
    given, and every other path reads as it did before. *)
Theorem X10_written_files_read_back (files : list PlannedFile) (w w' : World FS) :
  writeFiles files w = (w', Ok tt) ->
  List.NoDup (List.map file_path files) ->
  (forall f, In f files -> readFileSync (fs w') (file_path f) = Ok (file_contents f)) /\
  (forall q, ~ In q (List.map file_path files) ->
             readFileSync (fs w') q = readFileSync (fs w) q).
Proof.
  intros E Hnd. split; [| intros q Hq; exact (writeFiles_untouched files w w' q E Hq)].
  revert w E; induction files as [|f files IH]; intros w E g Hg; [destruct Hg |].
  simpl in E. unfold bindM, fsCall in E.
  destruct (mkdir (fs w) (dirname (file_path f))) as [d1|e1] eqn:E1; [| discriminate].
  cbn [fs] in E.
  destruct (writeFile d1 (file_path f) (file_contents f)) as [d2|e2] eqn:E2; [| discriminate].
  simpl in Hnd. inversion Hnd as [|? ? Hfresh Hnd']; subst.
  destruct Hg as [<- | Hg].
  - rewrite (writeFiles_untouched files _ w' (file_path f) E Hfresh). cbn [fs].
    exact (write_then_read _ _ _ _ E2).
  - exact (IH Hnd' _ E g Hg).
Qed.

End ReadBack.

Lemma Mem_write_then_read (json : gmap string Value) :
  forall d p c d',
    Node.writeFile (Host := Mem.host json) d p c = Ok d' ->
    Node.readFileSync (Host := Mem.host json) d' p = Ok c.
Proof.
  intros d p c d'. cbn [Node.writeFile Node.readFileSync Mem.host]. unfold Mem.write, Mem.read.
  destruct (bool_decide _); [discriminate |]. intros [= <-]. cbn [Mem.files].
  now rewrite lookup_insert_eq.
Qed.

Lemma Mem_write_elsewhere (json : gmap string Value) :
  forall d p c d' q,
    Node.writeFile (Host := Mem.host json) d p c = Ok d' -> q <> p ->
    Node.readFileSync (Host := Mem.host json) d' q
    = Node.readFileSync (Host := Mem.host json) d q.
Proof.
  intros d p c d' q. cbn [Node.writeFile Node.readFileSync Mem.host]. unfold Mem.write, Mem.read.
  destruct (bool_decide _); [discriminate |]. intros [= <-] Hne. cbn [Mem.files].
  rewrite lookup_insert_ne by congruence. reflexivity.
Qed.

Lemma Mem_mkdir_keeps_files (json : gmap string Value) :
  forall d p d' q,
    Node.mkdir (Host := Mem.host json) d p = Ok d' ->
    Node.readFileSync (Host := Mem.host json) d' q
    = Node.readFileSync (Host := Mem.host json) d q.
Proof.
  intros d p d' q. cbn [Node.mkdir Node.readFileSync Mem.host]. unfold Mem.makeDir, Mem.read.
  destruct (Mem.files d !! p); [discriminate |]. now intros [= <-].
Qed.

(** The in-memory disk is such a file system: two files written to the
    empty disk read back. *)
Lemma X10_witness :
  Node.readFileSync (Host := Mem.host ∅)
    (Node.fs (fst (Generate.writeFiles (H := Mem.host ∅)
                     [ {| Generate.file_path := "out/client.ts";
                          Generate.file_contents := "a" |};
                       {| Generate.file_path := "out/hooks/pets.generated.ts";
                          Generate.file_contents := "b" |} ] Examples.world)))
    "out/hooks/pets.generated.ts"
  = Ok "b".
Proof.
  set (files := [ {| Generate.file_path := "out/client.ts"; Generate.file_contents := "a" |};
                  {| Generate.file_path := "out/hooks/pets.generated.ts";
                     Generate.file_contents := "b" |} ]).
  destruct (Generate.writeFiles (H := Mem.host ∅) files Examples.world) as [w' r] eqn:E.
  assert (r = Ok tt) as -> by (vm_compute in E; congruence).
  cbn [fst].
  assert (Hnd : List.NoDup (List.map Generate.file_path files))
    by (repeat constructor; simpl; intuition discriminate).
  destruct (X10_written_files_read_back (H := Mem.host ∅)
              (Mem_write_then_read ∅) (Mem_write_elsewhere ∅) (Mem_mkdir_keeps_files ∅)
              files Examples.world w' E Hnd) as [Hback _].
  apply (Hback {| Generate.file_path := "out/hooks/pets.generated.ts";
                  Generate.file_contents := "b" |}).
  right; left; reflexivity.
Defined.

(** ** Form encoding *)

Lemma allChars_app (P : ascii -> bool) (a b : string) :
  allChars P (a +:+ b) = allChars P a && allChars P b.
Proof. induction a as [|c a IH]; simpl; [reflexivity | now rewrite IH, andb_assoc]. Qed.

Lemma countChar_app (c : ascii) (a b : string) :
  countChar c (a +:+ b) = countChar c a + countChar c b.
Proof. induction a as [|d a IH]; simpl; [reflexivity | rewrite IH; lia]. Qed.

Lemma countChar_absent (P : ascii -> bool) (c : ascii) (s : string) :
  allChars P s = true -> P c = false -> countChar c s = 0.
Proof.
  intros Hs Hc. induction s as [|d s IH]; simpl; [reflexivity |].
  simpl in Hs. apply andb_true_iff in Hs as [Hd Hs]. rewrite (IH Hs).
  destruct (Ascii.eqb_spec d c) as [-> | _]; [congruence | reflexivity].
Qed.

Lemma encodeByte_safe (c : ascii) : allChars urlSafe (Runtime.encodeByte c) = true.
Proof. destruct c as [[] [] [] [] [] [] [] []]; vm_compute; reflexivity. Qed.

Lemma encode_safe (s : string) : allChars urlSafe (Runtime.encode s) = true.
Proof.
  induction s as [|c s IH]; simpl; [reflexivity |].
  now rewrite allChars_app, encodeByte_safe, IH.
Qed.

Lemma encodePair_count (nv : string * string) :
  countChar "=" (Runtime.encodePair nv) = 1 /\ countChar "&" (Runtime.encodePair nv) = 0.
Proof.
  unfold Runtime.encodePair. rewrite !countChar_app.
  rewrite !(countChar_absent urlSafe "=" _ (encode_safe _) eq_refl).
  rewrite !(countChar_absent urlSafe "&" _ (encode_safe _) eq_refl).
  split; reflexivity.
Qed.

Lemma searchParams_count (sp : Runtime.URLSearchParams) :
  countChar "=" (Runtime.searchParamsToString sp) = length sp /\
  countChar "&" (Runtime.searchParamsToString sp) = length sp - 1 /\
  countChar "?" (Runtime.searchParamsToString sp) = 0.
Proof.
  unfold Runtime.searchParamsToString.
  induction sp as [|nv sp IH]; [repeat split |].
  destruct (encodePair_count nv) as [Heq Hamp].
  assert (Hq : countChar "?" (Runtime.encodePair nv) = 0).
  { unfold Runtime.encodePair. rewrite !countChar_app.
    now rewrite !(countChar_absent urlSafe "?" _ (encode_safe _) eq_refl). }
  destruct sp as [|nv' sp']; [simpl; now rewrite Heq, Hamp, Hq |].
  change (join "&" (List.map Runtime.encodePair (nv :: nv' :: sp')))
    with (Runtime.encodePair nv +:+ "&"
          +:+ join "&" (List.map Runtime.encodePair (nv' :: sp'))).
  destruct IH as (IH1 & IH2 & IH3).
  rewrite !countChar_app, Heq, Hamp, Hq, IH1, IH2, IH3. simpl. repeat split; lia.
Qed.

(** X11.  A form-encoded name or value is made of letters, digits and the
    characters [* - . _ + %] only.  So in the text of the search parameters
    the separators are the structure and nothing else: there is one [=] per
    pair, one [&] between two pairs, and in the result of [serializeQuery]
    a question mark occurs only as the leading character. *)
Theorem X11_encoding_keeps_separators_out (s : string) (sp : Runtime.URLSearchParams)
    (input : option (list (string * Value))) :
  allChars urlSafe (Runtime.encode s) = true /\
  countChar "=" (Runtime.searchParamsToString sp) = length sp /\
  countChar "&" (Runtime.searchParamsToString sp) = length sp - 1 /\
  countChar "?" (Runtime.serializeQuery input)
  = (if String.eqb (Runtime.serializeQuery input) "" then 0 else 1).
Proof.
  split; [apply encode_safe |].
  destruct (searchParams_count sp) as (H1 & H2 & _). split; [exact H1 |]. split; [exact H2 |].
  unfold Runtime.serializeQuery. destruct input as [entries|]; [| reflexivity].
  cbv zeta. destruct (String.eqb _ "") eqn:E; [reflexivity |].
  change (String.eqb ("?" +:+ ?x) "") with false. simpl.
  now rewrite (proj2 (proj2 (searchParams_count _))).
Qed.

(** ** What the placeholder scan leaves alone *)

Lemma matchPlaceholder_inv (s name : string) (len : nat) :
  Hooks.matchPlaceholder s = Some (name, len) ->
  exists rest, s = String "{" (name +:+ String "}" rest) /\ len = String.length name + 2.
Proof.
  destruct s as [|c r]; [discriminate |]. unfold Hooks.matchPlaceholder.
  destruct (Ascii.eqb_spec c "{") as [-> | _]; [| discriminate].
  destruct (Hooks.spanWord r) as [w rest] eqn:E. apply spanWord_eq in E.
  destruct w as [|n ns]; [discriminate |]. destruct rest as [|d rest]; [discriminate |].
  destruct (Ascii.eqb_spec d "}") as [-> | _]; [| discriminate].
  intros [= <- <-]. exists rest. split; [now rewrite E | reflexivity].
Qed.

Lemma dropChars_zero (s : string) : dropChars 0 s = s.
Proof. destruct s; reflexivity. Qed.

Lemma dropChars_past (a : string) (c : ascii) (b : string) :
  dropChars (String.length a + 1) (a +:+ String c b) = b.
Proof. induction a as [|d a IH]; simpl; [apply dropChars_zero | exact IH]. Qed.

Lemma replaceFrom_asPlaceholder (s : string) (k : nat) :
  k <= String.length s -> Hooks.replaceFrom asPlaceholder k s = dropChars k s.
Proof.
  revert k; induction s as [|c s IH]; intros k Hk; [destruct k; reflexivity |].
  destruct k as [|k]; [| cbn [Hooks.replaceFrom dropChars]; apply IH; simpl in Hk; lia].
  cbn [Hooks.replaceFrom dropChars].
  destruct (Hooks.matchPlaceholder (String c s)) as [[name len]|] eqn:E.
  - destruct (matchPlaceholder_inv _ _ _ E) as (rest & Es & ->).
    assert (Hc : c = "{"%char) by congruence.
    assert (Hs : s = name +:+ String "}" rest) by congruence. subst c s.
    rewrite IH by (rewrite append_length; simpl; lia).
    replace (String.length name + 2 - 1) with (String.length name + 1) by lia.
    rewrite dropChars_past. unfold asPlaceholder. simpl. now rewrite append_assoc.
  - rewrite IH by lia. now rewrite dropChars_zero.
Qed.

Lemma replaceFrom_plain (f : string -> string) (s : string) :
  allChars notOpenBrace s = true -> Hooks.replaceFrom f 0 s = s.
Proof.
  induction s as [|c s IH]; [reflexivity |]. simpl allChars. intros Hs.
  apply andb_true_iff in Hs as [Hc Hs]. cbn [Hooks.replaceFrom].
  unfold Hooks.matchPlaceholder. unfold notOpenBrace in Hc.
  destruct (Ascii.eqb c "{"); [discriminate |]. now rewrite (IH Hs).
Qed.

(** X12.  The placeholder scan loses and repeats nothing: putting every
    placeholder back as it was gives the path back.  A path without an
    opening brace is left as it is by any callback, so for an operation
    with path parameters it is emitted between backquotes unchanged; an
    operation without path parameters gets its path between single quotes,
    placeholders included. *)
Theorem X12_scan_leaves_plain_text (path : string) (pathParams : list Param) (base : string) :
  Hooks.replacePlaceholders asPlaceholder path = path /\
  (allChars notOpenBrace path = true ->
     (forall f, Hooks.replacePlaceholders f path = path) /\
     (pathParams <> [] ->
        Hooks.buildPathWithParams path pathParams base = "`" +:+ path +:+ "`")) /\
  (pathParams = [] -> Hooks.buildPathWithParams path pathParams base = "'" +:+ path +:+ "'").
Proof.
  split.
  { unfold Hooks.replacePlaceholders. rewrite replaceFrom_asPlaceholder by lia.
    apply dropChars_zero. }
  split; [| intros ->; reflexivity].
  intros Hplain. split; [intros f; exact (replaceFrom_plain f path Hplain) |].
  intros Hne. destruct pathParams as [|p ps]; [now elim Hne |].
  unfold Hooks.buildPathWithParams, Hooks.replacePlaceholders.
  now rewrite (replaceFrom_plain _ path Hplain).
Qed.

Lemma X12_witness :
  Hooks.buildPathWithParams "/pets" [Examples.petIdParam true] "params"
  = "`" +:+ "/pets" +:+ "`".
Proof.
  destruct (X12_scan_leaves_plain_text "/pets" [Examples.petIdParam true] "params")
    as (_ & Hplain & _).
  destruct (Hplain eq_refl) as [_ Hpath]. apply Hpath. discriminate.
Defined.

(** ** The integration descriptor *)

Section Descriptor.
Import Node OpenApiTs.
Context {FS : Type} {H : Host FS}.

Lemma readConfig_Ok (d : FS) (path : string) (c : OpenApiTsConfig) :
  readConfig d path = Ok c ->
  exists text config,
    readFileSync d path = Ok text /\ JSON_parse text = Ok config /\
    config <> Null /\ config <> Undefined /\
    c_typesPath c = (if truthy (optGet config "typesPath") then optGet config "typesPath"
                     else Str "./src/api/types.ts").
Proof.
  unfold readConfig. destruct (readFileSync d path) as [text|e]; cbv [bind]; [| discriminate].
  destruct (JSON_parse text) as [config|e] eqn:Ep; [| discriminate].
  intros E. exists text, config. split; [reflexivity |]. split; [exact Ep |].
  destruct config; try discriminate; cbv [getProp] in E; apply Ok_inj in E; subst c;
    (split; [discriminate |]); (split; [discriminate |]); reflexivity.
Qed.

Lemma readConfig_total (d : FS) (path text : string) (config : Value) :
  readFileSync d path = Ok text -> JSON_parse text = Ok config ->
  config <> Null -> config <> Undefined ->
  exists c, readConfig d path = Ok c.
Proof.
  intros Er Ep Hn Hu. unfold readConfig. rewrite Er. cbv [bind]. rewrite Ep.
  destruct config; try congruence; eexists; reflexivity.
Qed.

(** X13.  The descriptor is accepted exactly when a non-empty path was
    given, the file there can be read, and its text parses to something
    other than [null].  An accepted descriptor always carries a usable
    types path, the one of the file or the default, and this is the types
    path of the integration: the fallback to a file under the output
    directory is never taken for it. *)
Theorem X13_descriptor_acceptance (d : FS) (configPath : option string)
    (specPath outDir : string) :
  ((exists c, loadOpenApiTsConfig d configPath = Some c) <->
   (exists path text config,
      configPath = Some path /\ path <> "" /\
      readFileSync d path = Ok text /\ JSON_parse text = Ok config /\
      config <> Null /\ config <> Undefined)) /\
  (forall c, loadOpenApiTsConfig d configPath = Some c ->
     truthy (c_typesPath c) = true /\
     typesPath (generateOpenApiTsIntegration specPath outDir (Some c)) = c_typesPath c).
Proof.
  split; [split |].
  - intros [c E]. unfold loadOpenApiTsConfig in E.
    destruct configPath as [path|]; [| discriminate].
    destruct (String.eqb_spec path "") as [-> | Hne]; [discriminate |].
    destruct (readConfig d path) as [c'|e] eqn:Ec; [| discriminate].
    destruct (readConfig_Ok d path c' Ec) as (text & config & Er & Ep & Hn & Hu & _).
    now exists path, text, config.
  - intros (path & text & config & -> & Hne & Er & Ep & Hn & Hu).
    destruct (readConfig_total d path text config Er Ep Hn Hu) as [c Ec].
    exists c. unfold loadOpenApiTsConfig.
    destruct (String.eqb_spec path "") as [-> | _]; [now elim Hne |]. now rewrite Ec.
  - intros c E. unfold loadOpenApiTsConfig in E.
    destruct configPath as [path|]; [| discriminate].
    destruct (String.eqb path ""); [discriminate |].
    destruct (readConfig d path) as [c'|e] eqn:Ec; [| discriminate].
    assert (c' = c) as -> by congruence.
    destruct (readConfig_Ok d path c Ec) as (text & config & _ & _ & _ & _ & Etp).
    assert (Ht : truthy (c_typesPath c) = true).
    { rewrite Etp. destruct (truthy (optGet config "typesPath")) eqn:Et; [exact Et | reflexivity]. }
    split; [exact Ht |]. cbn [generateOpenApiTsIntegration typesPath]. now rewrite Ht.
Qed.

End Descriptor.

(** ** Which ids give a hook name *)

Lemma splitLowerUpper_eq (c1 c2 : ascii) (r : string) :
  splitLowerUpper (String c1 (String c2 r))
  = if (isLower c1 || isDigit c1) && isUpper c2
    then String c1 (String ChangeCase.NUL (splitLowerUpper (String c2 r)))
    else String c1 (splitLowerUpper (String c2 r)).
Proof. reflexivity. Qed.

Lemma splitUpperUpper_eq (c1 c2 c3 : ascii) (r : string) :
  splitUpperUpper (String c1 (String c2 (String c3 r)))
  = if isUpper c1 && isUpper c2 && isLower c3
    then String c1 (String ChangeCase.NUL (splitUpperUpper (String c2 (String c3 r))))
    else String c1 (splitUpperUpper (String c2 (String c3 r))).
Proof. reflexivity. Qed.

Lemma splitLowerUpper_hasAlnum (s : string) : hasAlnum (splitLowerUpper s) = hasAlnum s.
Proof.
  induction s as [|c1 rest IH]; [reflexivity |].
  destruct rest as [|c2 r]; [reflexivity |]. rewrite splitLowerUpper_eq.
  destruct ((isLower c1 || isDigit c1) && isUpper c2); cbn [hasAlnum]; rewrite IH;
    reflexivity.
Qed.

Lemma splitUpperUpper_hasAlnum (s : string) : hasAlnum (splitUpperUpper s) = hasAlnum s.
Proof.
  induction s as [|c1 rest IH]; [reflexivity |].
  destruct rest as [|c2 [|c3 r]]; [reflexivity | reflexivity |].
  rewrite splitUpperUpper_eq.
  destruct (isUpper c1 && isUpper c2 && isLower c3); cbn [hasAlnum]; rewrite IH;
    reflexivity.
Qed.

Lemma flush_nil (cur : string) : ChangeCase.flush cur = [] <-> cur = "".
Proof.
  unfold ChangeCase.flush. destruct (String.eqb_spec cur "") as [-> | Hne]; split; congruence.
Qed.

Lemma wordsFrom_nil (s cur : string) :
  wordsFrom cur s = [] <-> cur = "" /\ hasAlnum s = false.
Proof.
  revert cur; induction s as [|c r IH]; intros cur; cbn [wordsFrom hasAlnum].
  - rewrite flush_nil. intuition.
  - destruct (isAlnum c); cbn [orb].
    + rewrite IH. split; [| intros [_ ?]; discriminate].
      intros [E _]. destruct cur; discriminate.
    + split.
      * intros E. apply app_eq_nil in E as [E1 E2]. apply flush_nil in E1.
        apply IH in E2 as [_ E2]. now split.
      * intros [-> E]. simpl. apply IH. now split.
Qed.

Lemma startsAlnum_app (a b : string) : a <> "" -> startsAlnum (a +:+ b) = startsAlnum a.
Proof. destruct a; [congruence | reflexivity]. Qed.

Lemma wordsFrom_head (s cur w : string) (ws : list string) :
  wordsFrom cur s = w :: ws -> cur = "" \/ startsAlnum cur = true -> startsAlnum w = true.
Proof.
  revert cur; induction s as [|c r IH]; intros cur; cbn [wordsFrom].
  - unfold ChangeCase.flush. destruct (String.eqb_spec cur "") as [-> | Hne]; [discriminate |].
    intros [= <- <-] [-> | Hc]; [congruence | exact Hc].
  - destruct (isAlnum c) eqn:Ec.
    + intros E Hcur. apply (IH _ E). right. destruct Hcur as [-> | Hc]; [exact Ec |].
      rewrite startsAlnum_app; [exact Hc |]. intros ->; discriminate.
    + unfold ChangeCase.flush. destruct (String.eqb_spec cur "") as [-> | Hne].
      * intros E _. apply (IH _ E). now left.
      * intros [= <- _] [-> | Hc]; [congruence | exact Hc].
Qed.

Lemma isAlnum_lowerChar (c : ascii) : isAlnum (lowerChar c) = isAlnum c.
Proof. destruct c as [[] [] [] [] [] [] [] []]; vm_compute; reflexivity. Qed.

Lemma concat_head (c : ascii) (r : string) (l : list string) :
  exists rest, String.concat "" (String c r :: l) = String c rest.
Proof. destruct l; simpl; eauto. Qed.

Lemma camelCase_cases (s : string) :
  (hasAlnum s = false /\ camelCase s = "") \/
  (hasAlnum s = true /\ startsAlnum (camelCase s) = true).
Proof.
  unfold camelCase, ChangeCase.split.
  destruct (wordsFrom "" (splitUpperUpper (splitLowerUpper s))) as [|w ws] eqn:E.
  - left. apply wordsFrom_nil in E as [_ E].
    now rewrite splitUpperUpper_hasAlnum, splitLowerUpper_hasAlnum in E.
  - right. split.
    + destruct (hasAlnum s) eqn:Es; [reflexivity |].
      assert (E' : wordsFrom "" (splitUpperUpper (splitLowerUpper s)) = []).
      { apply wordsFrom_nil. split; [reflexivity |].
        now rewrite splitUpperUpper_hasAlnum, splitLowerUpper_hasAlnum. }
      congruence.
    + pose proof (wordsFrom_head _ _ _ _ E (or_introl eq_refl)) as Hw.
      destruct w as [|c r]; [discriminate |]. cbn [toLowerCase mapChars].
      change (toLowerCase (String c r)) with (String (lowerChar c) (toLowerCase r)).
      destruct (concat_head (lowerChar c) (toLowerCase r) (List.map pascalCaseTransform ws))
        as [rest ->].
      cbn [startsAlnum]. rewrite isAlnum_lowerChar. exact Hw.
Qed.

Lemma startsAlnum_hasAlnum (s : string) : startsAlnum s = true -> hasAlnum s = true.
Proof. destruct s as [|c r]; [discriminate |]. simpl. now intros ->. Qed.

Lemma camelCase_nonempty_iff (s : string) : camelCase s <> "" <-> hasAlnum s = true.
Proof.
  destruct (camelCase_cases s) as [[Hs Hc] | [Hs Hc]]; rewrite Hs.
  - rewrite Hc. split; [congruence | discriminate].
  - split; [reflexivity |]. intros _ E. rewrite E in Hc. discriminate.
Qed.

Lemma allWord_noBraces (s : string) : Runtime.allWord s = true -> noBraces s = true.
Proof.
  induction s as [|c r IH]; [reflexivity |]. simpl. intros Hs.
  apply andb_true_iff in Hs as [Hc Hr]. rewrite (IH Hr), andb_true_r.
  destruct c as [[] [] [] [] [] [] [] []]; vm_compute in Hc |- *; congruence.
Qed.

(** X16.  A hook is rendered for an operation exactly when its id holds a
    letter or a digit (of ASCII, as [camelCase] is modelled): these are the
    ids whose camel-cased form is not empty.  Ids made of punctuation only
    (braces, underscores, dashes, slashes) are the ones on which rendering
    throws, and one such operation makes its whole hooks file fail. *)
Theorem X16_hooks_render_iff_id_has_alnum (tag : string) (op : Op) :
  (camelCase (operationId op) = "" <-> hasAlnum (operationId op) = false) /\
  ((exists text, Hooks.renderHook tag op = Ok text) <-> hasAlnum (operationId op) = true) /\
  (forall entries importBase,
     (exists file, Hooks.renderHooksTemplate entries importBase = Ok file) <->
     (forall t os o, In (t, os) entries -> In o os -> hasAlnum (operationId o) = true)).
Proof.
  split.
  { destruct (camelCase_cases (operationId op)) as [[Hs Hc] | [Hs Hc]]; rewrite Hs.
    - now rewrite Hc.
    - split; [| discriminate]. intros E. rewrite E in Hc. discriminate. }
  split.
  { rewrite renderHook_Ok_iff. apply camelCase_nonempty_iff. }
  intros entries importBase. rewrite renderHooksTemplate_Ok_iff.
  split; intros Hall t os o Hentry Ho; apply camelCase_nonempty_iff; eauto.
Qed.

(** X2.  An operation that declares no id gets the camel-cased form of its
    method and path.  This id is made of letters, digits and underscores,
    starts with a letter or a digit, is left as it is by the brace
    stripping, and its hook always renders. *)
Theorem X2_synthesized_id_renders (p : string) (item : Loader.PathItem) (m : HttpMethod)
    (opObj : Loader.OperationObject) :
  Loader.oo_operationId opObj = None ->
  operationId (Loader.buildOp p item m opObj) = camelCase (methodName m +:+ "_" +:+ p) /\
  Runtime.allWord (operationId (Loader.buildOp p item m opObj)) = true /\
  startsAlnum (operationId (Loader.buildOp p item m opObj)) = true /\
  (forall tag, exists text, Hooks.renderHook tag (Loader.buildOp p item m opObj) = Ok text).
Proof.
  intros Hnone.
  assert (Eid : operationId (Loader.buildOp p item m opObj)
                = camelCase (methodName m +:+ "_" +:+ p)).
  { cbn [operationId Loader.buildOp]. unfold Loader.operationIdOf. rewrite Hnone.
    apply stripBraces_fixed, allWord_noBraces, camelCase_word. }
  assert (Hstart : startsAlnum (camelCase (methodName m +:+ "_" +:+ p)) = true).
  { destruct (camelCase_cases (methodName m +:+ "_" +:+ p)) as [[Hs _] | [_ Hc]]; [| exact Hc].
    destruct m; discriminate. }
  rewrite Eid. split; [reflexivity |]. split; [apply camelCase_word |].
  split; [exact Hstart |]. intros tag. apply renderHook_Ok_iff. rewrite Eid.
  apply camelCase_nonempty_iff, startsAlnum_hasAlnum, Hstart.
Qed.

Lemma X2_witness :
  exists text,
    Hooks.renderHook "default"
      (Loader.buildOp "/pets/{petId}" (Examples.item None None) get
         (Examples.operation None None [])) = Ok text.
Proof.
  destruct (X2_synthesized_id_renders "/pets/{petId}" (Examples.item None None) get
              (Examples.operation None None []) eq_refl) as (_ & _ & _ & Hrender).
  exact (Hrender "default").
Defined.

(** ** What the document and the descriptor do not reach *)

Section Reach.
Import Node Generate.
Context {FS : Type} {H : Host FS}.

(** X17.  Of the document, only the paths reach the output: two documents
    with the same paths give the same operations, the same planned files
    with the same contents, and the same messages, whatever their titles,
    versions and servers. *)
Theorem X17_only_the_paths_reach_the_output (opts : GenerateOptions)
    (api api' : Loader.Document) (integration : option OpenApiTsIntegration) :
  Loader.d_paths api = Loader.d_paths api' ->
  ops (Loader.buildModel api) = ops (Loader.buildModel api') /\
  planFiles opts (Loader.buildModel api) integration (groupOps (ops (Loader.buildModel api)))
  = planFiles opts (Loader.buildModel api') integration
      (groupOps (ops (Loader.buildModel api'))) /\
  verboseMessage (Loader.buildModel api) = verboseMessage (Loader.buildModel api') /\
  summaryMessage opts (Loader.buildModel api) = summaryMessage opts (Loader.buildModel api').
Proof.
  intros E.
  assert (Eops : ops (Loader.buildModel api) = ops (Loader.buildModel api')).
  { cbn [ops Loader.buildModel]. now rewrite E. }
  split; [exact Eops |].
  unfold planFiles, coreFiles, generateTypesFile, verboseMessage, summaryMessage.
  rewrite Eops. repeat split.
Qed.

End Reach.

Lemma X17_witness :
  Generate.planFiles (H := Mem.host ∅) (Examples.options "petstore.yaml" None false)
    (Loader.buildModel Examples.petstore) None
    (Generate.groupOps (ops (Loader.buildModel Examples.petstore)))
  = Generate.planFiles (H := Mem.host ∅) (Examples.options "petstore.yaml" None false)
      (Loader.buildModel
         {| Loader.d_paths := Loader.d_paths Examples.petstore;
            Loader.d_info := Some {| Loader.i_title := Some "Pets";
                                     Loader.i_version := Some "2" |};
            Loader.d_servers := Some [Some "https://pets.example"] |})
      None
      (Generate.groupOps
         (ops (Loader.buildModel
                 {| Loader.d_paths := Loader.d_paths Examples.petstore;
                    Loader.d_info := Some {| Loader.i_title := Some "Pets";
                                             Loader.i_version := Some "2" |};
                    Loader.d_servers := Some [Some "https://pets.example"] |}))).
Proof.
  destruct (X17_only_the_paths_reach_the_output (H := Mem.host ∅)
              (Examples.options "petstore.yaml" None false) Examples.petstore
              {| Loader.d_paths := Loader.d_paths Examples.petstore;
                 Loader.d_info := Some {| Loader.i_title := Some "Pets";
                                          Loader.i_version := Some "2" |};
                 Loader.d_servers := Some [Some "https://pets.example"] |}
              None eq_refl) as (_ & Hplan & _).
  exact Hplan.
Defined.

Lemma includes_quoted (a q k b x y a' : string) :
  Runtime.removeSuffix x a = Some a' -> String.prefix y b = true ->
  includes (a +:+ q +:+ k +:+ q +:+ b) (x +:+ q +:+ k +:+ q +:+ y) = true.
Proof.
  intros Ha Hb. pose proof (includes_between a (q +:+ k +:+ q) b x y a' Ha Hb) as Hin.
  now rewrite !append_assoc in Hin.
Qed.

Lemma renderClient_base (baseUrl : string) (integration : option OpenApiTsIntegration) :
  includes (Client.renderClient baseUrl integration) (defaultBase baseUrl) = true.
Proof.
  unfold Client.renderClient, defaultBase. cbv zeta. do 2 skip_left.
  lazymatch goal with
  | |- includes (?a +:+ ?q +:+ ?k +:+ ?q +:+ ?b) _ = true =>
      eapply (includes_quoted a q k b "const base = (cfg.baseUrl ?? " ")");
      vm_compute; reflexivity
  end.
Qed.

(** X18.  The default base URL of the emitted client is the [baseUrl]
    option, with or without a descriptor.  Of the descriptor only the types
    path reaches [client.ts]: its base URL and headers do not, they go to
    [openapi-ts.config.ts] alone. *)
Theorem X18_client_base_url_is_the_option (baseUrl : string)
    (integration : option OpenApiTsIntegration) (i i' : OpenApiTsIntegration) :
  includes (Client.renderClient baseUrl integration) (defaultBase baseUrl) = true /\
  (typesPath i = typesPath i' ->
   Client.renderClient baseUrl (Some i) = Client.renderClient baseUrl (Some i')).
Proof.
  split; [apply renderClient_base |].
  intros E. unfold Client.renderClient. now rewrite E.
Qed.

Lemma X18_witness :
  Client.renderClient "/api"
    (Some {| typesPath := Str "./t.ts"; baseUrl := Some "https://a.example"; headers := None |})
  = Client.renderClient "/api"
      (Some {| typesPath := Str "./t.ts"; baseUrl := None; headers := Some (Obj []) |}).
Proof.
  destruct (X18_client_base_url_is_the_option "/api" None
              {| typesPath := Str "./t.ts"; baseUrl := Some "https://a.example";
                 headers := None |}
              {| typesPath := Str "./t.ts"; baseUrl := None; headers := Some (Obj []) |})
    as [_ Hsame].
  exact (Hsame eq_refl).
Defined.

(** ** The types written for parameters and responses *)

Lemma find_all_false {A : Type} (f : A -> bool) (l : list A) :
  (forall x, In x l -> f x = false) -> List.find f l = None.
Proof.
  intros Hall. destruct (List.find f l) as [x|] eqn:E; [| reflexivity].
  apply List.find_some in E as [Hin Hx]. rewrite (Hall x Hin) in Hx. discriminate.
Qed.

(** X19.  The hooks and [types.ts] give every parameter the same type, one
    of five: [number], [boolean], [any[]], [Record<string, any>], and
    [string] for everything else, a missing schema included.  A request
    body is always [any].  A response is [any[]], [Record<string, any>] or
    [any], and it is [any] whenever no response code starts with 2. *)
Theorem X19_types_are_coarse (p : Param) (op : Op) :
  Hooks.getTypeScriptType p = Generate.getTypeScriptType p /\
  In (Hooks.getTypeScriptType p) parameterTypes /\
  Hooks.generateRequestBodyType op = "any" /\
  In (Hooks.generateResponseType op) responseTypes /\
  ((forall e, In e (responses op) -> startsWith (fst e) "2" = false) ->
   Hooks.generateResponseType op = "any").
Proof.
  split; [reflexivity |]. split.
  { unfold Hooks.getTypeScriptType, parameterTypes. destruct (p_schema p) as [schema|].
    - destruct (Hooks.typeIs schema "integer" || Hooks.typeIs schema "number");
        [simpl; tauto |].
      destruct (Hooks.typeIs schema "boolean"); [simpl; tauto |].
      destruct (Hooks.typeIs schema "array"); [simpl; tauto |].
      destruct (Hooks.typeIs schema "object"); simpl; tauto.
    - simpl; tauto. }
  split; [reflexivity |]. split.
  { unfold Hooks.generateResponseType, responseTypes.
    destruct (List.find _ (responses op)) as [r|]; [| simpl; tauto].
    destruct (r_schema (snd r)) as [schema|]; [| simpl; tauto].
    destruct (Hooks.typeIs schema "array" && s_items schema); [simpl; tauto |].
    destruct (Hooks.typeIs schema "object"); simpl; tauto. }
  intros Hall. unfold Hooks.generateResponseType. rewrite find_all_false; [reflexivity |].
  intros e He. now rewrite (Hall e He).
Qed.

Lemma X19_witness :
  Hooks.generateResponseType notFoundOnly = "any".
Proof.
  destruct (X19_types_are_coarse (Examples.petIdParam true) notFoundOnly)
    as (_ & _ & _ & _ & Hany).
  apply Hany. intros e [<- | []]. reflexivity.
Defined.

(** ** Instances on the in-memory disk *)

(** The plan for the pet store: three core files and one hooks file per
    tag, at distinct paths. *)
Lemma X8_witness :
  exists files,
    Generate.planFiles (H := Mem.host ∅) (Examples.options "petstore.yaml" None false)
      (Loader.buildModel Examples.petstore) None
      (Generate.groupOps (ops (Loader.buildModel Examples.petstore))) = Ok files /\
    length files = 5 /\
    List.NoDup (List.map Generate.file_path files).
Proof.
  destruct (Generate.planFiles (H := Mem.host ∅) (Examples.options "petstore.yaml" None false)
              (Loader.buildModel Examples.petstore) None
              (Generate.groupOps (ops (Loader.buildModel Examples.petstore))))
    as [files|m] eqn:E; [| vm_compute in E; discriminate E].
  destruct (X8_planned_paths (H := Mem.host ∅) (Examples.options "petstore.yaml" None false)
              (Loader.buildModel Examples.petstore) None
              (Generate.groupOps (ops (Loader.buildModel Examples.petstore))) files E)
    as (_ & Hlen & Hnd).
  exists files. split; [reflexivity |]. split; [rewrite Hlen; vm_compute; reflexivity |].
  apply Hnd. vm_compute. repeat constructor; simpl; intuition discriminate.
Defined.

(** A file written where the next file needs a directory: the second
    file's directory cannot be made, and the run stops there with the first
    file on the disk. *)
Lemma X9_witness :
  exists w1 e,
    Generate.writeFiles (H := Mem.host ∅)
      [ {| Generate.file_path := "out/hooks"; Generate.file_contents := "x" |};
        {| Generate.file_path := "out/hooks/pets.generated.ts";
           Generate.file_contents := "y" |} ]
      Examples.world = (w1, Thrown e) /\
    Mem.files (Node.fs w1) !! "out/hooks" = Some "x" /\
    Mem.files (Node.fs w1) !! "out/hooks/pets.generated.ts" = None.
Proof.
  set (a := {| Generate.file_path := "out/hooks"; Generate.file_contents := "x" |}).
  set (b := {| Generate.file_path := "out/hooks/pets.generated.ts";
               Generate.file_contents := "y" |}).
  set (w1 := fst (Generate.writeFiles (H := Mem.host ∅) [a] Examples.world)).
  assert (Eb : Generate.writeFiles (H := Mem.host ∅) [a] Examples.world = (w1, Ok tt))
    by (vm_compute; reflexivity).
  destruct (Node.mkdir (Host := Mem.host ∅) (Node.fs w1)
              (Node.dirname (Host := Mem.host ∅) (Generate.file_path b)))
    as [d|e] eqn:Em; [vm_compute in Em; discriminate Em |].
  destruct (X9_writeFiles_stops_at_first_failure (H := Mem.host ∅) [a] [] b
              Examples.world w1 e Eb) as (Hfail & _).
  exists w1, e. split; [exact (Hfail Em) |]. split; vm_compute; reflexivity.
Defined.

(** ** A successful run of the program *)

Section CliRun.
Import Node OpenApiTs Generate.
Context {FS : Type} {H : Host FS}.

(** X20.  The command-line program never runs dry and never lists the
    operations.  When it exits with status 0 the document was bundled, the
    plan was built, every planned file was written, and the output stream
    got the summary line, followed by the integration line when a
    descriptor was accepted, and nothing else. *)
Theorem X20_successful_cli_run (opts : CliOptions) (w : World FS) :
  snd (main opts w) = 0 ->
  exists api files w1,
    bundle (fs w) (cli_schema opts) = Ok api /\
    plan (cliGenerateOptions opts) w = Ok files /\
    writeFiles files w = (w1, Ok tt) /\
    fs (fst (main opts w)) = fs w1 /\
    stdout (fst (main opts w))
    = stdout w
      ++ summaryMessage (cliGenerateOptions opts) (Loader.buildModel api)
         :: (if isSome (integrationOf (cliGenerateOptions opts) w)
             then [integrationMessage (cliGenerateOptions opts)] else []).
Proof.
  unfold main. rewrite generate_unfold, plan_unfold.
  cbn [cliGenerateOptions opt_schema opt_dryRun opt_verbose].
  destruct (bundle (fs w) (cli_schema opts)) as [api|e]; [| intros E; discriminate E].
  cbv zeta. unfold afterVerbose. cbn [cliGenerateOptions opt_verbose].
  destruct (planFiles _ _ _ _) as [files|e]; [| intros E; discriminate E].
  pose proof (writeFiles_console files w) as [Hout _].
  destruct (writeFiles files w) as [w1 [u|e]] eqn:Ew; [| intros E; discriminate E].
  intros _. destruct u. exists api, files, w1.
  split; [reflexivity |]. split; [reflexivity |]. split; [exact Ew |].
  cbn [fst snd] in *. unfold afterSummary.
  destruct (isSome (integrationOf (cliGenerateOptions opts) w));
    cbn [console_log fst fs stdout]; rewrite Hout; split; try reflexivity.
  now rewrite <- List.app_assoc.
Qed.

End CliRun.

Lemma X20_witness :
  Node.stdout (fst (Generate.main (H := Mem.host ∅) (Examples.cliOptions "petstore.yaml")
                      Examples.world))
  = ["✨ Generated 2 operations → out"].
Proof.
  destruct (X20_successful_cli_run (H := Mem.host ∅) (Examples.cliOptions "petstore.yaml")
              Examples.world) as (api & files & w1 & Eapi & _ & _ & _ & Hout);
    [vm_compute; reflexivity |].
  rewrite Hout. vm_compute in Eapi. apply Ok_inj in Eapi. subst api.
  vm_compute. reflexivity.
Defined.
